(** * diff-reviewer: unified-diff parsing, hunk splitting, hunk identity and
    the review-state engine.

    Shallow embedding of [src/git/diffParser.ts] and
    [src/state/stateManager.ts], with the properties of the specification
    proved against it.

    Modelling conventions.
    - A JavaScript string is a [string]; one character stands for one
      UTF-16 code unit (texts with code units below 256).
    - A JavaScript number that holds an integer is a [Z]; array indices
      and loop counters that never go below zero are [nat].  The code's
      numbers are doubles: its [+ 1], [- 1], [++], [parseInt] and
      [`${n}`] are the exact operations of [Z] while the values stay
      between [- maxExact] and [maxExact]; past that bound the code rounds
      where [Z] counts on.  The definitions stand for the code on that
      range, and the properties that read, count or print numbers are
      stated with the bound ([maxExact], [safeHunk]).
    - [Map<string, V>] is a [gmap string V]; a plain object used as a
      dictionary ([Record<string, V>]) is a [gmap string V] without the
      key [protoKey], which such an object does not take; arrays are
      lists, [push] appends at the end. *)

From Stdlib Require Import ZArith Ascii String List Lia.
From stdpp Require Import base option list strings gmap pretty.
From Equations Require Import Equations.

Local Open Scope Z_scope.

(** ** Data model ([src/types.ts]) *)

Inductive LineType := add | remove | context.

Record DiffLine := { type : LineType; content : string }.

Record DiffHunk := {
  oldStart : Z;
  oldCount : Z;
  newStart : Z;
  newCount : Z;
  header : string;
  lines : list DiffLine;
  rawLines : list string;
  id : option string
}.

Record DiffFile := {
  oldPath : string;
  newPath : string;
  hunks : list DiffHunk;
  isBinary : bool;
  diffHeader : list string
}.

Inductive HunkStatus := pending | approved | rejected.

Inductive ActionType := approve_t | reject_t.

Record UndoEntry := {
  entryType : ActionType;
  filePath : string;
  hunkId : string;
  forwardPatch : option string
}.

(** The bound up to which a double holds every integer, [2 ** 53]
    ([Number.MAX_SAFE_INTEGER + 1]). *)
Definition maxExact : Z := 2 ^ 53.

Global Instance LineType_eq_dec : EqDecision LineType.
Proof. solve_decision. Defined.
Global Instance DiffLine_eq_dec : EqDecision DiffLine.
Proof. solve_decision. Defined.
Global Instance HunkStatus_eq_dec : EqDecision HunkStatus.
Proof. solve_decision. Defined.
Global Instance ActionType_eq_dec : EqDecision ActionType.
Proof. solve_decision. Defined.

(** ** Hunk splitter ([splitHunks]) *)

(** [isContext l] is the test [l.type === 'context']. *)
Definition isContext (l : DiffLine) : bool :=
  match type l with context => true | _ => false end.

(** The variables the inner [while] of [splitHunks] updates. *)
Record Group := {
  g_oldLine : Z;
  g_newLine : Z;
  groupOldCount : Z;
  groupNewCount : Z;
  groupLines : list DiffLine;
  groupRawLines : list string
}.

(** Inner loop: [while (i < hunk.lines.length && hunk.lines[i].type !==
    'context')].  The index [i] is represented by the suffix
    [hunk.lines.slice(i)] that is still to be read; the loop returns the
    updated variables and the suffix at which it stopped.  [oldLine++] and
    [newLine++] are [+ 1] on [Z], which is what the code computes while
    the cursors are below [maxExact]. *)
Fixpoint collectGroup (rest : list DiffLine) (g : Group) : Group * list DiffLine :=
  match rest with
  | [] => (g, [])
  | line :: rest' =>
    match type line with
    | context => (g, rest)
    | remove =>
      collectGroup rest'
        {| g_oldLine := g_oldLine g + 1; g_newLine := g_newLine g;
           groupOldCount := groupOldCount g + 1; groupNewCount := groupNewCount g;
           groupLines := groupLines g ++ [line];
           groupRawLines := groupRawLines g ++ ["-" +:+ content line] |}
    | add =>
      collectGroup rest'
        {| g_oldLine := g_oldLine g; g_newLine := g_newLine g + 1;
           groupOldCount := groupOldCount g; groupNewCount := groupNewCount g + 1;
           groupLines := groupLines g ++ [line];
           groupRawLines := groupRawLines g ++ ["+" +:+ content line] |}
    end
  end.

(** The template literal
    [`@@ -${patchOldStart},${groupOldCount} +${patchNewStart},${groupNewCount} @@`].
    [pretty] writes a number in decimal digits, with a minus sign below
    zero, as [`${n}`] does for an integer between [- maxExact] and
    [maxExact]. *)
Definition formatHeader (patchOldStart oldC patchNewStart newC : Z) : string :=
  "@@ -" +:+ pretty patchOldStart +:+ "," +:+ pretty oldC +:+
  " +" +:+ pretty patchNewStart +:+ "," +:+ pretty newC +:+ " @@".

(** The object pushed on [result] when a group is complete. *)
Definition emitGroup (groupOldStart groupNewStart : Z) (g : Group) : DiffHunk :=
  let patchOldStart :=
    if groupOldCount g =? 0 then groupOldStart - 1 else groupOldStart in
  let patchNewStart :=
    if groupNewCount g =? 0 then groupNewStart - 1 else groupNewStart in
  let header :=
    formatHeader patchOldStart (groupOldCount g) patchNewStart (groupNewCount g) in
  {| oldStart := groupOldStart;
     oldCount := groupOldCount g;
     newStart := groupNewStart;
     newCount := groupNewCount g;
     header := header;
     lines := groupLines g;
     rawLines := header :: groupRawLines g;
     id := None |}.

Definition newGroup (oldLine newLine : Z) : Group :=
  {| g_oldLine := oldLine; g_newLine := newLine;
     groupOldCount := 0; groupNewCount := 0;
     groupLines := []; groupRawLines := [] |}.

(** Keeps the outcome of a test available to the termination proof. *)
Definition inspect {A : Type} (x : A) : {y : A | x = y} := exist _ x eq_refl.

(** Outer loop of [splitHunks] for one hunk: [while (i < hunk.lines.length)],
    with the cursors [oldLine] and [newLine]. *)
Equations splitLoop (rest : list DiffLine) (oldLine newLine : Z) : list DiffHunk
  by wf (length rest) lt :=
  splitLoop [] _ _ := [];
  splitLoop (line :: rest') oldLine newLine with inspect (isContext line) := {
    | exist _ true _ := splitLoop rest' (oldLine + 1) (newLine + 1);
    | exist _ false Hnc :=
        let r := collectGroup (line :: rest') (newGroup oldLine newLine) in
        emitGroup oldLine newLine r.1 ::
        splitLoop r.2 (g_oldLine r.1) (g_newLine r.1) }.
Next Obligation.
  assert (Hle : forall l g, (length (collectGroup l g).2 <= length l)%nat).
  { induction l as [|x l IH]; intros g; simpl; [lia|].
    destruct (type x); simpl; try (etrans; [apply IH|]); lia. }
  unfold isContext in Hnc. cbn [collectGroup].
  destruct (type line); try discriminate; simpl;
    (eapply Nat.le_lt_trans; [apply Hle|lia]).
Qed.

(** [splitHunks]: [for (const hunk of hunks)], all sub-hunks pushed on one
    [result] array. *)
Definition splitHunk (hunk : DiffHunk) : list DiffHunk :=
  splitLoop (lines hunk) (oldStart hunk) (newStart hunk).

Definition splitHunks (hunks : list DiffHunk) : list DiffHunk :=
  concat (map splitHunk hunks).

(** ** JavaScript string operations used by the parser *)

(** The line separator ["\n"] and the NUL character ["\0"]. *)
Definition NL : string := String (ascii_of_nat 10) "".
Definition NUL : string := String (ascii_of_nat 0) "".

(** [s.startsWith(p)] *)
Definition startsWith (s p : string) : bool := String.prefix p s.

(** [s.slice(n)] for [n >= 0] *)
Fixpoint slice (n : nat) (s : string) : string :=
  match n, s with
  | O, _ => s
  | S n', String _ s' => slice n' s'
  | S _, EmptyString => EmptyString
  end.

(** [s.split('\n')] *)
Fixpoint split (s : string) : list string :=
  match s with
  | EmptyString => [EmptyString]
  | String c s' =>
    if Ascii.eqb c (ascii_of_nat 10) then EmptyString :: split s'
    else match split s' with
         | l :: ls => String c l :: ls
         | [] => [String c EmptyString]
         end
  end.

(** [ls.join('\n')] *)
Definition join (ls : list string) : string := String.concat NL ls.

(** [s.indexOf(p)], [None] standing for [-1] *)
Fixpoint indexOf (s p : string) : option nat :=
  if startsWith s p then Some O
  else match s with
       | EmptyString => None
       | String _ s' => S <$> indexOf s' p
       end.

Definition isDigit (c : ascii) : bool :=
  (48 <=? nat_of_ascii c)%nat && (nat_of_ascii c <=? 57)%nat.

(** The longest prefix of digits, and what follows it. *)
Fixpoint spanDigits (s : string) : string * string :=
  match s with
  | String c s' =>
    if isDigit c then let (d, r) := spanDigits s' in (String c d, r)
    else (EmptyString, s)
  | EmptyString => (EmptyString, EmptyString)
  end.

(** [parseInt(d, 10)] on a string of decimal digits: the number the
    digits write.  The code returns that number when it is at most
    [maxExact] and the nearest double otherwise. *)
Definition parseInt (d : string) : Z :=
  fold_left (fun acc c => 10 * acc + (Z.of_nat (nat_of_ascii c) - 48))
            (list_ascii_of_string d) 0.

(** Removes the literal [p] from the front of [s]. *)
Definition expect (p s : string) : option string :=
  if startsWith s p then Some (slice (String.length p) s) else None.

(** [\d+]: at least one digit, as many as there are. *)
Definition digits1 (s : string) : option (string * string) :=
  let (d, r) := spanDigits s in
  match d with EmptyString => None | _ => Some (d, r) end.

(** [(?:,(\d+))?]: the group takes part when a comma and a digit follow. *)
Definition optCount (s : string) : option string * string :=
  match expect "," s with
  | Some r =>
    match digits1 r with
    | Some (d, r') => (Some d, r')
    | None => (None, s)
    end
  | None => (None, s)
  end.

(** [headerLine.match(re)] for the hunk-header pattern of [parseHunk],
    [^@@ -(\d+)(?:,(\d+))? \+(\d+)(?:,(\d+))? @@] followed by a fifth
    group that takes the rest of the line and is not used: the capture
    groups 1 to 4, or [None] when the line does not match.
    Every repetition is followed by a character that is not a digit, so
    the greedy match is the only one. *)
Definition matchHeader (headerLine : string)
  : option (string * option string * string * option string) :=
  s ← expect "@@ -" headerLine;
  '(m1, s) ← digits1 s;
  let '(m2, s) := optCount s in
  s ← expect " +" s;
  '(m3, s) ← digits1 s;
  let '(m4, s) := optCount s in
  _ ← expect " @@" s;
  Some (m1, m2, m3, m4).

(** [extractPath] *)
Definition extractPath (line pfx : string) : string :=
  match indexOf line pfx with
  | Some idx => slice (idx + String.length pfx) line
  | None => EmptyString
  end.

(** ** Diff parser ([parseDiff], [parseHunk]) *)

(** Outcome of running a piece of the parser: a value, a [TypeError]
    raised by calling a method on [undefined], or a loop that was still
    running when its iteration budget was used up. *)
Inductive result (A : Type) : Type :=
| Ok (a : A)
| Throw
| OutOfFuel.
Arguments Ok {A} a.
Arguments Throw {A}.
Arguments OutOfFuel {A}.

Global Instance result_ret : MRet result := fun A a => Ok a.
Global Instance result_bind : MBind result := fun A B f m =>
  match m with
  | Ok a => f a
  | Throw => Throw
  | OutOfFuel => OutOfFuel
  end.

Definition pushLine (hunk : DiffHunk) (l : DiffLine) (raw : string) : DiffHunk :=
  {| oldStart := oldStart hunk; oldCount := oldCount hunk;
     newStart := newStart hunk; newCount := newCount hunk;
     header := header hunk;
     lines := lines hunk ++ [l];
     rawLines := rawLines hunk ++ [raw];
     id := id hunk |}.

Definition pushRaw (hunk : DiffHunk) (raw : string) : DiffHunk :=
  {| oldStart := oldStart hunk; oldCount := oldCount hunk;
     newStart := newStart hunk; newCount := newCount hunk;
     header := header hunk;
     lines := lines hunk;
     rawLines := rawLines hunk ++ [raw];
     id := id hunk |}.

Section Parser.
(** [const lines = diffText.split('\n')] *)
Variable lines_ : list string.

(** [lines[i]] as the receiver of a method call: [undefined] throws. *)
Definition lineAt (i : nat) : result string :=
  match lines_ !! i with
  | Some l => Ok l
  | None => Throw
  end.

(** Every loop advances its index by at least one per iteration and
    stops at [lines.length], so this budget is never used up (see
    [parseDiff_ok]). *)
Definition budget : nat := S (length lines_).

(** The [while (i < lines.length)] loop of [parseHunk]. *)
Fixpoint parseHunkLoop (fuel : nat) (i : nat) (hunk : DiffHunk)
  : result (DiffHunk * nat) :=
  match fuel with
  | O => OutOfFuel
  | S fuel =>
    if (i <? length lines_)%nat then
      line ← lineAt i;
      if startsWith line "@@" || startsWith line "diff --git " then
        Ok (hunk, i)
      else if startsWith line "\ " then
        parseHunkLoop fuel (i + 1)%nat (pushRaw hunk line)
      else if startsWith line "+" then
        parseHunkLoop fuel (i + 1)%nat
          (pushLine hunk {| type := add; content := slice 1 line |} line)
      else if startsWith line "-" then
        parseHunkLoop fuel (i + 1)%nat
          (pushLine hunk {| type := remove; content := slice 1 line |} line)
      else if startsWith line " " || bool_decide (line = "") then
        if bool_decide (line = "") && (i =? length lines_ - 1)%nat then
          Ok (hunk, i)
        else
          parseHunkLoop fuel (i + 1)%nat
            (pushLine hunk {| type := context; content := slice 1 line |} line)
      else
        Ok (hunk, i)
    else Ok (hunk, i)
  end.

(** [parseHunk(lines, startIndex)] *)
Definition parseHunk (startIndex : nat) : result (DiffHunk * nat) :=
  headerLine ← lineAt startIndex;
  match matchHeader headerLine with
  | None =>
    Ok ({| oldStart := 0; oldCount := 0; newStart := 0; newCount := 0;
           header := headerLine; lines := []; rawLines := [headerLine];
           id := None |},
        (startIndex + 1)%nat)
  | Some (m1, m2, m3, m4) =>
    parseHunkLoop budget (startIndex + 1)%nat
      {| oldStart := parseInt m1;
         oldCount := match m2 with Some d => parseInt d | None => 1 end;
         newStart := parseInt m3;
         newCount := match m4 with Some d => parseInt d | None => 1 end;
         header := headerLine; lines := []; rawLines := [headerLine];
         id := None |}
  end.

(** The loop that skips the extended headers of a file. *)
Fixpoint skipExtendedHeaders (fuel : nat) (i : nat) : result nat :=
  match fuel with
  | O => OutOfFuel
  | S fuel =>
    if (i <? length lines_)%nat then
      line ← lineAt i;
      if negb (startsWith line "diff --git ") &&
         negb (startsWith line "---") &&
         negb (startsWith line "@@") &&
         negb (startsWith line "Binary")
      then skipExtendedHeaders fuel (i + 1)%nat
      else Ok i
    else Ok i
  end.

(** [i < lines.length && lines[i].startsWith(p)] *)
Definition lineStartsWith (i : nat) (p : string) : result bool :=
  if (i <? length lines_)%nat then
    line ← lineAt i; Ok (startsWith line p)
  else Ok false.

(** The loop that parses the hunks of a file. *)
Fixpoint parseHunksLoop (fuel : nat) (i : nat) (hs : list DiffHunk)
  : result (list DiffHunk * nat) :=
  match fuel with
  | O => OutOfFuel
  | S fuel =>
    if (i <? length lines_)%nat then
      line ← lineAt i;
      if negb (startsWith line "diff --git ") then
        if startsWith line "@@" then
          '(hunk, nextIndex) ← parseHunk i;
          parseHunksLoop fuel nextIndex (hs ++ [hunk])
        else
          parseHunksLoop fuel (i + 1)%nat hs
      else Ok (hs, i)
    else Ok (hs, i)
  end.

(** [if (i < lines.length && lines[i].startsWith('---')) { ... }]:
    the old path, the header lines so far and the next index. *)
Definition parseOldPath (i : nat) : result (string * list string * nat) :=
  isOld ← lineStartsWith i "---";
  if isOld : bool then
    oldLine ← lineAt i;
    Ok (if startsWith oldLine "--- a/" then slice 6 oldLine
        else slice 4 oldLine,
        [oldLine], (i + 1)%nat)
  else Ok (EmptyString, [], i).

(** [if (i < lines.length && lines[i].startsWith('+++')) { ... }] *)
Definition parseNewPath (hdr : list string) (i : nat)
  : result (string * list string * nat) :=
  isNew ← lineStartsWith i "+++";
  if isNew : bool then
    newLine ← lineAt i;
    Ok (if startsWith newLine "+++ b/" then slice 6 newLine
        else slice 4 newLine,
        hdr ++ [newLine], (i + 1)%nat)
  else Ok (EmptyString, hdr, i).

(** The main loop of [parseDiff]. *)
Fixpoint parseDiffLoop (fuel : nat) (i : nat) (files : list DiffFile)
  : result (list DiffFile) :=
  match fuel with
  | O => OutOfFuel
  | S fuel =>
    if (i <? length lines_)%nat then
      line ← lineAt i;
      if negb (startsWith line "diff --git ") then
        parseDiffLoop fuel (i + 1)%nat files
      else
        i ← skipExtendedHeaders budget (i + 1)%nat;
        isBin ← lineStartsWith i "Binary";
        if isBin : bool then
          let prev := default "" (lines_ !! (i - 1)%nat) in
          parseDiffLoop fuel (i + 1)%nat
            (files ++ [{| oldPath := extractPath prev "a/";
                          newPath := extractPath prev "b/";
                          hunks := []; isBinary := true;
                          diffHeader := [] |}])
        else
          '(oldP, hdr, i) ← parseOldPath i;
          '(newP, hdr, i) ← parseNewPath hdr i;
          '(hs, i) ← parseHunksLoop budget i [];
          parseDiffLoop fuel i
            (files ++ [{| oldPath := oldP; newPath := newP;
                          hunks := hs; isBinary := false;
                          diffHeader := hdr |}])
    else Ok files
  end.
End Parser.

(** [parseDiff(diffText)] *)
Definition parseDiff (diffText : string) : result (list DiffFile) :=
  let lines := split diffText in
  parseDiffLoop lines (budget lines) 0%nat [].

(** ** Hunk identity ([fnv1a], [computeHunkId], [computeHunkIds]) *)

(** [ToInt32] and [ToUint32]: the wrap-around of the 32-bit operators. *)
Definition toInt32 (z : Z) : Z := (z + 2 ^ 31) mod 2 ^ 32 - 2 ^ 31.
Definition toUint32 (z : Z) : Z := z mod 2 ^ 32.

(** [a ^ b] *)
Definition xor32 (a b : Z) : Z := toInt32 (Z.lxor (toInt32 a) (toInt32 b)).

(** [Math.imul(a, b)] *)
Definition imul (a b : Z) : Z := toInt32 (toInt32 a * toInt32 b).

(** [str.charCodeAt(i)] for each index in turn. *)
Definition charCodes (str : string) : list Z :=
  map (fun c => Z.of_nat (nat_of_ascii c)) (list_ascii_of_string str).

Definition hexDigit (d : Z) : ascii :=
  if d <? 10 then ascii_of_nat (Z.to_nat (48 + d))
  else ascii_of_nat (Z.to_nat (87 + d)).

(** The digits of [n] in base 16, most significant first, put in front of
    [acc]; [fuel] bounds the number of digits. *)
Fixpoint hexDigits (fuel : nat) (n : Z) (acc : string) : string :=
  match fuel with
  | O => acc
  | S fuel =>
    let acc' := String (hexDigit (n mod 16)) acc in
    if n / 16 =? 0 then acc' else hexDigits fuel (n / 16) acc'
  end.

(** [n.toString(16)] for an integer [n >= 0]. *)
Definition toString16 (n : Z) : string :=
  hexDigits (S (Z.to_nat (Z.log2 n))) n EmptyString.

Fixpoint repeatChar (n : nat) (c : ascii) : string :=
  match n with
  | O => EmptyString
  | S n' => String c (repeatChar n' c)
  end.

(** [s.padStart(n, c)] for a one-character filler. *)
Definition padStart (n : nat) (c : ascii) (s : string) : string :=
  repeatChar (n - String.length s) c +:+ s.

(** The [for] loop of [fnv1a]: the value of [hash] after the last
    character, starting from [0x811c9dc5] and multiplying by
    [0x01000193]. *)
Definition fnv1aLoop (str : string) : Z :=
  fold_left (fun hash code => imul (xor32 hash code) 16777619)
            (charCodes str) 2166136261.

(** [fnv1a]: [(hash >>> 0).toString(16).padStart(8, '0')] *)
Definition fnv1a (str : string) : string :=
  padStart 8 "0"%char (toString16 (toUint32 (fnv1aLoop str))).

Definition typeName (t : LineType) : string :=
  match t with
  | add => "add"
  | remove => "remove"
  | context => "context"
  end.

(** [l.type === 'add' || l.type === 'remove'] *)
Definition isChange (l : DiffLine) : Prop := type l = add \/ type l = remove.

Global Instance isChange_dec l : Decision (isChange l).
Proof. unfold isChange; apply _. Defined.

(** The text that is hashed: the changed lines only. *)
Definition changedContent (hunk : DiffHunk) : string :=
  join (map (fun l => typeName (type l) +:+ ":" +:+ content l)
            (filter isChange (lines hunk))).

(** [computeHunkId] *)
Definition computeHunkId (filePath : string) (hunk : DiffHunk) : string :=
  fnv1a (filePath +:+ NUL +:+ changedContent hunk).

(** Body of the first loop of [computeHunkIds], on the pair [(ids, seen)]. *)
Definition countStep (filePath : string)
  (st : list string * gmap string Z) (hunk : DiffHunk)
  : list string * gmap string Z :=
  let baseId := computeHunkId filePath hunk in
  let count := default 0 (st.2 !! baseId) + 1 in
  (st.1 ++ [if count =? 1 then baseId else baseId +:+ "-" +:+ pretty count],
   <[baseId := count]> st.2).

(** Body of the second loop: [if (seen.get(ids[i])! > 1) ids[i] = `${ids[i]}-1`].
    A key that is not in [seen] gives [undefined], and [undefined > 1] is
    false. *)
Definition relabelStep (seen : gmap string Z) (ids : list string) (i : nat)
  : list string :=
  match ids !! i with
  | Some baseId =>
    match seen !! baseId with
    | Some count =>
      if 1 <? count then <[i := baseId +:+ "-1"]> ids else ids
    | None => ids
    end
  | None => ids
  end.

(** [computeHunkIds] *)
Definition computeHunkIds (filePath : string) (hunks : list DiffHunk)
  : list string :=
  let '(ids, seen) := foldl (countStep filePath) ([], ∅) hunks in
  foldl (relabelStep seen) ids (seq 0 (length ids)).

(** What [GitAdapter.getDiff] does with each parsed file: split, compute
    the identities, store them in the sub-hunks. *)
Definition withId (h : DiffHunk) (i : string) : DiffHunk :=
  {| oldStart := oldStart h; oldCount := oldCount h;
     newStart := newStart h; newCount := newCount h;
     header := header h; lines := lines h; rawLines := rawLines h;
     id := Some i |}.

(** [a || b] on strings: the empty string is the only falsy one. *)
Definition orElse (a b : string) : string :=
  if bool_decide (a = "") then b else a.

Definition identify (f : DiffFile) : DiffFile :=
  let hs := splitHunks (hunks f) in
  let ids := computeHunkIds (orElse (newPath f) (oldPath f)) hs in
  {| oldPath := oldPath f; newPath := newPath f;
     hunks := zip_with withId hs ids;
     isBinary := isBinary f; diffHeader := diffHeader f |}.

(** ** Patch builder ([buildPatch]) *)

Definition buildPatch (file : DiffFile) (hunk : DiffHunk) : string :=
  join (["--- a/" +:+ orElse (oldPath file) (newPath file);
         "+++ b/" +:+ orElse (newPath file) (oldPath file)]
        ++ rawLines hunk) +:+ NL.

(** ** Review state engine ([StateManager]) *)

(** The value stored under [STORAGE_KEY]. *)
Abbreviation Blob := (gmap string (gmap string HunkStatus)).

(** The fields of a [StateManager].  [storage] is [None] when the engine
    was built without a memento; otherwise it holds what the memento has
    under [STORAGE_KEY] ([None] for [undefined]). *)
Record StateManager := {
  statuses : gmap string (gmap string HunkStatus);
  undoStack : list UndoEntry;
  storage : option (option Blob)
}.

(** Outcome of an [async] method: the value the promise resolves to, or a
    rejection raised by the version-control collaborator. *)
Inductive outcome (A : Type) : Type :=
| Returned (a : A)
| Rejected.
Arguments Returned {A} a.
Arguments Rejected {A}.

(** The interface of [GitAdapter] the engine calls.  [World] is whatever
    the collaborator acts on (working tree, call log). *)
Class GitAdapter (World : Type) := {
  getFileDiff : string -> World -> outcome (list DiffFile) * World;
  applyReverse : string -> World -> outcome unit * World;
  applyForward : string -> World -> outcome unit * World
}.

(** The property name that a plain object does not take as a key of its
    own: [o["__proto__"] = v] calls the prototype accessor, which sets the
    prototype when [v] is an object and does nothing when [v] is a string;
    either way [o] gets no own property. *)
Definition protoKey : string := "__proto__".

(** The object written by [persist]: per file the approved identities,
    files without one left out.  [obj] and [data] are plain objects, filled
    by [obj[id] = status] and [data[filePath] = obj], and what is stored
    and read back ([Object.keys], [Object.entries]) are their own
    properties: an identity or a path that is [protoKey] is not among
    them. *)
Definition approvedOnly (m : gmap string HunkStatus) : gmap string HunkStatus :=
  filter (fun kv => kv.2 = approved /\ kv.1 <> protoKey) m.

Definition persistData (sts : gmap string (gmap string HunkStatus)) : Blob :=
  omap (fun m =>
          let obj := approvedOnly m in
          if bool_decide (obj = ∅) then None else Some obj)
       (delete protoKey sts).

(** [persist] *)
Definition persist (st : StateManager) : StateManager :=
  match storage st with
  | None => st
  | Some _ =>
    {| statuses := statuses st; undoStack := undoStack st;
       storage := Some (Some (persistData (statuses st))) |}
  end.

(** The constructor, with [restoreFromStorage]. *)
Definition newStateManager (storage : option (option Blob)) : StateManager :=
  {| statuses := match storage with
                 | Some (Some data) => data
                 | _ => ∅
                 end;
     undoStack := [];
     storage := storage |}.

Definition setStatuses (st : StateManager)
  (sts : gmap string (gmap string HunkStatus)) : StateManager :=
  {| statuses := sts; undoStack := undoStack st; storage := storage st |}.

Definition setUndoStack (st : StateManager) (us : list UndoEntry) : StateManager :=
  {| statuses := statuses st; undoStack := us; storage := storage st |}.

(** [hunk.id] used as a condition: [undefined] and the empty string are
    falsy. *)
Definition truthyId (hunk : DiffHunk) : option string :=
  match id hunk with
  | Some i => if bool_decide (i = "") then None else Some i
  | None => None
  end.

(** [file.newPath || file.oldPath] *)
Definition pathOf (file : DiffFile) : string :=
  orElse (newPath file) (oldPath file).

(** The statuses returned for the hunks of a file, read from [m]:
    [h.id ? m.get(h.id) || 'pending' : 'pending']. *)
Definition statusArray (m : gmap string HunkStatus) (hs : list DiffHunk)
  : list HunkStatus :=
  map (fun h =>
         match truthyId h with
         | Some i => default pending (m !! i)
         | None => pending
         end) hs.

(** The map built by the loops of [syncStatuses]: every hunk with an
    identity gets [existing.get(hunk.id) || 'pending']; with no previous map
    that is ['pending']. *)
Definition buildMap (existing : gmap string HunkStatus) (hs : list DiffHunk)
  : gmap string HunkStatus :=
  foldl (fun m hunk =>
           match truthyId hunk with
           | Some i => <[i := default pending (existing !! i)]> m
           | None => m
           end) ∅ hs.

(** [syncStatuses] *)
Definition syncStatuses (file : DiffFile) (st : StateManager)
  : list HunkStatus * StateManager :=
  let path := pathOf file in
  let existing := statuses st !! path in
  let initial :=
    (map (fun _ => pending) (hunks file),
     persist (setStatuses st (<[path := buildMap ∅ (hunks file)]> (statuses st)))) in
  match existing with
  | None => initial
  | Some ex =>
    if bool_decide (size ex = 0%nat) then initial
    else
      let newMap := buildMap ex (hunks file) in
      (statusArray newMap (hunks file),
       persist (setStatuses st (<[path := newMap]> (statuses st))))
  end.

(** [getStatusArray] *)
Definition getStatusArray (file : DiffFile) (st : StateManager) : list HunkStatus :=
  match statuses st !! pathOf file with
  | None => map (fun _ => pending) (hunks file)
  | Some m => statusArray m (hunks file)
  end.

(** [approve] *)
Definition approve (filePath : string) (hunkId : string) (st : StateManager)
  : StateManager :=
  match statuses st !! filePath with
  | Some m =>
    if bool_decide (is_Some (m !! hunkId)) then
      persist
        {| statuses := <[filePath := <[hunkId := approved]> m]> (statuses st);
           undoStack := undoStack st ++
             [{| entryType := approve_t; filePath := filePath;
                 hunkId := hunkId; forwardPatch := None |}];
           storage := storage st |}
    else st
  | None => st
  end.

(** [approveAll] *)
Definition approveAll (filePath : string) (file : DiffFile) (st : StateManager)
  : StateManager :=
  match statuses st !! filePath with
  | None => st
  | Some m =>
    let '(m', stack') :=
      foldl (fun (acc : gmap string HunkStatus * list UndoEntry) hunk =>
               match truthyId hunk with
               | Some i =>
                 if bool_decide (acc.1 !! i = Some pending) then
                   (<[i := approved]> acc.1,
                    acc.2 ++ [{| entryType := approve_t; filePath := filePath;
                                 hunkId := i; forwardPatch := None |}])
                 else acc
               | None => acc
               end) (m, undoStack st) (hunks file) in
    persist {| statuses := <[filePath := m']> (statuses st);
               undoStack := stack';
               storage := storage st |}
  end.

(** [this.undoStack.splice(i, 1)] for the last [i] whose entry satisfies the
    test, found by the downward [for] loop of [undoApprove]. *)
Fixpoint removeLastMatch (test : UndoEntry -> bool) (stack : list UndoEntry)
  : list UndoEntry :=
  match stack with
  | [] => []
  | e :: rest =>
    if existsb test rest then e :: removeLastMatch test rest
    else if test e then rest
    else e :: rest
  end.

(** [e.type === 'approve' && e.filePath === filePath && e.hunkId === hunkId] *)
Definition isApproveOf (path ident : string) (e : UndoEntry) : bool :=
  bool_decide (entryType e = approve_t) &&
  bool_decide (filePath e = path) &&
  bool_decide (hunkId e = ident).

(** [undoApprove] *)
Definition undoApprove (filePath : string) (hunkId : string) (st : StateManager)
  : StateManager :=
  match statuses st !! filePath with
  | Some m =>
    if bool_decide (m !! hunkId = Some approved) then
      persist
        {| statuses := <[filePath := <[hunkId := pending]> m]> (statuses st);
           undoStack := removeLastMatch (isApproveOf filePath hunkId) (undoStack st);
           storage := storage st |}
    else st
  | None => st
  end.

(** [clear] *)
Definition clear (st : StateManager) : StateManager :=
  persist {| statuses := ∅; undoStack := []; storage := storage st |}.

(** [pruneCommittedFiles] *)
Definition pruneCommittedFiles (currentDiffFiles : list DiffFile)
  (st : StateManager) : StateManager :=
  let currentPaths : gset string := list_to_set (map pathOf currentDiffFiles) in
  let kept := filter (fun kv => kv.1 ∈ currentPaths) (statuses st) in
  let changed := bool_decide (kept ≠ statuses st) in
  if changed then persist (setStatuses st kept) else st.

Section Engine.
Context {World : Type} `{git : GitAdapter World}.

(** [reject] *)
Definition reject (filePath : string) (hunkId : string) (file : DiffFile)
  (st : StateManager) (w : World)
  : outcome (option DiffFile) * StateManager * World :=
  match find (fun h => bool_decide (id h = Some hunkId)) (hunks file) with
  | None => (Returned None, st, w)
  | Some hunk =>
    let patch := buildPatch file hunk in
    let forwardPatch := patch in
    match applyReverse patch w with
    | (Rejected, w) => (Rejected, st, w)
    | (Returned _, w) =>
      let st := setUndoStack st
        (undoStack st ++
           [{| entryType := reject_t; filePath := filePath;
               hunkId := hunkId; forwardPatch := Some forwardPatch |}]) in
      let st :=
        match statuses st !! filePath with
        | Some m =>
          setStatuses st (<[filePath := delete hunkId m]> (statuses st))
        | None => st
        end in
      match getFileDiff filePath w with
      | (Rejected, w) => (Rejected, st, w)
      | (Returned [], w) =>
        (Returned None,
         persist (setStatuses st (delete filePath (statuses st))), w)
      | (Returned (freshFile :: _), w) =>
        (Returned (Some freshFile), (syncStatuses freshFile st).2, w)
      end
    end
  end.

(** [undo] *)
Definition undo (st : StateManager) (w : World)
  : outcome (option (string * ActionType)) * StateManager * World :=
  match last (undoStack st) with
  | None => (Returned None, st, w)
  | Some entry =>
    let st := setUndoStack st (removelast (undoStack st)) in
    match entryType entry with
    | approve_t =>
      let st :=
        match statuses st !! filePath entry with
        | Some m =>
          if bool_decide (is_Some (m !! hunkId entry)) then
            setStatuses st
              (<[filePath entry := <[hunkId entry := pending]> m]>
                 (statuses st))
          else st
        | None => st
        end in
      (Returned (Some (filePath entry, entryType entry)), persist st, w)
    | reject_t =>
      match forwardPatch entry with
      | Some p =>
        if bool_decide (p = "") then
          (Returned (Some (filePath entry, entryType entry)), persist st, w)
        else
          match applyForward p w with
          | (Rejected, w) => (Rejected, st, w)
          | (Returned _, w) =>
            (Returned (Some (filePath entry, entryType entry)), persist st, w)
          end
      | None =>
        (Returned (Some (filePath entry, entryType entry)), persist st, w)
      end
    end
  end.
End Engine.

(** ** Notions used to state the properties *)

(** How far a sequence of hunk lines moves the old-line and the new-line
    cursor: an added line is not in the old file, a removed line is not in
    the new one. *)
Definition oldAdvance (ls : list DiffLine) : Z :=
  Z.of_nat (length (filter (fun l => type l <> add) ls)).

Definition newAdvance (ls : list DiffLine) : Z :=
  Z.of_nat (length (filter (fun l => type l <> remove) ls)).

(** The literal diff line of a changed line. *)
Definition rawOf (l : DiffLine) : string :=
  match type l with
  | add => "+" +:+ content l
  | remove => "-" +:+ content l
  | context => " " +:+ content l
  end.

(** [startsWithContext ls]: [ls] is empty or begins with a context line. *)
Definition startsWithContext (ls : list DiffLine) : Prop :=
  match ls with
  | [] => True
  | l :: _ => isContext l = true
  end.

(** [maximalRuns ls runs]: [runs] lists, in order, the maximal contiguous
    runs of non-context lines of [ls].  A run is not empty, holds changed
    lines only, and is followed by a context line or by the end of [ls];
    what separates two runs is context. *)
Inductive maximalRuns : list DiffLine -> list (list DiffLine) -> Prop :=
| runs_end : maximalRuns [] []
| runs_context l ls runs :
    isContext l = true -> maximalRuns ls runs -> maximalRuns (l :: ls) runs
| runs_run run rest runs :
    run <> [] -> Forall isChange run -> startsWithContext rest ->
    maximalRuns rest runs -> maximalRuns (run ++ rest) (run :: runs).

(** The sub-hunk [splitHunks] emits for the run [run] met with the cursors
    at [groupOldStart] and [groupNewStart], in closed form. *)
Definition runHunk (groupOldStart groupNewStart : Z) (run : list DiffLine)
  : DiffHunk :=
  let hdr :=
    formatHeader
      (if oldAdvance run =? 0 then groupOldStart - 1 else groupOldStart)
      (oldAdvance run)
      (if newAdvance run =? 0 then groupNewStart - 1 else groupNewStart)
      (newAdvance run) in
  {| oldStart := groupOldStart; oldCount := oldAdvance run;
     newStart := groupNewStart; newCount := newAdvance run;
     header := hdr; lines := run; rawLines := hdr :: map rawOf run;
     id := None |}.

(** [hasNL s]: the line separator occurs in [s]. *)
Fixpoint hasNL (s : string) : bool :=
  match s with
  | EmptyString => false
  | String c s' => Ascii.eqb c (ascii_of_nat 10) || hasNL s'
  end.

Definition noNL (s : string) : Prop := hasNL s = false.

(** The hunk [parseHunk] returns for a header that does not match. *)
Definition degenerateHunk (headerLine : string) : DiffHunk :=
  {| oldStart := 0; oldCount := 0; newStart := 0; newCount := 0;
     header := headerLine; lines := []; rawLines := [headerLine];
     id := None |}.

(** [isBodyLine line]: the loop of [parseHunk] keeps [line] in [rawLines]
    (whether it does for an empty line depends on where the line is). *)
Definition isBodyLine (line : string) : bool :=
  startsWith line "\ " || startsWith line "+" || startsWith line "-" ||
  startsWith line " " || bool_decide (line = "").

(** The entry of [lines] the loop of [parseHunk] makes of a body line:
    none for a no-newline marker. *)
Definition classifyLine (line : string) : option DiffLine :=
  if startsWith line "\ " then None
  else if startsWith line "+" then Some {| type := add; content := slice 1 line |}
  else if startsWith line "-" then Some {| type := remove; content := slice 1 line |}
  else Some {| type := context; content := slice 1 line |}.

Definition classify (body : list string) : list DiffLine :=
  omap classifyLine body.

(** [parseHunk]'s result for the header [hdr] followed by the body lines
    [body], in closed form. *)
Definition parsedHunk (hdr : string) (body : list string) : DiffHunk :=
  match matchHeader hdr with
  | None => degenerateHunk hdr
  | Some (m1, m2, m3, m4) =>
    {| oldStart := parseInt m1;
       oldCount := match m2 with Some d => parseInt d | None => 1 end;
       newStart := parseInt m3;
       newCount := match m4 with Some d => parseInt d | None => 1 end;
       header := hdr; lines := classify body; rawLines := hdr :: body;
       id := None |}
  end.

(** [hunk] after the loop of [parseHunk] has kept the lines [body]. *)
Definition appendBody (hunk : DiffHunk) (body : list string) : DiffHunk :=
  {| oldStart := oldStart hunk; oldCount := oldCount hunk;
     newStart := newStart hunk; newCount := newCount hunk;
     header := header hunk;
     lines := lines hunk ++ classify body;
     rawLines := rawLines hunk ++ body;
     id := id hunk |}.

(** What holds of every hunk and file the parser makes from the lines
    [lines_]: a hunk is the closed-form hunk of a header line and body
    lines taken from the input, and a path is the tail of an input line. *)
Definition goodHunk (lines_ : list string) (h : DiffHunk) : Prop :=
  exists hdr body,
    h = parsedHunk hdr body /\ hdr ∈ lines_ /\ startsWith hdr "@@" = true /\
    Forall (fun r => r ∈ lines_ /\ isBodyLine r = true) body /\
    (matchHeader hdr = None -> body = []).

Definition pathFrom (lines_ : list string) (p : string) : Prop :=
  exists line n, (line ∈ lines_ \/ line = "") /\ p = slice n line.

Definition goodFile (lines_ : list string) (f : DiffFile) : Prop :=
  Forall (goodHunk lines_) (hunks f) /\
  pathFrom lines_ (oldPath f) /\ pathFrom lines_ (newPath f).

(** [occ b l]: how many times the hash [b] occurs in [l]. *)
Definition occ (b : string) (l : list string) : nat :=
  length (filter (fun x => x = b) l).

(** The identity the specification gives to the hunk at index [i] of a
    batch whose hashes are [bases], [b] being the hash at [i]: the bare
    hash when [b] occurs once in the batch, and otherwise the hash with the
    suffix [-k], where the hunk is the [k]-th of the batch with that
    hash. *)
Definition labelAt (bases : list string) (i : nat) (b : string) : string :=
  if bool_decide (occ b bases = 1%nat) then b
  else b +:+ "-" +:+ pretty (Z.of_nat (S (occ b (take i bases)))).

(** The identities present in a file: the [id] of every hunk that has a
    non-empty one. *)
Definition identities (file : DiffFile) : list string :=
  omap truthyId (hunks file).

(** The entry of the status maps for an identity of a path, if any. *)
Definition statusEntry (sts : gmap string (gmap string HunkStatus))
  (path ident : string) : option HunkStatus :=
  sts !! path ≫= fun m => m !! ident.

(** The status of an identity as the engine reports it: [pending] when
    there is no entry. *)
Definition statusOf (st : StateManager) (path ident : string) : HunkStatus :=
  default pending (statusEntry (statuses st) path ident).

(** The stored blob agrees with the statuses in memory: it is what
    [persist] writes for them.  An engine without a memento has no blob;
    a memento never written to counts as an empty blob. *)
Definition storageInSync (st : StateManager) : Prop :=
  match storage st with
  | None => True
  | Some blob => default ∅ blob = persistData (statuses st)
  end.

(** Every [reject] entry of the undo stack holds a non-empty patch text. *)
Definition carriesPatch (st : StateManager) : Prop :=
  Forall (fun e => entryType e = reject_t ->
                   exists p, forwardPatch e = Some p /\ p <> "")
         (undoStack st).

(** ** Example inputs *)

(** The collaborator used by the tests of the engine: it records the
    patches it is asked to apply and answers [getFileDiff] with a fixed
    list of files. *)
Record MockGitAdapter := {
  appliedReverse : list string;
  appliedForward : list string;
  nextFileDiff : list DiffFile
}.

Global Instance mockGit : GitAdapter MockGitAdapter := {|
  getFileDiff := fun _ g => (Returned (nextFileDiff g), g);
  applyReverse := fun patch g =>
    (Returned tt,
     {| appliedReverse := appliedReverse g ++ [patch];
        appliedForward := appliedForward g;
        nextFileDiff := nextFileDiff g |});
  applyForward := fun patch g =>
    (Returned tt,
     {| appliedReverse := appliedReverse g;
        appliedForward := appliedForward g ++ [patch];
        nextFileDiff := nextFileDiff g |})
|}.

Definition freshMock : MockGitAdapter :=
  {| appliedReverse := []; appliedForward := []; nextFileDiff := [] |}.

(** [makeHunk({ id })] and [makeFile(hunks)] of the engine's tests. *)
Definition makeHunk (ident : string) : DiffHunk :=
  {| oldStart := 1; oldCount := 3; newStart := 1; newCount := 4;
     header := "@@ -1,3 +1,4 @@";
     lines := [{| type := context; content := "hello" |};
               {| type := remove; content := "world" |};
               {| type := add; content := "beautiful world" |};
               {| type := add; content := "today" |};
               {| type := context; content := "end" |}];
     rawLines := ["@@ -1,3 +1,4 @@"; " hello"; "-world"; "+beautiful world";
                  "+today"; " end"];
     id := Some ident |}.

Definition makeFile (hs : list DiffHunk) : DiffFile :=
  {| oldPath := "test.txt"; newPath := "test.txt"; hunks := hs;
     isBinary := false; diffHeader := ["--- a/test.txt"; "+++ b/test.txt"] |}.

(** The engine of the test "approved status survives hunk index shift",
    with a memento, after the first sync and the approval of [hunk-B]. *)
Definition shiftedBefore : StateManager :=
  approve "test.txt" "hunk-B"
    (syncStatuses (makeFile [makeHunk "hunk-A"; makeHunk "hunk-B"])
                  (newStateManager (Some None))).2.

Definition shiftedFile : DiffFile :=
  makeFile [makeHunk "hunk-NEW"; makeHunk "hunk-A"; makeHunk "hunk-B"].

(** The hunk of the test "handles pure deletion group", with one more
    added line at its end. *)
Definition deletionHunk : DiffHunk :=
  {| oldStart := 10; oldCount := 4; newStart := 10; newCount := 3;
     header := "@@ -10,4 +10,3 @@";
     lines := [{| type := context; content := "keep" |};
               {| type := remove; content := "gone1" |};
               {| type := remove; content := "gone2" |};
               {| type := context; content := "keep2" |};
               {| type := add; content := "fresh" |}];
     rawLines := ["@@ -10,4 +10,3 @@"; " keep"; "-gone1"; "-gone2"; " keep2";
                  "+fresh"];
     id := None |}.

(** Three sub-hunks, the first and the third with the same changed line. *)
Definition twinHunks : list DiffHunk :=
  [runHunk 3 3 [{| type := remove; content := "world" |}];
   runHunk 7 6 [{| type := add; content := "other" |}];
   runHunk 9 9 [{| type := remove; content := "world" |}]].

(** The valid diff of the specification's end-to-end scenario, the file
    and the hunk it parses to. *)
Definition simpleDiff : string :=
  "diff --git a/a.txt b/a.txt" +:+ NL +:+
  "index 1234567..89abcde 100644" +:+ NL +:+
  "--- a/a.txt" +:+ NL +:+
  "+++ b/a.txt" +:+ NL +:+
  "@@ -1,3 +1,4 @@" +:+ NL +:+
  " hello" +:+ NL +:+
  "-world" +:+ NL +:+
  "+beautiful world" +:+ NL +:+
  "+today" +:+ NL +:+
  " end" +:+ NL.

Definition simpleHunk : DiffHunk :=
  {| oldStart := 1; oldCount := 3; newStart := 1; newCount := 4;
     header := "@@ -1,3 +1,4 @@";
     lines := [{| type := context; content := "hello" |};
               {| type := remove; content := "world" |};
               {| type := add; content := "beautiful world" |};
               {| type := add; content := "today" |};
               {| type := context; content := "end" |}];
     rawLines := ["@@ -1,3 +1,4 @@"; " hello"; "-world"; "+beautiful world";
                  "+today"; " end"];
     id := None |}.

Definition simpleFile : DiffFile :=
  {| oldPath := "a.txt"; newPath := "a.txt"; hunks := [simpleHunk];
     isBinary := false; diffHeader := ["--- a/a.txt"; "+++ b/a.txt"] |}.

(** A text with a malformed hunk header between two well-formed parts. *)
Definition malformedDiff : string :=
  "diff --git a/a.txt b/a.txt" +:+ NL +:+
  "--- a/a.txt" +:+ NL +:+
  "+++ b/a.txt" +:+ NL +:+
  "@@ bogus @@" +:+ NL +:+
  "@@ -1,2 +1,2 @@" +:+ NL +:+
  " keep" +:+ NL +:+
  "-old" +:+ NL +:+
  "+new" +:+ NL.

(** The diff of a file before and after two lines are inserted near its
    top, the later change being the same in both. *)
Definition editBefore : string :=
  "diff --git a/a.txt b/a.txt" +:+ NL +:+
  "--- a/a.txt" +:+ NL +:+
  "+++ b/a.txt" +:+ NL +:+
  "@@ -10,3 +10,3 @@" +:+ NL +:+
  " ten" +:+ NL +:+
  "-eleven" +:+ NL +:+
  "+ELEVEN" +:+ NL +:+
  " twelve" +:+ NL.

Definition editAfter : string :=
  "diff --git a/a.txt b/a.txt" +:+ NL +:+
  "--- a/a.txt" +:+ NL +:+
  "+++ b/a.txt" +:+ NL +:+
  "@@ -1,2 +1,4 @@" +:+ NL +:+
  " one" +:+ NL +:+
  "+one and a half" +:+ NL +:+
  "+one and three quarters" +:+ NL +:+
  " two" +:+ NL +:+
  "@@ -10,3 +12,3 @@" +:+ NL +:+
  " ten" +:+ NL +:+
  "-eleven" +:+ NL +:+
  "+ELEVEN" +:+ NL +:+
  " twelve" +:+ NL.

(** [GitAdapter.getDiff] on a given raw diff. *)
Definition getDiffOf (raw : string) : list DiffFile :=
  match parseDiff raw with
  | Ok files => map identify files
  | _ => []
  end.

(** ** Further notions *)

(** [wellSeparated subs]: each sub-hunk ends, on the old and on the new
    side, strictly before the next one starts. *)
Fixpoint wellSeparated (subs : list DiffHunk) : Prop :=
  match subs with
  | s1 :: (s2 :: _) as rest =>
    oldStart s1 + oldCount s1 < oldStart s2 /\
    newStart s1 + newCount s1 < newStart s2 /\
    wellSeparated rest
  | _ => True
  end.

(** The sum of a list of numbers. *)
Definition sumZ (l : list Z) : Z := foldr Z.add 0 l.

(** [allDigits s]: every character of [s] is a decimal digit. *)
Fixpoint allDigits (s : string) : bool :=
  match s with
  | EmptyString => true
  | String c s' => isDigit c && allDigits s'
  end.

(** [noDigitHead s]: [s] does not begin with a digit. *)
Definition noDigitHead (s : string) : Prop :=
  match s with
  | EmptyString => True
  | String c _ => isDigit c = false
  end.

(** The text of a hunk header as [git diff] prints it: the old and the
    new range, each count left out or given, then whatever follows the
    closing [@@] on the line. *)
Definition countText (count : option Z) (tail : string) : string :=
  match count with
  | Some c => "," +:+ pretty c +:+ tail
  | None => tail
  end.

Definition headerText (a : Z) (b : option Z) (c : Z) (d : option Z)
  (rest : string) : string :=
  "@@ -" +:+ pretty a +:+
  countText b (" +" +:+ pretty c +:+ countText d (" @@" +:+ rest)).

(** A count the header leaves out stands for 1. *)
Definition countOr1 (count : option Z) : Z :=
  match count with Some c => c | None => 1 end.


(** No line of [lines_] from [i] up to [j], [j] excluded, starts a
    file. *)
Definition noStartBetween (lines_ : list string) (i j : nat) : Prop :=
  forall k line, (i <= k < j)%nat -> lines_ !! k = Some line ->
    startsWith line "diff --git " = false.

(** [fileStarts ls]: how many lines of [ls] start a file. *)
Definition fileStarts (ls : list string) : nat :=
  length (filter (fun l => startsWith l "diff --git " = true) ls).

(** What [parseDiff] fills in of a file: a binary file has no hunks and
    no header lines, any other file at most the two header lines. *)
Definition fileShape (f : DiffFile) : Prop :=
  (isBinary f = true -> hunks f = [] /\ diffHeader f = []) /\
  (length (diffHeader f) <= 2)%nat.



(** Reading a string of lower-case hexadecimal digits as a number. *)
Definition isHexChar (c : ascii) : bool :=
  let k := Z.of_nat (nat_of_ascii c) in
  ((48 <=? k) && (k <=? 57)) || ((97 <=? k) && (k <=? 102)).

Fixpoint allHex (s : string) : bool :=
  match s with
  | EmptyString => true
  | String c s' => isHexChar c && allHex s'
  end.

Definition hexCharValue (c : ascii) : Z :=
  let k := Z.of_nat (nat_of_ascii c) in
  if k <=? 57 then k - 48 else k - 87.

Definition hexValueFrom (v : Z) (s : string) : Z :=
  fold_left (fun v c => 16 * v + hexCharValue c) (list_ascii_of_string s) v.

Definition hexValue (s : string) : Z := hexValueFrom 0 s.

(** Two lines are the same change: of the same type and, unless they are
    context, with the same content. *)
Definition sameChange (l l' : DiffLine) : Prop :=
  type l = type l' /\ (isChange l -> content l = content l').

(** [deletionHunk] after three lines were inserted above it and its
    context lines were edited. *)
Definition movedDeletionHunk : DiffHunk :=
  {| oldStart := 10; oldCount := 4; newStart := 13; newCount := 3;
     header := "@@ -10,4 +13,3 @@";
     lines := [{| type := context; content := "kept" |};
               {| type := remove; content := "gone1" |};
               {| type := remove; content := "gone2" |};
               {| type := context; content := "kept too" |};
               {| type := add; content := "fresh" |}];
     rawLines := ["@@ -10,4 +13,3 @@"; " kept"; "-gone1"; "-gone2";
                  " kept too"; "+fresh"];
     id := None |}.

(** ** The rest of the review state engine and its callers *)

(** [isFileResolved] *)
Definition isFileResolved (filePath : string) (st : StateManager) : bool :=
  match statuses st !! filePath with
  | None => false
  | Some m =>
    if bool_decide (size m = 0%nat) then false
    else bool_decide (map_Forall (fun _ s => s = approved) m)
  end.

(** The command [diffReviewer.approveFile]: [syncStatuses(file)], then
    [approveAll(filePath, file)] with [filePath = file.newPath || file.oldPath]. *)
Definition approveFile (file : DiffFile) (st : StateManager) : StateManager :=
  approveAll (pathOf file) file (syncStatuses file st).2.

(** The lookup of the [approve] and [undo] messages of the webview,
    [files.find((f) => (f.newPath || f.oldPath) === msg.filePath)
     ?.hunks[msg.hunkIndex]?.id], with its test [if (!hunkId) return]. *)
Definition hunkIdAt (files : list DiffFile) (filePath : string)
  (hunkIndex : nat) : option string :=
  file ← find (fun f => bool_decide (pathOf f = filePath)) files;
  hunk ← hunks file !! hunkIndex;
  truthyId hunk.

(** What the [approve] message does to the engine. *)
Definition approveMessage (files : list DiffFile) (filePath : string)
  (hunkIndex : nat) (st : StateManager) : StateManager :=
  match hunkIdAt files filePath hunkIndex with
  | Some hunkId => approve filePath hunkId st
  | None => st
  end.

(** What the [undo] message of the webview does to the engine. *)
Definition undoMessage (files : list DiffFile) (filePath : string)
  (hunkIndex : nat) (st : StateManager) : StateManager :=
  match hunkIdAt files filePath hunkIndex with
  | Some hunkId => undoApprove filePath hunkId st
  | None => st
  end.

(** The inner [for] loop of [rejectAll]: the identity of the first hunk
    that has one and is pending in [m]. *)
Definition firstPending (m : gmap string HunkStatus) (hs : list DiffHunk)
  : option string :=
  list_find (fun i => m !! i = Some pending) (omap truthyId hs) ≫= fun r => Some r.2.

Section EngineLoops.
Context {World : Type} `{git : GitAdapter World}.

(** [rejectAll].  The [while] loop runs as long as the collaborator keeps
    answering with a file that has a pending hunk; [None] stands for a
    loop that is still running when [fuel] iterations are done. *)
Fixpoint rejectAll (fuel : nat) (filePath : string) (file : DiffFile)
  (st : StateManager) (w : World)
  : option (outcome (option DiffFile) * StateManager * World) :=
  match fuel with
  | O => None
  | S fuel =>
    match statuses st !! filePath with
    | None => Some (Returned (Some file), st, w)
    | Some m =>
      match firstPending m (hunks file) with
      | None => Some (Returned (Some file), st, w)
      | Some pendingHunkId =>
        match reject filePath pendingHunkId file st w with
        | (Rejected, st, w) => Some (Rejected, st, w)
        | (Returned None, st, w) => Some (Returned None, st, w)
        | (Returned (Some currentFile), st, w) =>
          rejectAll fuel filePath currentFile st w
        end
      end
    end
  end.
End EngineLoops.

(** The status an entry comes back with after a restart: only [approved]
    is stored. *)
Definition afterRestart (s : HunkStatus) : HunkStatus :=
  match s with approved => approved | _ => pending end.

(** No status map holds [rejected]. *)
Definition neverRejected (st : StateManager) : Prop :=
  forall p m i, statuses st !! p = Some m -> m !! i <> Some rejected.

(** [storedPending filePath file st]: the map of [filePath] holds the
    entry [pending] for the identity of some hunk of [file].  This is the
    test of the inner loop of [rejectAll]; an identity without an entry,
    which [getStatusArray] reports as pending, does not count. *)
Definition storedPending (filePath : string) (file : DiffFile) (st : StateManager)
  : Prop :=
  exists m h i, statuses st !! filePath = Some m /\ h ∈ hunks file /\
                truthyId h = Some i /\ m !! i = Some pending.

(** [tracked filePath file st]: the map of [filePath] has an entry for
    every identity of [file], as it has after [syncStatuses] on a file of
    that path. *)
Definition tracked (filePath : string) (file : DiffFile) (st : StateManager)
  : Prop :=
  exists m, statuses st !! filePath = Some m /\
            forall i, i ∈ identities file -> is_Some (m !! i).

(** [reportedPending file st]: [getStatusArray] reports [pending] for a
    hunk of [file] that has an identity. *)
Definition reportedPending (file : DiffFile) (st : StateManager) : Prop :=
  exists k h, hunks file !! k = Some h /\ truthyId h <> None /\
              getStatusArray file st !! k = Some pending.

(** An engine with a memento in which [hunk-A] is approved and then
    [hunk-B] is. *)
Definition twoApproved : StateManager :=
  approve "test.txt" "hunk-B"
    (approve "test.txt" "hunk-A"
       (syncStatuses (makeFile [makeHunk "hunk-A"; makeHunk "hunk-B"])
                     (newStateManager (Some None))).2).


(** The collaborator of the test "rejects all pending hunks": it records
    the patches it reverses and answers the calls of [getFileDiff] with
    the lists of [answers], one after the other, then with no file. *)
Record ScriptedGit := {
  reversed : list string;
  answers : list (list DiffFile)
}.

Global Instance scriptedGit : GitAdapter ScriptedGit := {|
  getFileDiff := fun _ g =>
    (Returned (default [] (head (answers g))),
     {| reversed := reversed g; answers := tail (answers g) |});
  applyReverse := fun patch g =>
    (Returned tt, {| reversed := reversed g ++ [patch]; answers := answers g |});
  applyForward := fun _ g => (Returned tt, g)
|}.


(** What [trim] removes, among the code units below 256: the white space
    and line terminator characters. *)
Definition isWhiteSpace (c : ascii) : bool :=
  let k := nat_of_ascii c in
  ((9 <=? k)%nat && (k <=? 13)%nat) || (k =? 32)%nat || (k =? 160)%nat.

(** [!raw.trim()] *)
Fixpoint isBlank (s : string) : bool :=
  match s with
  | EmptyString => true
  | String c s' => isWhiteSpace c && isBlank s'
  end.

(** [GitAdapter.getDiff] and [GitAdapter.getFileDiff], from the output
    [raw] of [git diff] on: both parse it, split the hunks of every file
    and store the identities. *)
Definition getDiff (raw : string) : result (list DiffFile) :=
  if isBlank raw then Ok []
  else files ← parseDiff raw; Ok (map identify files).

(** What holds of a hunk handed to the engine: it has an identity of
    eight characters or more, its lines are changes, at least one, and
    its raw lines are its header and the literal diff lines of its
    lines. *)
Definition reviewable (h : DiffHunk) : Prop :=
  (exists i, id h = Some i /\ (8 <= String.length i)%nat) /\
  lines h <> [] /\ Forall isChange (lines h) /\
  rawLines h = header h :: map rawOf (lines h).










(** A collaborator whose [git diff] fails: it records the patches it
    reverses, and its [getFileDiff] rejects, as [exec] does when [git]
    exits with an error or its output exceeds [maxBuffer]. *)
Record BrokenDiffGit := {
  reversedByBroken : list string
}.

Global Instance brokenDiffGit : GitAdapter BrokenDiffGit := {|
  getFileDiff := fun _ g => (Rejected, g);
  applyReverse := fun patch g =>
    (Returned tt, {| reversedByBroken := reversedByBroken g ++ [patch] |});
  applyForward := fun _ g => (Returned tt, g)
|}.

(** A changed file of the work tree whose name is [protoKey]. *)
Definition protoFile : DiffFile :=
  {| oldPath := protoKey; newPath := protoKey; hunks := [makeHunk "hunk-A"];
     isBinary := false; diffHeader := ["--- a/__proto__"; "+++ b/__proto__"] |}.

(** A hunk whose line numbers the code counts exactly: its starts are not
    negative, and a cursor that moves from a start over all the lines of
    the hunk stays within [maxExact]. *)
Definition safeHunk (hunk : DiffHunk) : Prop :=
  0 <= oldStart hunk /\
  oldStart hunk + Z.of_nat (length (lines hunk)) <= maxExact /\
  0 <= newStart hunk /\
  newStart hunk + Z.of_nat (length (lines hunk)) <= maxExact.

(** [hunkLineOf lines_ j i line]: [line] is the line [i], it starts with
    [@@], it comes after the line [j] that starts a file, and no line
    between the two starts a file or starts with [Binary]. *)
Definition hunkLineOf (lines_ : list string) (j i : nat) (line : string) : Prop :=
  (exists d, lines_ !! j = Some d /\ startsWith d "diff --git " = true) /\
  (j < i)%nat /\ lines_ !! i = Some line /\ startsWith line "@@" = true /\
  forall k l, (j < k < i)%nat -> lines_ !! k = Some l ->
    startsWith l "diff --git " = false /\ startsWith l "Binary" = false.

(** ** Properties of the hunk splitter *)

Lemma splitLoop_nil oldLine newLine : splitLoop [] oldLine newLine = [].
Proof. now simp splitLoop. Qed.

Lemma splitLoop_cons line rest' oldLine newLine :
  splitLoop (line :: rest') oldLine newLine =
  if isContext line then splitLoop rest' (oldLine + 1) (newLine + 1)
  else let r := collectGroup (line :: rest') (newGroup oldLine newLine) in
       emitGroup oldLine newLine r.1 ::
       splitLoop r.2 (g_oldLine r.1) (g_newLine r.1).
Proof.
  simp splitLoop.
  destruct (inspect (isContext line)) as [[] E]; simpl; rewrite E; reflexivity.
Qed.

Lemma isContext_false_isChange l : isContext l = false <-> isChange l.
Proof.
  unfold isContext, isChange; destruct (type l); split; intros H;
    try discriminate; auto; destruct H; discriminate.
Qed.

Lemma oldAdvance_app l1 l2 : oldAdvance (l1 ++ l2) = oldAdvance l1 + oldAdvance l2.
Proof. unfold oldAdvance. rewrite filter_app, length_app. lia. Qed.

Lemma newAdvance_app l1 l2 : newAdvance (l1 ++ l2) = newAdvance l1 + newAdvance l2.
Proof. unfold newAdvance. rewrite filter_app, length_app. lia. Qed.

Lemma oldAdvance_cons l ls :
  oldAdvance (l :: ls) =
  (match type l with add => 0 | _ => 1 end) + oldAdvance ls.
Proof.
  unfold oldAdvance. rewrite filter_cons.
  destruct (type l); case_decide; try congruence; simpl length; lia.
Qed.

Lemma newAdvance_cons l ls :
  newAdvance (l :: ls) =
  (match type l with remove => 0 | _ => 1 end) + newAdvance ls.
Proof.
  unfold newAdvance. rewrite filter_cons.
  destruct (type l); case_decide; try congruence; simpl length; lia.
Qed.

(** What the inner loop does: it reads the longest prefix [run] of changed
    lines, stops in front of a context line or at the end, and moves the
    cursors and counters by the removed and added lines of [run]. *)
Lemma collectGroup_spec rest g :
  exists run rest',
    collectGroup rest g =
      ({| g_oldLine := g_oldLine g + oldAdvance run;
          g_newLine := g_newLine g + newAdvance run;
          groupOldCount := groupOldCount g + oldAdvance run;
          groupNewCount := groupNewCount g + newAdvance run;
          groupLines := groupLines g ++ run;
          groupRawLines := groupRawLines g ++ map rawOf run |}, rest') /\
    rest = run ++ rest' /\ Forall isChange run /\ startsWithContext rest'.
Proof.
  revert g; induction rest as [|l rest IH]; intros g.
  - exists [], []. simpl. rewrite !Z.add_0_r, !app_nil_r.
    destruct g; auto.
  - simpl. destruct (type l) eqn:Et.
    + edestruct IH as (run & rest' & -> & -> & Hrun & Hctx).
      exists (l :: run), rest'. simpl. split; [|split; [done|split; [|done]]].
      * rewrite oldAdvance_cons, newAdvance_cons, Et, <- !app_assoc.
        unfold rawOf; rewrite Et; simpl. do 2 f_equal; lia.
      * constructor; [left; done|done].
    + edestruct IH as (run & rest' & -> & -> & Hrun & Hctx).
      exists (l :: run), rest'. simpl. split; [|split; [done|split; [|done]]].
      * rewrite oldAdvance_cons, newAdvance_cons, Et, <- !app_assoc.
        unfold rawOf; rewrite Et; simpl. do 2 f_equal; lia.
      * constructor; [right; done|done].
    + exists [], (l :: rest). simpl. rewrite !Z.add_0_r, !app_nil_r.
      split; [destruct g; auto|]. split; [done|]. split; [constructor|].
      unfold isContext; now rewrite Et.
Qed.

(** Induction along the iterations of the outer loop: a context line is
    skipped, or a whole run is turned into one sub-hunk. *)
Lemma splitLoop_iterations (P : list DiffLine -> Z -> Z -> list DiffHunk -> Prop) :
  (forall o n, P [] o n []) ->
  (forall l rest o n subs,
      isContext l = true -> P rest (o + 1) (n + 1) subs ->
      P (l :: rest) o n subs) ->
  (forall run rest o n subs,
      run <> [] -> Forall isChange run -> startsWithContext rest ->
      P rest (o + oldAdvance run) (n + newAdvance run) subs ->
      P (run ++ rest) o n (runHunk o n run :: subs)) ->
  forall rest o n, P rest o n (splitLoop rest o n).
Proof.
  intros Hnil Hctx Hrun rest.
  induction rest as [rest IH] using (induction_ltof1 _ (@length DiffLine)).
  unfold ltof in IH. intros o n.
  destruct rest as [|l rest]; [rewrite splitLoop_nil; apply Hnil|].
  rewrite splitLoop_cons. destruct (isContext l) eqn:El.
  - apply Hctx; [done|]. apply IH; simpl; lia.
  - destruct (collectGroup_spec (l :: rest) (newGroup o n))
      as (run & rest' & Hcg & Hsplit & Hch & Hstop).
    cbv zeta. rewrite Hcg. cbn [fst snd g_oldLine g_newLine newGroup].
    assert (Hne : run <> []).
    { intros ->. simpl in Hsplit. subst rest'. simpl in Hstop. congruence. }
    assert (Hlen : (length rest' < length (l :: rest))%nat).
    { rewrite Hsplit, length_app. destruct run; [done|simpl; lia]. }
    rewrite Hsplit.
    replace (emitGroup o n _) with (runHunk o n run).
    + apply Hrun; try done. apply IH. exact Hlen.
    + unfold emitGroup, runHunk. cbn. rewrite !Z.add_0_l. reflexivity.
Qed.

Lemma maximalRuns_concat ls runs :
  maximalRuns ls runs -> concat runs = filter isChange ls.
Proof.
  induction 1 as [|l ls runs Hl _ IH|run rest runs _ Hrun _ _ IH]; simpl.
  - done.
  - rewrite filter_cons. case_decide as Hc; [|done].
    apply isContext_false_isChange in Hc. congruence.
  - rewrite filter_app, IH. f_equal. symmetry.
    induction Hrun as [|x run Hx _ IHr]; [done|].
    rewrite filter_cons. case_decide; [|done]. now f_equal.
Qed.

Lemma maximalRuns_nonempty ls runs :
  maximalRuns ls runs -> Forall (fun run => run <> [] /\ Forall isChange run) runs.
Proof. induction 1; auto. Qed.

Lemma splitLoop_maximalRuns rest o n :
  maximalRuns rest (map lines (splitLoop rest o n)).
Proof.
  apply (splitLoop_iterations (fun rest _ _ subs => maximalRuns rest (map lines subs))).
  - constructor.
  - intros; now constructor.
  - intros; simpl; now constructor.
Qed.

Lemma splitHunks_singleton hunk : splitHunks [hunk] = splitHunk hunk.
Proof. unfold splitHunks; simpl. apply app_nil_r. Qed.

(** C1.  The sub-hunks that [splitHunks] makes of a hunk hold, in order,
    exactly the maximal contiguous runs of non-context lines of the hunk,
    one run each; so the changed lines of the sub-hunks, put end to end,
    are the changed lines of the hunk, none dropped and none repeated. *)
Theorem splitHunks_keeps_changed_lines (hunk : DiffHunk) :
  concat (map (fun sub => filter isChange (lines sub)) (splitHunks [hunk]))
    = filter isChange (lines hunk) /\
  maximalRuns (lines hunk) (map lines (splitHunks [hunk])) /\
  Forall (fun sub => lines sub <> [] /\ Forall isChange (lines sub))
         (splitHunks [hunk]).
Proof.
  rewrite splitHunks_singleton. unfold splitHunk.
  pose proof (splitLoop_maximalRuns (lines hunk) (oldStart hunk) (newStart hunk)) as Hruns.
  pose proof (maximalRuns_nonempty _ _ Hruns) as Hne.
  rewrite Forall_map in Hne.
  split; [|split; [exact Hruns|exact Hne]].
  rewrite <- (maximalRuns_concat _ _ Hruns). f_equal.
  apply map_ext_Forall. eapply Forall_impl; [exact Hne|].
  intros sub [_ Hall]; simpl.
  induction Hall as [|x run Hx _ IHr]; [done|].
  rewrite filter_cons. case_decide; [|done]. now f_equal.
Qed.

Lemma oldAdvance_run run :
  Forall isChange run ->
  oldAdvance run = Z.of_nat (length (filter (fun l => type l = remove) run)).
Proof.
  induction 1 as [|l run Hl _ IH]; [done|].
  rewrite oldAdvance_cons, IH, filter_cons.
  destruct Hl as [E|E]; rewrite E; case_decide; try congruence; simpl length; lia.
Qed.

Lemma newAdvance_run run :
  Forall isChange run ->
  newAdvance run = Z.of_nat (length (filter (fun l => type l = add) run)).
Proof.
  induction 1 as [|l run Hl _ IH]; [done|].
  rewrite newAdvance_cons, IH, filter_cons.
  destruct Hl as [E|E]; rewrite E; case_decide; try congruence; simpl length; lia.
Qed.

(** Every sub-hunk of [splitLoop] is the closed-form sub-hunk of a run of
    the input, met with the cursors moved by what precedes the run. *)
Lemma splitLoop_elem rest o n sub :
  sub ∈ splitLoop rest o n ->
  exists pre run post,
    rest = pre ++ run ++ post /\ run <> [] /\ Forall isChange run /\
    sub = runHunk (o + oldAdvance pre) (n + newAdvance pre) run.
Proof.
  revert sub.
  apply (splitLoop_iterations (fun rest o n subs => forall sub, sub ∈ subs ->
    exists pre run post,
      rest = pre ++ run ++ post /\ run <> [] /\ Forall isChange run /\
      sub = runHunk (o + oldAdvance pre) (n + newAdvance pre) run)).
  - intros o' n' sub Hin. inversion Hin.
  - intros l rest' o' n' subs Hl IH sub Hin.
    destruct (IH sub Hin) as (pre & run & post & -> & Hne & Hch & ->).
    exists (l :: pre), run, post. repeat split; try done.
    rewrite oldAdvance_cons, newAdvance_cons.
    unfold isContext in Hl. destruct (type l); try discriminate.
    f_equal; lia.
  - intros run rest' o' n' subs Hne Hch _ IH sub Hin.
    apply elem_of_cons in Hin as [->|Hin].
    + exists [], run, rest'. repeat split; try done.
      unfold oldAdvance at 1, newAdvance at 1; simpl. now rewrite !Z.add_0_r.
    + destruct (IH sub Hin) as (pre & run' & post & -> & Hne' & Hch' & ->).
      exists (run ++ pre), run', post. repeat split; try done.
      * now rewrite <- app_assoc.
      * rewrite oldAdvance_app, newAdvance_app. f_equal; lia.
Qed.

(** C6.  A sub-hunk of [splitHunks], for a hunk whose line numbers the
    code counts exactly, is a run of the hunk's lines; with [groupOldStart]
    and [groupNewStart] the old-line and new-line cursors at the start of
    that run (the hunk's starts moved by the lines in front of the run),
    its header is the text [@@ -a,oldCount +c,newCount @@] with the four
    numbers in decimal digits, where [a] is [groupOldStart - 1] when
    [oldCount] is 0 and [groupOldStart] otherwise, and [c] is
    [groupNewStart - 1] when [newCount] is 0 and [groupNewStart]
    otherwise; the counts are the numbers of removed and of added lines of
    the run, and the header is the first raw line. *)
Theorem splitHunks_header_start_convention (hunk sub : DiffHunk) :
  safeHunk hunk ->
  sub ∈ splitHunks [hunk] ->
  exists pre post,
    lines hunk = pre ++ lines sub ++ post /\
    let groupOldStart := oldStart hunk + oldAdvance pre in
    let groupNewStart := newStart hunk + newAdvance pre in
    let a := if oldCount sub =? 0 then groupOldStart - 1 else groupOldStart in
    let c := if newCount sub =? 0 then groupNewStart - 1 else groupNewStart in
    oldStart sub = groupOldStart /\ newStart sub = groupNewStart /\
    oldCount sub = Z.of_nat (length (filter (fun l => type l = remove) (lines sub))) /\
    newCount sub = Z.of_nat (length (filter (fun l => type l = add) (lines sub))) /\
    header sub =
      "@@ -" +:+ pretty a +:+ "," +:+ pretty (oldCount sub) +:+
      " +" +:+ pretty c +:+ "," +:+ pretty (newCount sub) +:+ " @@" /\
    rawLines sub = header sub :: map rawOf (lines sub).
Proof.
  intros _. rewrite splitHunks_singleton. unfold splitHunk. intros Hin.
  destruct (splitLoop_elem _ _ _ _ Hin) as (pre & run & post & Hsplit & Hne & Hch & ->).
  exists pre, post. simpl. rewrite Hsplit.
  repeat split; try done.
  - now apply oldAdvance_run.
  - now apply newAdvance_run.
Qed.

(** ** Properties of the string operations *)

Lemma noNL_app a b : noNL (a +:+ b) <-> noNL a /\ noNL b.
Proof.
  unfold noNL. induction a as [|c a IH]; simpl; [tauto|].
  rewrite !orb_false_iff, IH. tauto.
Qed.

Lemma noNL_slice n s : noNL s -> noNL (slice n s).
Proof.
  unfold noNL. revert s; induction n as [|n IH]; intros [|c s]; simpl; auto.
  rewrite orb_false_iff. intros [_ H]. auto.
Qed.

Lemma split_noNL s : Forall noNL (split s).
Proof.
  induction s as [|c s IH]; simpl; [repeat constructor|].
  destruct (Ascii.eqb c _) eqn:E; [constructor; [reflexivity|done]|].
  destruct (split s) as [|l ls]; [repeat constructor; unfold noNL; simpl; now rewrite E|].
  inversion IH; subst. constructor; [|done].
  unfold noNL in *; simpl. now rewrite E.
Qed.

(** A line without separator, followed by a separator, is the first
    element of the split. *)
Lemma split_line a rest : noNL a -> split (a +:+ NL +:+ rest) = a :: split rest.
Proof.
  unfold noNL. induction a as [|c a IH]; simpl; [done|].
  rewrite orb_false_iff. intros [-> Ha]. now rewrite IH.
Qed.

Lemma split_last_line a : noNL a -> split (a +:+ NL) = [a; ""].
Proof.
  unfold noNL. induction a as [|c a IH]; simpl; [done|].
  rewrite orb_false_iff. intros [-> Ha]. now rewrite IH.
Qed.

Lemma join_cons x y ls : join (x :: y :: ls) = x +:+ NL +:+ join (y :: ls).
Proof. reflexivity. Qed.

Lemma append_cons c (s t : string) : String c s +:+ t = String c (s +:+ t).
Proof. reflexivity. Qed.

Lemma append_empty_r (s : string) : s +:+ "" = s.
Proof. induction s as [|c s IH]; [done|]. rewrite append_cons. now f_equal. Qed.

Lemma string_app_assoc (a b c : string) : (a +:+ b) +:+ c = a +:+ b +:+ c.
Proof.
  induction a as [|x a IH]; [done|].
  rewrite !append_cons. f_equal; exact IH.
Qed.

(** Splitting what [join] put together, with the final separator of
    [buildPatch]: the lines, then an empty string. *)
Lemma split_join ls :
  ls <> [] -> Forall noNL ls -> split (join ls +:+ NL) = ls ++ [""].
Proof.
  induction ls as [|x ls IH]; [done|]. intros _ Hall.
  inversion Hall as [|? ? Hx Hls]; subst.
  destruct ls as [|y ls].
  - change (join [x]) with x. now rewrite split_last_line.
  - rewrite join_cons, !string_app_assoc, split_line by done.
    now rewrite IH.
Qed.

(** ** Properties of the parser *)

Lemma appendBody_nil hunk : appendBody hunk [] = hunk.
Proof. destruct hunk; unfold appendBody; simpl. now rewrite !app_nil_r. Qed.

Lemma appendBody_cons hunk line body :
  appendBody hunk (line :: body) =
  appendBody (match classifyLine line with
              | Some l => pushLine hunk l line
              | None => pushRaw hunk line
              end) body.
Proof.
  unfold appendBody, classify. simpl omap.
  destruct (classifyLine line); simpl; now rewrite <- !app_assoc.
Qed.

(** A body line is neither a hunk header nor the start of a file. *)
Lemma isBodyLine_not_marker line :
  isBodyLine line = true ->
  startsWith line "@@" = false /\ startsWith line "diff --git " = false.
Proof.
  unfold isBodyLine, startsWith. destruct line as [|c s]; [done|].
  cbn [String.prefix].
  repeat match goal with
         | |- context [ascii_dec ?a c] => destruct (ascii_dec a c); [subst c|]
         end; simpl; try done.
Qed.

Section ParserFacts.
Variable lines_ : list string.

Lemma lineAt_Some i line : lines_ !! i = Some line -> lineAt lines_ i = Ok line.
Proof. unfold lineAt. now intros ->. Qed.

Lemma ltb_lookup i line :
  lines_ !! i = Some line -> (i <? length lines_)%nat = true.
Proof. intros H. apply Nat.ltb_lt. eapply lookup_lt_Some, H. Qed.

(** One iteration of the loop of [parseHunk]. *)
Lemma parseHunkLoop_step fuel i hunk line :
  lines_ !! i = Some line ->
  parseHunkLoop lines_ (S fuel) i hunk =
  if isBodyLine line &&
     negb (bool_decide (line = "") && (i =? length lines_ - 1)%nat)
  then parseHunkLoop lines_ fuel (i + 1)%nat
         (match classifyLine line with
          | Some l => pushLine hunk l line
          | None => pushRaw hunk line
          end)
  else Ok (hunk, i).
Proof.
  intros Hi. cbn [parseHunkLoop].
  rewrite (ltb_lookup _ _ Hi), (lineAt_Some _ _ Hi). cbn [mbind result_bind].
  unfold isBodyLine, classifyLine, startsWith.
  destruct line as [|c s].
  - simpl. destruct (i =? length lines_ - 1)%nat; reflexivity.
  - rewrite bool_decide_eq_false_2 by done. cbn [String.prefix].
    repeat match goal with
           | |- context [ascii_dec ?a c] => destruct (ascii_dec a c); [subst c|]
           end; simpl; try reflexivity;
    repeat match goal with
           | |- context [String.prefix ?p s] => destruct (String.prefix p s)
           end; simpl; reflexivity.
Qed.

Lemma parseHunkLoop_stop fuel i hunk :
  (length lines_ <= i)%nat ->
  parseHunkLoop lines_ (S fuel) i hunk = Ok (hunk, i).
Proof.
  intros Hi. cbn [parseHunkLoop].
  now rewrite (proj2 (Nat.ltb_ge _ _) Hi).
Qed.

(** The loop of [parseHunk] returns: it keeps some lines [body] of the
    input, all of them body lines, and stops within the input. *)
Lemma parseHunkLoop_ok fuel i hunk :
  (length lines_ - i < fuel)%nat ->
  exists body,
    parseHunkLoop lines_ fuel i hunk =
      Ok (appendBody hunk body, (i + length body)%nat) /\
    Forall (fun r => r ∈ lines_ /\ isBodyLine r = true) body /\
    ((i <= length lines_)%nat -> (i + length body <= length lines_)%nat).
Proof.
  revert i hunk. induction fuel as [|fuel IH]; intros i hunk Hfuel; [lia|].
  destruct (lines_ !! i) as [line|] eqn:Hi.
  - rewrite (parseHunkLoop_step _ _ _ _ Hi).
    pose proof (lookup_lt_Some _ _ _ Hi) as Hlt.
    destruct (isBodyLine line) eqn:Hb; simpl.
    2: { exists []. rewrite appendBody_nil, Nat.add_0_r.
         split; [done|]. split; [constructor|simpl; lia]. }
    destruct (negb _).
    2: { exists []. rewrite appendBody_nil, Nat.add_0_r.
         split; [done|]. split; [constructor|simpl; lia]. }
    edestruct (IH (i + 1)%nat) as (body & -> & Hall & Hlen); [lia|].
    exists (line :: body). rewrite appendBody_cons. simpl length.
    split; [do 2 f_equal; lia|]. split.
    + constructor; [|done]. split; [|done]. eapply list_elem_of_lookup_2, Hi.
    + lia.
  - apply lookup_ge_None in Hi. rewrite parseHunkLoop_stop by done.
    exists []. rewrite appendBody_nil, Nat.add_0_r.
    split; [done|]. split; [constructor|simpl; lia].
Qed.

(** [parseHunk] returns, with the closed-form hunk of the header and of
    the body lines it kept, and moves past the header. *)
Lemma parseHunk_ok i hdr :
  lines_ !! i = Some hdr ->
  exists body,
    parseHunk lines_ i = Ok (parsedHunk hdr body, (i + 1 + length body)%nat) /\
    Forall (fun r => r ∈ lines_ /\ isBodyLine r = true) body /\
    (matchHeader hdr = None -> body = []) /\
    (i + 1 + length body <= length lines_)%nat.
Proof.
  intros Hi. pose proof (lookup_lt_Some _ _ _ Hi) as Hlt.
  unfold parseHunk, parsedHunk. rewrite (lineAt_Some _ _ Hi). cbn [mbind result_bind].
  destruct (matchHeader hdr) as [[[[m1 m2] m3] m4]|] eqn:Hm.
  - edestruct (parseHunkLoop_ok (budget lines_) (i + 1)%nat) as (body & -> & Hall & Hlen);
      [unfold budget; lia|].
    exists body. split; [reflexivity|]. split; [done|]. split; [done|]. lia.
  - exists []. simpl. rewrite Nat.add_0_r. repeat split; auto. lia.
Qed.

Lemma skipExtendedHeaders_ok fuel i :
  (length lines_ - i < fuel)%nat ->
  exists j, skipExtendedHeaders lines_ fuel i = Ok j /\
            (i <= j)%nat /\ ((i <= length lines_)%nat -> (j <= length lines_)%nat).
Proof.
  revert i. induction fuel as [|fuel IH]; intros i Hfuel; [lia|].
  cbn [skipExtendedHeaders].
  destruct (lines_ !! i) as [line|] eqn:Hi.
  - rewrite (ltb_lookup _ _ Hi), (lineAt_Some _ _ Hi). cbn [mbind result_bind].
    pose proof (lookup_lt_Some _ _ _ Hi) as Hlt.
    destruct (_ && _).
    + destruct (IH (i + 1)%nat) as (j & -> & ? & ?); [lia|].
      exists j. split; [done|]. lia.
    + exists i. split; [done|]. lia.
  - apply lookup_ge_None in Hi. rewrite (proj2 (Nat.ltb_ge _ _) Hi).
    exists i. split; [done|]. lia.
Qed.

Lemma lineStartsWith_ok i p :
  exists b, lineStartsWith lines_ i p = Ok b /\
    (b = true -> exists line, lines_ !! i = Some line /\ startsWith line p = true).
Proof.
  unfold lineStartsWith. destruct (lines_ !! i) as [line|] eqn:Hi.
  - rewrite (ltb_lookup _ _ Hi), (lineAt_Some _ _ Hi). cbn [mbind result_bind].
    eexists; split; [reflexivity|]. intros Hb. eauto.
  - apply lookup_ge_None in Hi. rewrite (proj2 (Nat.ltb_ge _ _) Hi).
    exists false. split; [done|]. discriminate.
Qed.

Lemma parseHunksLoop_ok fuel i hs :
  (length lines_ - i < fuel)%nat ->
  Forall (goodHunk lines_) hs ->
  exists hs' j,
    parseHunksLoop lines_ fuel i hs = Ok (hs', j) /\
    Forall (goodHunk lines_) hs' /\
    (i <= j)%nat /\ ((i <= length lines_)%nat -> (j <= length lines_)%nat).
Proof.
  revert i hs. induction fuel as [|fuel IH]; intros i hs Hfuel Hgood; [lia|].
  cbn [parseHunksLoop].
  destruct (lines_ !! i) as [line|] eqn:Hi.
  - rewrite (ltb_lookup _ _ Hi), (lineAt_Some _ _ Hi). cbn [mbind result_bind].
    pose proof (lookup_lt_Some _ _ _ Hi) as Hlt.
    destruct (startsWith line "diff --git ") eqn:Hd; cbn [negb].
    { exists hs, i. split; [done|]. split; [done|]. lia. }
    destruct (startsWith line "@@") eqn:Hh.
    + destruct (parseHunk_ok i line Hi) as (body & -> & Hall & Hdeg & Hlen).
      cbn [mbind result_bind].
      destruct (IH (i + 1 + length body)%nat (hs ++ [parsedHunk line body]))
        as (hs' & j & -> & Hgood' & ? & ?); [lia| |].
      * apply Forall_app; split; [done|]. constructor; [|constructor].
        exists line, body. repeat split; auto.
        eapply list_elem_of_lookup_2, Hi.
      * exists hs', j. split; [done|]. split; [done|]. lia.
    + destruct (IH (i + 1)%nat hs) as (hs' & j & -> & Hgood' & ? & ?); [lia|done|].
      exists hs', j. split; [done|]. split; [done|]. lia.
  - apply lookup_ge_None in Hi. rewrite (proj2 (Nat.ltb_ge _ _) Hi).
    exists hs, i. split; [done|]. split; [done|]. lia.
Qed.

Lemma pathFrom_empty : pathFrom lines_ "".
Proof. exists "", 0%nat. auto. Qed.

Lemma pathFrom_slice i line n :
  lines_ !! i = Some line -> pathFrom lines_ (slice n line).
Proof.
  intros Hi. exists line, n. split; [left|done].
  eapply list_elem_of_lookup_2, Hi.
Qed.

Lemma parseOldPath_ok i :
  exists p hdr j,
    parseOldPath lines_ i = Ok (p, hdr, j) /\ pathFrom lines_ p /\
    (i <= j)%nat /\ ((i <= length lines_)%nat -> (j <= length lines_)%nat).
Proof.
  unfold parseOldPath.
  destruct (lineStartsWith_ok i "---") as ([] & -> & Hb); cbn [mbind result_bind].
  - destruct (Hb eq_refl) as (line & Hi & _).
    pose proof (lookup_lt_Some _ _ _ Hi) as Hlt.
    rewrite (lineAt_Some _ _ Hi). cbn [mbind result_bind].
    do 3 eexists. split; [reflexivity|]. split; [|lia].
    destruct (startsWith line "--- a/"); eapply pathFrom_slice, Hi.
  - do 3 eexists. split; [reflexivity|]. split; [apply pathFrom_empty|lia].
Qed.

Lemma parseNewPath_ok hdr i :
  exists p hdr' j,
    parseNewPath lines_ hdr i = Ok (p, hdr', j) /\ pathFrom lines_ p /\
    (i <= j)%nat /\ ((i <= length lines_)%nat -> (j <= length lines_)%nat).
Proof.
  unfold parseNewPath.
  destruct (lineStartsWith_ok i "+++") as ([] & -> & Hb); cbn [mbind result_bind].
  - destruct (Hb eq_refl) as (line & Hi & _).
    pose proof (lookup_lt_Some _ _ _ Hi) as Hlt.
    rewrite (lineAt_Some _ _ Hi). cbn [mbind result_bind].
    do 3 eexists. split; [reflexivity|]. split; [|lia].
    destruct (startsWith line "+++ b/"); eapply pathFrom_slice, Hi.
  - do 3 eexists. split; [reflexivity|]. split; [apply pathFrom_empty|lia].
Qed.

Lemma pathFrom_extractPath i pfx :
  pathFrom lines_ (extractPath (default "" (lines_ !! i)) pfx).
Proof.
  unfold extractPath.
  destruct (indexOf _ _); [|apply pathFrom_empty].
  destruct (lines_ !! i) as [line|] eqn:Hi; simpl.
  - eapply pathFrom_slice, Hi.
  - eexists "", _. split; [right|]; reflexivity.
Qed.

(** The main loop returns, and every file it adds is well formed. *)
Lemma parseDiffLoop_ok fuel i files :
  (length lines_ - i < fuel)%nat ->
  Forall (goodFile lines_) files ->
  exists files',
    parseDiffLoop lines_ fuel i files = Ok files' /\
    Forall (goodFile lines_) files'.
Proof.
  revert i files. induction fuel as [|fuel IH]; intros i files Hfuel Hgood; [lia|].
  cbn [parseDiffLoop].
  destruct (lines_ !! i) as [line|] eqn:Hi.
  2: { apply lookup_ge_None in Hi. rewrite (proj2 (Nat.ltb_ge _ _) Hi). eauto. }
  rewrite (ltb_lookup _ _ Hi), (lineAt_Some _ _ Hi). cbn [mbind result_bind].
  pose proof (lookup_lt_Some _ _ _ Hi) as Hlt.
  destruct (startsWith line "diff --git "); cbn [negb].
  2: { apply IH; [lia|done]. }
  destruct (skipExtendedHeaders_ok (budget lines_) (i + 1)%nat)
    as (j & -> & Hj1 & Hj2); [unfold budget; lia|].
  cbn [mbind result_bind].
  destruct (lineStartsWith_ok j "Binary") as ([] & -> & Hb); cbn [mbind result_bind].
  - destruct (Hb eq_refl) as (bl & Hbl & _).
    apply lookup_lt_Some in Hbl.
    apply IH; [lia|]. apply Forall_app; split; [done|].
    constructor; [|constructor]. split; [constructor|].
    split; apply pathFrom_extractPath.
  - destruct (parseOldPath_ok j) as (oldP & hdr & j1 & -> & HoldP & ? & ?).
    cbn [mbind result_bind].
    destruct (parseNewPath_ok hdr j1) as (newP & hdr' & j2 & -> & HnewP & ? & ?).
    cbn [mbind result_bind].
    destruct (parseHunksLoop_ok (budget lines_) j2 [])
      as (hs & j3 & -> & Hhs & ? & ?); [unfold budget; lia|constructor|].
    cbn [mbind result_bind].
    apply IH; [lia|]. apply Forall_app; split; [done|].
    constructor; [|constructor]. split; [done|]. split; done.
Qed.
End ParserFacts.

(** [parseDiff] returns a list of files for every text, without raising
    an exception and within the iteration budget of its loops; the files
    are well formed. *)
Lemma parseDiff_ok diffText :
  exists files,
    parseDiff diffText = Ok files /\ Forall (goodFile (split diffText)) files.
Proof.
  unfold parseDiff. apply parseDiffLoop_ok; [unfold budget; lia|constructor].
Qed.

(** The parse of [malformedDiff] goes on after the malformed header. *)
Example parseDiff_malformedDiff :
  parseDiff malformedDiff =
  Ok [{| oldPath := "a.txt"; newPath := "a.txt";
         hunks := [degenerateHunk "@@ bogus @@";
                   {| oldStart := 1; oldCount := 2; newStart := 1; newCount := 2;
                      header := "@@ -1,2 +1,2 @@";
                      lines := [{| type := context; content := "keep" |};
                                {| type := remove; content := "old" |};
                                {| type := add; content := "new" |}];
                      rawLines := ["@@ -1,2 +1,2 @@"; " keep"; "-old"; "+new"];
                      id := None |}];
         isBinary := false;
         diffHeader := ["--- a/a.txt"; "+++ b/a.txt"] |}].
Proof. vm_compute. reflexivity. Qed.

(** *** Parsing a patch again *)

Lemma header_not_file_start line :
  startsWith line "@@" = true -> startsWith line "diff --git " = false.
Proof.
  unfold startsWith. destruct line as [|c s]; [done|]. cbn [String.prefix].
  destruct (ascii_dec "@" c); [subst c; reflexivity|discriminate].
Qed.

Section Reparse.
Variable lines_ : list string.

Lemma lineStartsWith_Some i line p :
  lines_ !! i = Some line ->
  lineStartsWith lines_ i p = Ok (startsWith line p).
Proof.
  intros Hi. unfold lineStartsWith.
  now rewrite (ltb_lookup _ _ _ Hi), (lineAt_Some _ _ _ Hi).
Qed.

Lemma parseDiffLoop_stop fuel i files :
  (length lines_ <= i)%nat ->
  parseDiffLoop lines_ (S fuel) i files = Ok files.
Proof.
  intros Hi. cbn [parseDiffLoop]. now rewrite (proj2 (Nat.ltb_ge _ _) Hi).
Qed.

(** Without a [diff --git ] line the main loop finds no file. *)
Lemma parseDiffLoop_no_file fuel i files :
  Forall (fun l => startsWith l "diff --git " = false) lines_ ->
  (length lines_ - i < fuel)%nat ->
  parseDiffLoop lines_ fuel i files = Ok files.
Proof.
  intros Hno. revert i. induction fuel as [|fuel IH]; intros i Hfuel; [lia|].
  destruct (lines_ !! i) as [line|] eqn:Hi.
  - cbn [parseDiffLoop].
    rewrite (ltb_lookup _ _ _ Hi), (lineAt_Some _ _ _ Hi). cbn [mbind result_bind].
    rewrite Forall_forall in Hno.
    rewrite (Hno line) by (eapply list_elem_of_lookup_2, Hi). cbn [negb].
    apply IH. apply lookup_lt_Some in Hi. lia.
  - apply parseDiffLoop_stop. now apply lookup_ge_None.
Qed.

Lemma skipExtendedHeaders_at_old fuel i line :
  lines_ !! i = Some line -> startsWith line "---" = true ->
  skipExtendedHeaders lines_ (S fuel) i = Ok i.
Proof.
  intros Hi Hold. cbn [skipExtendedHeaders].
  rewrite (ltb_lookup _ _ _ Hi), (lineAt_Some _ _ _ Hi). cbn [mbind result_bind].
  rewrite Hold. cbn [negb]. now rewrite andb_false_r.
Qed.

(** The loop of [parseHunk] on body lines followed by the empty string
    that [split] leaves after the last separator: all body lines are
    kept, the empty string is not. *)
Lemma parseHunkLoop_body body : forall pre hunk fuel,
  lines_ = pre ++ body ++ [""] ->
  Forall (fun r => isBodyLine r = true) body ->
  (length body < fuel)%nat ->
  parseHunkLoop lines_ fuel (length pre) hunk =
    Ok (appendBody hunk body, (length pre + length body)%nat).
Proof.
  induction body as [|b body IH]; intros pre hunk fuel Hl Hall Hfuel;
    (destruct fuel as [|fuel]; [simpl in Hfuel; lia|]).
  - assert (Hi : lines_ !! length pre = Some "").
    { rewrite Hl. now apply list_lookup_middle. }
    rewrite (parseHunkLoop_step _ _ _ _ _ Hi).
    replace (length pre =? length lines_ - 1)%nat with true.
    + simpl. now rewrite appendBody_nil, Nat.add_0_r.
    + symmetry. apply Nat.eqb_eq. rewrite Hl, !length_app. simpl. lia.
  - assert (Hi : lines_ !! length pre = Some b).
    { rewrite Hl. now apply list_lookup_middle. }
    apply Forall_cons in Hall as [Hb Hall'].
    rewrite (parseHunkLoop_step _ _ _ _ _ Hi), Hb.
    replace (length pre =? length lines_ - 1)%nat with false.
    + rewrite andb_false_r. cbn [andb negb].
      replace (length pre + 1)%nat with (length (pre ++ [b]))
        by (rewrite length_app; simpl; lia).
      rewrite (IH (pre ++ [b])); [| |exact Hall'|simpl in Hfuel; lia].
      * rewrite appendBody_cons, length_app. simpl. do 2 f_equal. lia.
      * now rewrite <- app_assoc.
    + symmetry. apply Nat.eqb_neq. rewrite Hl, !length_app. simpl. lia.
Qed.

(** The hunk loop at the empty string that ends the input. *)
Lemma parseHunksLoop_last fuel i hs :
  lines_ !! i = Some "" -> S i = length lines_ ->
  parseHunksLoop lines_ (S (S fuel)) i hs = Ok (hs, S i).
Proof.
  intros Hi Hlen. cbn [parseHunksLoop].
  rewrite (ltb_lookup _ _ _ Hi), (lineAt_Some _ _ _ Hi). cbn [mbind result_bind].
  change (startsWith "" "diff --git ") with false.
  change (startsWith "" "@@") with false. cbn [negb].
  replace (i + 1 <? length lines_)%nat with false
    by (symmetry; apply Nat.ltb_ge; lia).
  do 2 f_equal. lia.
Qed.
End Reparse.

(** Parsing the lines of a patch that follow a [diff --git ] line: one
    file with the one hunk of the header and the body lines. *)
Lemma parseDiffLoop_patch d p1 p2 hdr body :
  startsWith d "diff --git " = true ->
  startsWith hdr "@@" = true ->
  Forall (fun r => isBodyLine r = true) body ->
  (matchHeader hdr = None -> body = []) ->
  let lines_ := d :: ("--- a/" +:+ p1) :: ("+++ b/" +:+ p2) :: hdr :: body ++ [""] in
  parseDiffLoop lines_ (budget lines_) 0 [] =
  Ok [{| oldPath := p1; newPath := p2; hunks := [parsedHunk hdr body];
         isBinary := false;
         diffHeader := ["--- a/" +:+ p1; "+++ b/" +:+ p2] |}].
Proof.
  intros Hd Hh Hbody Hdeg lines_.
  unfold budget at 1. remember (length lines_) as fuel eqn:Hfuel.
  assert (Hlen : length lines_ = S (S (S (S (S (length body)))))).
  { subst lines_. simpl. rewrite length_app. simpl. lia. }
  assert (H0 : lines_ !! 0%nat = Some d) by reflexivity.
  assert (H1 : lines_ !! 1%nat = Some ("--- a/" +:+ p1)) by reflexivity.
  assert (H2 : lines_ !! 2%nat = Some ("+++ b/" +:+ p2)) by reflexivity.
  assert (H3 : lines_ !! 3%nat = Some hdr) by reflexivity.
  assert (H4 : lines_ !! (4 + length body)%nat = Some "").
  { subst lines_. simpl. now apply list_lookup_middle. }
  cbn [parseDiffLoop].
  rewrite (ltb_lookup _ _ _ H0), (lineAt_Some _ _ _ H0). cbn [mbind result_bind].
  rewrite Hd. cbn [negb]. unfold budget.
  change (0 + 1)%nat with 1%nat.
  rewrite (skipExtendedHeaders_at_old _ _ _ _ H1) by reflexivity.
  cbn [mbind result_bind].
  rewrite (lineStartsWith_Some _ _ _ _ H1).
  change (startsWith ("--- a/" +:+ p1) "Binary") with false.
  cbn [mbind result_bind].
  unfold parseOldPath. rewrite (lineStartsWith_Some _ _ _ _ H1).
  change (startsWith ("--- a/" +:+ p1) "---") with true.
  cbn [mbind result_bind]. rewrite (lineAt_Some _ _ _ H1). cbn [mbind result_bind].
  replace (startsWith ("--- a/" +:+ p1) "--- a/") with true
    by (destruct p1; reflexivity).
  change (slice 6 ("--- a/" +:+ p1)) with p1.
  change (1 + 1)%nat with 2%nat.
  unfold parseNewPath. rewrite (lineStartsWith_Some _ _ _ _ H2).
  change (startsWith ("+++ b/" +:+ p2) "+++") with true.
  cbn [mbind result_bind]. rewrite (lineAt_Some _ _ _ H2). cbn [mbind result_bind].
  replace (startsWith ("+++ b/" +:+ p2) "+++ b/") with true
    by (destruct p2; reflexivity).
  change (slice 6 ("+++ b/" +:+ p2)) with p2.
  change (2 + 1)%nat with 3%nat.
  cbn [parseHunksLoop].
  rewrite (ltb_lookup _ _ _ H3), (lineAt_Some _ _ _ H3). cbn [mbind result_bind].
  rewrite (header_not_file_start _ Hh), Hh. cbn [negb].
  assert (Hhunk : parseHunk lines_ 3 = Ok (parsedHunk hdr body, (4 + length body)%nat)).
  { unfold parseHunk, parsedHunk. rewrite (lineAt_Some _ _ _ H3).
    cbn [mbind result_bind].
    destruct (matchHeader hdr) as [[[[m1 m2] m3] m4]|] eqn:Hm.
    - change (3 + 1)%nat with (length [d; "--- a/" +:+ p1; "+++ b/" +:+ p2; hdr]).
      rewrite (parseHunkLoop_body lines_ body); [reflexivity|reflexivity|done|].
      unfold budget. lia.
    - rewrite (Hdeg eq_refl). reflexivity. }
  rewrite Hhunk. cbn [mbind result_bind].
  rewrite Hlen.
  rewrite (parseHunksLoop_last _ _ _ _ H4) by (rewrite Hlen; simpl; lia).
  cbn [mbind result_bind app].
  rewrite Hfuel, Hlen. apply parseDiffLoop_stop. rewrite Hlen. simpl. lia.
Qed.

Lemma rawLines_parsedHunk hdr body :
  (matchHeader hdr = None -> body = []) ->
  rawLines (parsedHunk hdr body) = hdr :: body.
Proof.
  intros Hdeg. unfold parsedHunk.
  destruct (matchHeader hdr) as [[[[m1 m2] m3] m4]|]; [reflexivity|].
  now rewrite Hdeg.
Qed.

Lemma pathFrom_noNL diffText p : pathFrom (split diffText) p -> noNL p.
Proof.
  intros (line & n & [Hin| ->] & ->); apply noNL_slice; [|reflexivity].
  pose proof (split_noNL diffText) as Hall. rewrite Forall_forall in Hall. auto.
Qed.

Lemma orElse_noNL a b : noNL a -> noNL b -> noNL (orElse a b).
Proof. unfold orElse. now case_bool_decide. Qed.

(** C3, as stated, fails: the patch built from the hunk of a valid diff
    has no [diff --git ] line, and [parseDiff] on that patch alone finds no
    file at all, hence no hunk. *)
Lemma patch_alone_roundtrip_counterexample :
  parseDiff simpleDiff = Ok [simpleFile] /\
  ~ (exists file' hunk',
        parseDiff (buildPatch simpleFile simpleHunk) = Ok [file'] /\
        hunks file' = [hunk'] /\ lines hunk' = lines simpleHunk).
Proof.
  split; [vm_compute; reflexivity|].
  intros (file' & hunk' & Hparse & _).
  assert (Hnone : parseDiff (buildPatch simpleFile simpleHunk) = Ok [])
    by (vm_compute; reflexivity).
  rewrite Hnone in Hparse. discriminate.
Qed.

(** C3, amended.  For a hunk of a file obtained by parsing any text, the
    patch that [buildPatch] assembles from its raw lines parses, on its
    own, to no file (it has no [diff --git ] line); put after a
    [diff --git ] line it parses to exactly one file with exactly one
    hunk, which is the original hunk, so with the same lines content. *)
Theorem patch_after_file_marker_roundtrip
  (diffText : string) (files : list DiffFile) (file : DiffFile)
  (hunk : DiffHunk) (d : string) :
  parseDiff diffText = Ok files -> file ∈ files -> hunk ∈ hunks file ->
  startsWith d "diff --git " = true -> noNL d ->
  parseDiff (buildPatch file hunk) = Ok [] /\
  exists file',
    parseDiff (d +:+ NL +:+ buildPatch file hunk) = Ok [file'] /\
    hunks file' = [hunk] /\ isBinary file' = false.
Proof.
  intros Hparse Hfile Hhunk Hd Hdnl.
  destruct (parseDiff_ok diffText) as (files' & Hparse' & Hgood).
  rewrite Hparse in Hparse'. injection Hparse' as <-.
  rewrite Forall_forall in Hgood.
  destruct (Hgood _ Hfile) as (Hhunks & Hold & Hnew).
  rewrite Forall_forall in Hhunks.
  destruct (Hhunks _ Hhunk) as (hdr & body & -> & Hhdr & Hat & Hbody & Hdeg).
  pose proof (split_noNL diffText) as Hsplit. rewrite Forall_forall in Hsplit.
  apply pathFrom_noNL in Hold, Hnew.
  set (o := "--- a/" +:+ orElse (oldPath file) (newPath file)).
  set (n := "+++ b/" +:+ orElse (newPath file) (oldPath file)).
  assert (Hbp : split (buildPatch file (parsedHunk hdr body))
                = o :: n :: hdr :: body ++ [""]).
  { unfold buildPatch. rewrite (rawLines_parsedHunk _ _ Hdeg).
    rewrite split_join; [reflexivity|done|].
    repeat constructor.
    - apply noNL_app. split; [reflexivity|]. now apply orElse_noNL.
    - apply noNL_app. split; [reflexivity|]. now apply orElse_noNL.
    - now apply Hsplit.
    - apply Forall_forall. intros r Hr. rewrite Forall_forall in Hbody.
      apply Hsplit, (Hbody r Hr). }
  assert (Hbody' : Forall (fun r => isBodyLine r = true) body).
  { eapply Forall_impl; [exact Hbody|]. now intros r [_ ?]. }
  split.
  - unfold parseDiff. rewrite Hbp.
    apply parseDiffLoop_no_file; [|unfold budget; lia].
    repeat constructor.
    + now apply header_not_file_start.
    + apply Forall_app. split.
      * eapply Forall_impl; [exact Hbody'|].
        intros r Hr. now apply isBodyLine_not_marker.
      * now repeat constructor.
  - unfold parseDiff. rewrite (split_line d _ Hdnl), Hbp.
    eexists. split; [now apply parseDiffLoop_patch|]. split; reflexivity.
Qed.

Lemma patch_after_file_marker_roundtrip_witness :
  parseDiff (buildPatch simpleFile simpleHunk) = Ok [] /\
  exists file',
    parseDiff ("diff --git a/a.txt b/a.txt" +:+ NL +:+ buildPatch simpleFile simpleHunk)
      = Ok [file'] /\
    hunks file' = [simpleHunk] /\ isBinary file' = false.
Proof.
  apply (patch_after_file_marker_roundtrip simpleDiff [simpleFile] simpleFile
           simpleHunk "diff --git a/a.txt b/a.txt").
  - vm_compute; reflexivity.
  - apply list_elem_of_here.
  - apply list_elem_of_here.
  - reflexivity.
  - reflexivity.
Defined.

(** ** Properties of the hunk identities *)

Lemma string_length_app (a b : string) :
  String.length (a +:+ b) = (String.length a + String.length b)%nat.
Proof. induction a as [|c a IH]; [done|]. rewrite append_cons. simpl. now rewrite IH. Qed.

Lemma string_app_inj_length (a b x y : string) :
  String.length a = String.length b -> a +:+ x = b +:+ y -> a = b /\ x = y.
Proof.
  revert b. induction a as [|c a IH]; intros [|c' b] Hlen Heq; try discriminate.
  - done.
  - rewrite !append_cons in Heq. injection Heq as -> Heq. injection Hlen as Hlen.
    destruct (IH b Hlen Heq) as [-> ->]. done.
Qed.

Lemma repeatChar_length n c : String.length (repeatChar n c) = n.
Proof. induction n as [|n IH]; simpl; [done|]. now rewrite IH. Qed.

Lemma hexDigits_length fuel : forall n acc k,
  0 <= n < 16 ^ Z.of_nat (S k) ->
  (String.length (hexDigits fuel n acc) <= String.length acc + S k)%nat.
Proof.
  induction fuel as [|fuel IH]; intros n acc k Hn; simpl; [lia|].
  destruct (n / 16 =? 0) eqn:E; [simpl; lia|].
  apply Z.eqb_neq in E.
  destruct k as [|k].
  - exfalso. apply E. apply Z.div_small. simpl in Hn. lia.
  - specialize (IH (n / 16) (String (hexDigit (n mod 16)) acc) k).
    simpl String.length in IH. etrans; [apply IH|lia].
    split; [apply Z.div_pos; lia|].
    apply Z.div_lt_upper_bound; [lia|].
    replace (16 * 16 ^ Z.of_nat (S k)) with (16 ^ Z.of_nat (S (S k))); [lia|].
    rewrite (Nat2Z.inj_succ (S k)), Z.pow_succ_r; lia.
Qed.

Lemma padStart_toString16_length n :
  0 <= n < 2 ^ 32 ->
  String.length (padStart 8 "0"%char (toString16 n)) = 8%nat.
Proof.
  intros Hn. unfold padStart, toString16.
  rewrite string_length_app, repeatChar_length.
  pose proof (hexDigits_length (S (Z.to_nat (Z.log2 n))) n "" 7) as Hlen.
  change (16 ^ Z.of_nat 8) with (2 ^ 32) in Hlen.
  specialize (Hlen Hn). change (String.length "") with 0%nat in Hlen. lia.
Qed.

(** An identity computed by [fnv1a] has exactly eight characters. *)
Lemma fnv1a_length str : String.length (fnv1a str) = 8%nat.
Proof.
  unfold fnv1a. apply padStart_toString16_length.
  unfold toUint32. apply Z.mod_pos_bound. lia.
Qed.

Lemma computeHunkId_length filePath hunk :
  String.length (computeHunkId filePath hunk) = 8%nat.
Proof. apply fnv1a_length. Qed.

Lemma occ_app b l1 l2 : occ b (l1 ++ l2) = (occ b l1 + occ b l2)%nat.
Proof. unfold occ. now rewrite filter_app, length_app. Qed.

Lemma occ_single b x : occ b [x] = if bool_decide (x = b) then 1%nat else 0%nat.
Proof. unfold occ. rewrite filter_cons. case_bool_decide; case_decide; done. Qed.

Lemma occ_zero b l : occ b l = 0%nat <-> b ∉ l.
Proof.
  unfold occ. induction l as [|x l IH].
  - split; [intros _; apply not_elem_of_nil|done].
  - rewrite filter_cons, not_elem_of_cons.
    destruct (decide (x = b)) as [Hxb|Hxb]; simpl.
    + split; [discriminate|]. intros [Hne _]. congruence.
    + rewrite IH. split; [intros Hn; split; [congruence|done]|now intros [_ Hn]].
Qed.

(** At an occurrence of [b], fewer occurrences lie before than up to any
    later index. *)
Lemma occ_take_lt (bases : list string) i j b :
  bases !! i = Some b -> (i < j)%nat ->
  (occ b (take i bases) < occ b (take j bases))%nat.
Proof.
  intros Hi Hij.
  rewrite <- (take_drop i bases) at 2.
  pose proof (lookup_lt_Some _ _ _ Hi) as Hlt.
  rewrite take_app_ge by (rewrite length_take; lia).
  rewrite occ_app, length_take, Nat.min_l by lia.
  rewrite (drop_S _ _ _ Hi).
  destruct (j - i)%nat as [|k] eqn:E; [lia|].
  rewrite firstn_cons. change (b :: take k (drop (S i) bases))
    with ([b] ++ take k (drop (S i) bases)).
  rewrite occ_app, occ_single, bool_decide_eq_true_2 by done. lia.
Qed.

Lemma occ_take_total (bases : list string) i b :
  bases !! i = Some b -> (occ b (take i bases) < occ b bases)%nat.
Proof.
  intros Hi. pose proof (lookup_lt_Some _ _ _ Hi) as Hlt.
  rewrite <- (firstn_all bases) at 2.
  apply occ_take_lt; [done|lia].
Qed.

(** The state of [computeHunkIds] after its first loop: [seen] counts the
    occurrences of every hash, and the identity at index [i] is the bare
    hash for a first occurrence and the hash with the occurrence number
    for a later one. *)
Lemma countLoop_spec filePath hunks :
  let bases := map (computeHunkId filePath) hunks in
  let st := foldl (countStep filePath) ([], ∅) hunks in
  length st.1 = length hunks /\
  (forall b, st.2 !! b =
             if bool_decide (occ b bases = 0%nat) then None
             else Some (Z.of_nat (occ b bases))) /\
  (forall i b, bases !! i = Some b ->
     st.1 !! i =
       Some (let count := Z.of_nat (S (occ b (take i bases))) in
             if count =? 1 then b else b +:+ "-" +:+ pretty count)).
Proof.
  induction hunks as [|h hunks IH] using rev_ind.
  - simpl. split; [done|]. split; [intros b; now rewrite lookup_empty|].
    intros i b Hi. now rewrite lookup_nil in Hi.
  - rewrite map_app, foldl_app. cbn [foldl map]. cbv zeta in IH |- *.
    destruct IH as (Hlen & Hseen & Hids).
    set (st := foldl (countStep filePath) ([], ∅) hunks) in *.
    set (bases := map (computeHunkId filePath) hunks) in *.
    set (b0 := computeHunkId filePath h).
    unfold countStep at 1 2 3. fold b0. cbn [fst snd].
    assert (Hcount : default 0 (st.2 !! b0) + 1 = Z.of_nat (S (occ b0 bases))).
    { rewrite Hseen. case_bool_decide as E; simpl; [rewrite E|]; lia. }
    split; [rewrite !length_app, Hlen; simpl; lia|]. split.
    + intros b. rewrite occ_app, occ_single.
      destruct (decide (b0 = b)) as [<-|Hne].
      * rewrite lookup_insert_eq, (bool_decide_eq_true_2 (b0 = b0)) by done.
        rewrite bool_decide_eq_false_2 by lia. rewrite Hcount. f_equal. lia.
      * rewrite lookup_insert_ne, (bool_decide_eq_false_2 _ Hne), Nat.add_0_r by done.
        apply Hseen.
    + intros i b Hi.
      assert (Hlb : length bases = length hunks) by apply length_map.
      destruct (decide (i < length bases)%nat) as [Hlt|Hge].
      * rewrite lookup_app_l in Hi by done.
        rewrite lookup_app_l by lia.
        rewrite take_app_le by lia. now apply Hids.
      * pose proof (lookup_lt_Some _ _ _ Hi) as Hlt.
        rewrite length_app in Hlt. simpl in Hlt.
        assert (i = length bases) as -> by lia.
        rewrite list_lookup_middle in Hi by done. injection Hi as <-.
        rewrite list_lookup_middle by lia.
        rewrite take_app_le, firstn_all by lia.
        now rewrite Hcount.
Qed.

(** [relabel seen x]: what the second loop of [computeHunkIds] leaves at
    an index that held [x]. *)
Lemma relabelLoop_spec (seen : gmap string Z) (ids : list string) :
  foldl (relabelStep seen) ids (seq 0 (length ids)) =
  map (fun x => match seen !! x with
                | Some count => if 1 <? count then x +:+ "-1" else x
                | None => x
                end) ids.
Proof.
  set (relabel := fun x : string => match seen !! x with
                | Some count => if 1 <? count then x +:+ "-1" else x
                | None => x
                end).
  assert (Hgen : forall n, (n <= length ids)%nat ->
            foldl (relabelStep seen) ids (seq 0 n) =
            map relabel (take n ids) ++ drop n ids).
  { induction n as [|n IH]; intros Hn; [done|].
    rewrite seq_S, foldl_app, IH by lia. simpl.
    destruct (lookup_lt_is_Some_2 ids n) as [x Hx]; [lia|].
    assert (Hx' : (map relabel (take n ids) ++ drop n ids) !! n = Some x).
    { rewrite lookup_app_r; rewrite length_map, length_take, Nat.min_l by lia; [|lia].
      rewrite Nat.sub_diag, lookup_drop, Nat.add_0_r. done. }
    assert (Hstep : relabelStep seen (map relabel (take n ids) ++ drop n ids) n =
                    <[n := relabel x]> (map relabel (take n ids) ++ drop n ids)).
    { unfold relabelStep. rewrite Hx'. unfold relabel.
      destruct (seen !! x) as [count|]; [destruct (1 <? count)|];
        try reflexivity; symmetry; now apply list_insert_id. }
    rewrite Hstep.
    rewrite insert_app_r_alt; rewrite length_map, length_take, Nat.min_l by lia; [|lia].
    rewrite Nat.sub_diag, (drop_S _ _ _ Hx). simpl.
    rewrite (take_S_r _ _ _ Hx), map_app. simpl. now rewrite <- app_assoc. }
  rewrite Hgen by lia. now rewrite firstn_all, drop_all, app_nil_r.
Qed.

Lemma bases_length filePath hunks :
  Forall (fun b => String.length b = 8%nat) (map (computeHunkId filePath) hunks).
Proof. apply Forall_map, Forall_forall. intros h _. apply computeHunkId_length. Qed.

(** A suffixed identity is longer than a hash, so it is not a hash of the
    batch. *)
Lemma suffixed_not_base (bases : list string) b sfx :
  Forall (fun b => String.length b = 8%nat) bases ->
  String.length b = 8%nat ->
  b +:+ "-" +:+ sfx ∉ bases.
Proof.
  intros Hall Hb Hin. rewrite Forall_forall in Hall. apply Hall in Hin.
  rewrite !string_length_app, Hb in Hin. simpl in Hin. lia.
Qed.

Lemma computeHunkIds_length filePath hunks :
  length (computeHunkIds filePath hunks) = length hunks.
Proof.
  unfold computeHunkIds.
  pose proof (countLoop_spec filePath hunks) as Hspec. cbv zeta in Hspec.
  destruct (foldl (countStep filePath) ([], ∅) hunks) as [ids seen].
  cbn [fst snd] in Hspec. destruct Hspec as (Hlen & _ & _).
  now rewrite relabelLoop_spec, length_map.
Qed.

(** What [computeHunkIds] returns at every index of the batch. *)
Lemma computeHunkIds_lookup filePath hunks i b :
  map (computeHunkId filePath) hunks !! i = Some b ->
  computeHunkIds filePath hunks !! i =
  Some (labelAt (map (computeHunkId filePath) hunks) i b).
Proof.
  intros Hi. unfold computeHunkIds.
  pose proof (countLoop_spec filePath hunks) as Hspec. cbv zeta in Hspec.
  pose proof (bases_length filePath hunks) as Hbases.
  set (bases := map (computeHunkId filePath) hunks) in *.
  destruct (foldl (countStep filePath) ([], ∅) hunks) as [ids seen].
  cbn [fst snd] in Hspec. destruct Hspec as (_ & Hseen & Hids).
  rewrite relabelLoop_spec, list_lookup_fmap, (Hids _ _ Hi).
  cbv zeta. cbn [fmap option_fmap option_map].
  pose proof (occ_take_total _ _ _ Hi) as Htotal.
  assert (Hb : String.length b = 8%nat).
  { rewrite Forall_forall in Hbases. apply Hbases.
    eapply list_elem_of_lookup_2, Hi. }
  unfold labelAt. f_equal.
  destruct (Z.of_nat (S (occ b (take i bases))) =? 1) eqn:Ek.
  - apply Z.eqb_eq in Ek.
    rewrite Hseen, (bool_decide_eq_false_2 (occ b bases = 0%nat)) by lia.
    assert (Hz : occ b (take i bases) = 0%nat) by lia. rewrite Hz.
    destruct (1 <? Z.of_nat (occ b bases)) eqn:E1.
    + apply Z.ltb_lt in E1. rewrite bool_decide_eq_false_2 by lia. reflexivity.
    + apply Z.ltb_ge in E1. rewrite bool_decide_eq_true_2 by lia. reflexivity.
  - apply Z.eqb_neq in Ek.
    rewrite Hseen, bool_decide_eq_true_2.
    + rewrite bool_decide_eq_false_2 by lia. reflexivity.
    + apply occ_zero. now apply suffixed_not_base.
Qed.

(** C4.  [computeHunkIds] returns one identity per sub-hunk.  With [bases]
    the content hashes of the batch, the identity at index [i] is the bare
    hash when that hash occurs once in the batch, and otherwise the hash
    followed by [-k], where the sub-hunk is the [k]-th one with that hash
    in input order (so the first gets [-1], the second [-2], and so on).
    Two sub-hunks with the same changed lines therefore get the same hash
    with two different occurrence numbers, the earlier one the smaller,
    and their identities differ. *)
Theorem computeHunkIds_suffixes (filePath : string) (hunks : list DiffHunk) :
  let bases := map (computeHunkId filePath) hunks in
  let ids := computeHunkIds filePath hunks in
  length ids = length hunks /\
  (forall i b, bases !! i = Some b ->
     ids !! i = Some (if bool_decide (occ b bases = 1%nat) then b
                      else b +:+ "-" +:+
                           pretty (Z.of_nat (S (occ b (take i bases)))))) /\
  (forall i j hi hj,
     (i < j)%nat -> hunks !! i = Some hi -> hunks !! j = Some hj ->
     filter isChange (lines hi) = filter isChange (lines hj) ->
     exists b ki kj idi idj,
       ids !! i = Some idi /\ ids !! j = Some idj /\
       idi = b +:+ "-" +:+ pretty ki /\ idj = b +:+ "-" +:+ pretty kj /\
       1 <= ki < kj /\ idi <> idj).
Proof.
  cbv zeta. split; [apply computeHunkIds_length|]. split.
  - intros i b Hi. now apply computeHunkIds_lookup.
  - intros i j hi hj Hij Hi Hj Hsame.
    set (bases := map (computeHunkId filePath) hunks).
    set (b := computeHunkId filePath hi).
    assert (Hbi : bases !! i = Some b).
    { unfold bases. now rewrite list_lookup_fmap, Hi. }
    assert (Hbj : bases !! j = Some b).
    { unfold bases, b, computeHunkId, changedContent.
      now rewrite list_lookup_fmap, Hj, Hsame. }
    pose proof (occ_take_lt _ _ _ _ Hbi Hij) as Hlt.
    pose proof (occ_take_total _ _ _ Hbj) as Htot.
    exists b, (Z.of_nat (S (occ b (take i bases)))),
           (Z.of_nat (S (occ b (take j bases)))).
    do 2 eexists.
    rewrite (computeHunkIds_lookup _ _ _ _ Hbi), (computeHunkIds_lookup _ _ _ _ Hbj).
    unfold labelAt. fold bases. rewrite !bool_decide_eq_false_2 by lia.
    split; [reflexivity|]. split; [reflexivity|]. split; [reflexivity|].
    split; [reflexivity|]. split; [lia|].
    intros Heq. apply string_app_inj_length in Heq as [_ Heq]; [|done].
    apply string_app_inj_length in Heq as [_ Heq]; [|done].
    apply (inj pretty) in Heq. lia.
Qed.

(** C10.  The identities [computeHunkIds] returns are as many as the
    sub-hunks, the one at index [i] is the hash of the sub-hunk at index
    [i] with or without a suffix, and no identity occurs twice; this does
    not depend on which contents produced equal hashes. *)
Theorem computeHunkIds_distinct (filePath : string) (hunks : list DiffHunk) :
  let ids := computeHunkIds filePath hunks in
  length ids = length hunks /\
  (forall i h, hunks !! i = Some h ->
     exists sfx, ids !! i = Some (computeHunkId filePath h +:+ sfx)) /\
  NoDup ids.
Proof.
  cbv zeta. split; [apply computeHunkIds_length|].
  pose proof (bases_length filePath hunks) as Hbases.
  rewrite Forall_forall in Hbases.
  set (bases := map (computeHunkId filePath) hunks) in *.
  assert (Hbase : forall i h, hunks !! i = Some h ->
                    bases !! i = Some (computeHunkId filePath h)).
  { intros i h Hi. unfold bases. now rewrite list_lookup_fmap, Hi. }
  split.
  - intros i h Hi.
    rewrite (computeHunkIds_lookup _ _ _ _ (Hbase _ _ Hi)). fold bases.
    unfold labelAt. case_bool_decide.
    + exists "". now rewrite append_empty_r.
    + eexists. reflexivity.
  - apply NoDup_alt. intros i j x Hxi Hxj.
    destruct (lookup_lt_is_Some_2 hunks i) as [hi Hi].
    { rewrite <- (computeHunkIds_length filePath). eapply lookup_lt_Some, Hxi. }
    destruct (lookup_lt_is_Some_2 hunks j) as [hj Hj].
    { rewrite <- (computeHunkIds_length filePath). eapply lookup_lt_Some, Hxj. }
    pose proof (Hbase _ _ Hi) as Hbi. pose proof (Hbase _ _ Hj) as Hbj.
    revert Hxi Hxj.
    generalize dependent (computeHunkId filePath hi). intros bi Hbi.
    generalize dependent (computeHunkId filePath hj). intros bj Hbj.
    intros Hxi Hxj.
    rewrite (computeHunkIds_lookup _ _ _ _ Hbi) in Hxi.
    rewrite (computeHunkIds_lookup _ _ _ _ Hbj) in Hxj.
    fold bases in Hxi, Hxj. injection Hxi as Hxi. injection Hxj as Hxj.
    assert (Hli : String.length bi = 8%nat)
      by (apply Hbases; eapply list_elem_of_lookup_2, Hbi).
    assert (Hlj : String.length bj = 8%nat)
      by (apply Hbases; eapply list_elem_of_lookup_2, Hbj).
    assert (Hsame : bi = bj -> occ bi (take i bases) = occ bi (take j bases) -> i = j).
    { intros Hb Hocc. rewrite <- Hb in Hbj.
      destruct (Nat.lt_trichotomy i j) as [Hlt|[Heq|Hgt]]; [|done|].
      - pose proof (occ_take_lt _ _ _ _ Hbi Hlt). lia.
      - pose proof (occ_take_lt _ _ _ _ Hbj Hgt). lia. }
    unfold labelAt in Hxi, Hxj. subst x.
    case_bool_decide as Ei; case_bool_decide as Ej.
    + subst bj. apply Hsame; [done|].
      pose proof (occ_take_total _ _ _ Hbi). pose proof (occ_take_total _ _ _ Hbj).
      lia.
    + exfalso. apply (f_equal String.length) in Hxj.
      rewrite !string_length_app, Hli, Hlj in Hxj. simpl in Hxj. lia.
    + exfalso. apply (f_equal String.length) in Hxj.
      rewrite !string_length_app, Hli, Hlj in Hxj. simpl in Hxj. lia.
    + apply string_app_inj_length in Hxj as [Hb Hsfx]; [|lia].
      apply string_app_inj_length in Hsfx as [_ Hsfx]; [|done].
      apply (inj pretty) in Hsfx. subst bj. apply Hsame; [done|lia].
Qed.

(** ** Properties of the review state engine *)

Lemma statuses_persist st : statuses (persist st) = statuses st.
Proof. unfold persist. now destruct (storage st). Qed.

Lemma undoStack_persist st : undoStack (persist st) = undoStack st.
Proof. unfold persist. now destruct (storage st). Qed.

Lemma persist_inSync st : storageInSync (persist st).
Proof.
  unfold storageInSync, persist.
  destruct (storage st) eqn:E; simpl; [done|now rewrite E].
Qed.

(** What [persist] writes: for each path and identity an entry exactly
    when the status in memory is [approved]; a path is present only with
    at least one such entry. *)
Lemma persistData_entry sts path ident s :
  statusEntry (persistData sts) path ident = Some s <->
  s = approved /\ statusEntry sts path ident = Some approved /\
  path <> protoKey /\ ident <> protoKey.
Proof.
  unfold statusEntry, persistData. rewrite lookup_omap.
  destruct (decide (path = protoKey)) as [->|Hpath].
  { rewrite lookup_delete_eq. simpl. split; [done|]. now intros (_ & _ & ? & _). }
  rewrite lookup_delete_ne by done.
  destruct (sts !! path) as [m|]; simpl; [|split; [done|now intros (_ & ? & _)]].
  case_bool_decide as He; simpl.
  - split; [done|]. intros (_ & Hm & _ & Hid).
    assert (Hf : approvedOnly m !! ident = Some approved)
      by (apply map_lookup_filter_Some; auto).
    rewrite He, lookup_empty in Hf. done.
  - unfold approvedOnly. rewrite map_lookup_filter_Some. simpl.
    split; [intros (Hm & -> & Hid); auto|intros (-> & Hm & _ & Hid); auto].
Qed.

Lemma persistData_nonempty sts path obj :
  persistData sts !! path = Some obj ->
  obj <> ∅ /\ path <> protoKey /\
  exists m, sts !! path = Some m /\ obj = approvedOnly m.
Proof.
  unfold persistData. rewrite lookup_omap.
  destruct (decide (path = protoKey)) as [->|Hpath].
  { now rewrite lookup_delete_eq. }
  rewrite lookup_delete_ne by done.
  destruct (sts !! path) as [m|]; simpl; [|done].
  case_bool_decide; [done|]. intros [= <-]. eauto.
Qed.

Lemma persistData_idempotent sts : persistData (persistData sts) = persistData sts.
Proof.
  apply map_eq. intros path.
  destruct (persistData sts !! path) as [obj|] eqn:E.
  - destruct (persistData_nonempty _ _ _ E) as (Hne & Hpath & m & Hm & ->).
    unfold persistData at 1. rewrite lookup_omap, lookup_delete_ne, E by done.
    simpl.
    assert (Hid : approvedOnly (approvedOnly m) = approvedOnly m).
    { apply map_eq. intros i. unfold approvedOnly.
      apply option_eq. intros s. rewrite !map_lookup_filter_Some. tauto. }
    rewrite Hid. now rewrite bool_decide_eq_false_2.
  - unfold persistData at 1. rewrite lookup_omap.
    destruct (decide (path = protoKey)) as [->|Hpath].
    + now rewrite lookup_delete_eq.
    + now rewrite lookup_delete_ne, E.
Qed.

(** The map built by [syncStatuses]. *)
Lemma buildMap_lookup existing hs ident :
  buildMap existing hs !! ident =
  if bool_decide (ident ∈ omap truthyId hs)
  then Some (default pending (existing !! ident)) else None.
Proof.
  unfold buildMap. induction hs as [|h hs IH] using rev_ind.
  - rewrite bool_decide_eq_false_2 by apply not_elem_of_nil. apply lookup_empty.
  - rewrite foldl_app, omap_app. simpl.
    destruct (truthyId h) as [i|] eqn:Eh; simpl.
    + destruct (decide (i = ident)) as [->|Hne].
      * rewrite lookup_insert_eq, bool_decide_eq_true_2; [done|].
        apply elem_of_app. right. apply list_elem_of_here.
      * rewrite lookup_insert_ne, IH by done.
        apply (f_equal (fun b : bool => if b then _ else _)).
        apply bool_decide_ext. rewrite elem_of_app, list_elem_of_singleton.
        split; [auto|]. intros [?|?]; [done|congruence].
    + now rewrite app_nil_r.
Qed.

Lemma statusArray_lookup m hs k h :
  hs !! k = Some h ->
  statusArray m hs !! k =
  Some (match truthyId h with
        | Some i => default pending (m !! i)
        | None => pending
        end).
Proof. intros Hk. unfold statusArray. now rewrite list_lookup_fmap, Hk. Qed.

Lemma statusArray_buildMap existing hs k h :
  hs !! k = Some h ->
  statusArray (buildMap existing hs) hs !! k =
  Some (match truthyId h with
        | Some i => default pending (existing !! i)
        | None => pending
        end).
Proof.
  intros Hk. rewrite (statusArray_lookup _ _ _ _ Hk).
  destruct (truthyId h) as [i|] eqn:Eh; [|done].
  rewrite buildMap_lookup, bool_decide_eq_true_2; [done|].
  apply list_elem_of_omap. exists h. split; [|done].
  eapply list_elem_of_lookup_2, Hk.
Qed.

(** Both branches of [syncStatuses] in one form: the previous map of the
    path, taken as empty when there is none, is carried over. *)
Lemma syncStatuses_unfold file st :
  let prior := default ∅ (statuses st !! pathOf file) in
  syncStatuses file st =
  (statusArray (buildMap prior (hunks file)) (hunks file),
   persist (setStatuses st
              (<[pathOf file := buildMap prior (hunks file)]> (statuses st)))).
Proof.
  cbv zeta. unfold syncStatuses.
  assert (Hpending :
    map (fun _ : DiffHunk => pending) (hunks file) =
    statusArray (buildMap ∅ (hunks file)) (hunks file)).
  { apply list_eq. intros k. rewrite list_lookup_fmap.
    destruct (hunks file !! k) as [h|] eqn:Hk; simpl.
    - rewrite (statusArray_buildMap _ _ _ _ Hk).
      destruct (truthyId h); [now rewrite lookup_empty|done].
    - symmetry. unfold statusArray. now rewrite list_lookup_fmap, Hk. }
  destruct (statuses st !! pathOf file) as [ex|]; simpl.
  - case_bool_decide as Hsize; [|done].
    apply map_size_empty_iff in Hsize. subst ex. now rewrite Hpending.
  - now rewrite Hpending.
Qed.

(** C2.  [syncStatuses file] puts under the file's path a status map whose
    keys are exactly the identities present in [file.hunks]; an identity
    keeps the status it had in the previous map of that path and gets
    [pending] when it had none; the maps of the other paths and the undo
    stack are untouched.  The returned array has one status per hunk, in
    the order of [file.hunks], read from that map; so a hunk whose identity
    was [approved] before is [approved] in the array, at whatever index the
    hunk now is. *)
Theorem syncStatuses_reconciles (file : DiffFile) (st : StateManager) :
  let path := pathOf file in
  let prior := default ∅ (statuses st !! path) in
  let arr := (syncStatuses file st).1 in
  let st' := (syncStatuses file st).2 in
  (exists newMap,
      statuses st' !! path = Some newMap /\
      forall i, newMap !! i =
                if bool_decide (i ∈ identities file)
                then Some (default pending (prior !! i)) else None) /\
  (forall p, p <> path -> statuses st' !! p = statuses st !! p) /\
  undoStack st' = undoStack st /\
  length arr = length (hunks file) /\
  (forall k h, hunks file !! k = Some h ->
     arr !! k = Some (match truthyId h with
                      | Some i => default pending (prior !! i)
                      | None => pending
                      end)) /\
  (forall k h i,
     hunks file !! k = Some h -> id h = Some i -> i <> "" ->
     statusEntry (statuses st) path i = Some approved ->
     arr !! k = Some approved).
Proof.
  cbv zeta. rewrite syncStatuses_unfold. cbn [fst snd].
  rewrite statuses_persist, undoStack_persist. cbn [statuses undoStack setStatuses].
  split; [|split; [|split; [|split; [|split]]]].
  - eexists. rewrite lookup_insert_eq. split; [reflexivity|].
    intros i. apply buildMap_lookup.
  - intros p Hp. now rewrite lookup_insert_ne.
  - reflexivity.
  - unfold statusArray. apply length_map.
  - intros k h Hk. now apply statusArray_buildMap.
  - intros k h i Hk Hid Hne Happ.
    rewrite (statusArray_buildMap _ _ _ _ Hk).
    unfold truthyId. rewrite Hid, bool_decide_eq_false_2 by done.
    unfold statusEntry in Happ.
    destruct (statuses st !! pathOf file) as [m|]; simpl in *; [|done].
    now rewrite Happ.
Qed.

Lemma find_none_id ident hs :
  (forall h, h ∈ hs -> id h <> Some ident) ->
  find (fun h => bool_decide (id h = Some ident)) hs = None.
Proof.
  induction hs as [|h hs IH]; intros Hall; [done|]. simpl.
  rewrite bool_decide_eq_false_2 by (apply Hall, list_elem_of_here).
  apply IH. intros h' Hin. apply Hall. now apply list_elem_of_further.
Qed.

Lemma last_snoc_entry (stack : list UndoEntry) entry :
  last (stack ++ [entry]) = Some entry.
Proof. apply last_snoc. Qed.

Section EngineFacts.
Context {World : Type} `{git : GitAdapter World}.

(** C9.  [approve] for a path without status map or for an identity that
    is not in the map of the path, and [reject] for an identity that no
    hunk of the given file has, change nothing: the engine (status maps,
    undo stack, stored blob) is the one before, [reject] returns [null],
    and the collaborator's world is the one before for every
    collaborator, so no apply operation was invoked.  The same holds of
    [undoApprove] for an identity that is not approved. *)
Theorem lookup_miss_is_noop (st : StateManager) (w : World) :
  (forall path ident,
      statuses st !! path = None \/
      (exists m, statuses st !! path = Some m /\ m !! ident = None) ->
      approve path ident st = st) /\
  (forall path ident file,
      (forall h, h ∈ hunks file -> id h <> Some ident) ->
      reject path ident file st w = (Returned None, st, w)) /\
  (forall path ident,
      statusEntry (statuses st) path ident <> Some approved ->
      undoApprove path ident st = st).
Proof.
  split; [|split].
  - intros path ident [Hnone|(m & Hm & Hid)]; unfold approve.
    + now rewrite Hnone.
    + rewrite Hm, bool_decide_eq_false_2; [done|].
      rewrite Hid. now intros [? ?].
  - intros path ident file Hmiss. unfold reject.
    now rewrite (find_none_id _ _ Hmiss).
  - intros path ident Hne. unfold undoApprove, statusEntry in *.
    destruct (statuses st !! path) as [m|]; simpl in *; [|done].
    now rewrite bool_decide_eq_false_2.
Qed.

(** C7.  [undo] on an empty stack returns [null] and changes nothing.
    Otherwise it removes the last entry of the stack and no other.  For
    an [approve] entry the status of the entry's identity is [pending]
    afterwards (an entry the map still has is set to [pending], none is
    added), every other entry of the status maps is as before, no
    collaborator operation is invoked, and the result names the entry's
    path and [approve].  For a [reject] entry with its patch text the
    collaborator's forward-apply is invoked with that text; when it
    succeeds the status maps are as before and the result names the
    entry's path and [reject]. *)
Theorem undo_reverses_last_action (st : StateManager) (w : World) :
  (undoStack st = [] -> undo st w = (Returned None, st, w)) /\
  (forall stack entry,
      undoStack st = stack ++ [entry] -> entryType entry = approve_t ->
      exists st',
        undo st w = (Returned (Some (filePath entry, approve_t)), st', w) /\
        undoStack st' = stack /\
        statusOf st' (filePath entry) (hunkId entry) = pending /\
        statusEntry (statuses st') (filePath entry) (hunkId entry) =
          (fun _ => pending) <$>
            statusEntry (statuses st) (filePath entry) (hunkId entry) /\
        (forall path ident,
            (path, ident) <> (filePath entry, hunkId entry) ->
            statusEntry (statuses st') path ident =
            statusEntry (statuses st) path ident)) /\
  (forall stack entry patch,
      undoStack st = stack ++ [entry] -> entryType entry = reject_t ->
      forwardPatch entry = Some patch -> patch <> "" ->
      exists st',
        undo st w =
          (match (applyForward patch w).1 with
           | Returned _ => Returned (Some (filePath entry, reject_t))
           | Rejected => Rejected
           end, st', (applyForward patch w).2) /\
        undoStack st' = stack /\ statuses st' = statuses st).
Proof.
  split; [|split].
  - intros Hempty. unfold undo. now rewrite Hempty.
  - intros stack entry Hstack Htype. unfold undo.
    rewrite Hstack, last_snoc_entry, removelast_last, Htype.
    eexists. split; [reflexivity|].
    rewrite undoStack_persist, statuses_persist.
    unfold statusOf. rewrite statuses_persist.
    change (statuses (setUndoStack st stack)) with (statuses st).
    destruct (statuses st !! filePath entry) as [m|] eqn:Hm;
      cbn [statuses undoStack setStatuses setUndoStack].
    + case_bool_decide as Hhas; cbn [statuses undoStack setStatuses setUndoStack].
      * destruct Hhas as [s Hs].
        split; [reflexivity|]. unfold statusEntry.
        rewrite lookup_insert_eq, Hm. simpl. rewrite lookup_insert_eq, Hs. simpl.
        split; [reflexivity|]. split; [reflexivity|].
        intros path ident Hne.
        destruct (decide (path = filePath entry)) as [->|Hp].
        -- rewrite lookup_insert_eq, Hm. simpl.
           rewrite lookup_insert_ne; [done|]. congruence.
        -- now rewrite lookup_insert_ne.
      * split; [reflexivity|]. unfold statusEntry. rewrite Hm. simpl.
        assert (Hnone : m !! hunkId entry = None).
        { destruct (m !! hunkId entry) eqn:E; [|done].
          exfalso. apply Hhas. eauto. }
        rewrite Hnone. auto.
    + split; [reflexivity|]. unfold statusEntry. rewrite Hm. auto.
  - intros stack entry patch Hstack Htype Hpatch Hne. unfold undo.
    rewrite Hstack, last_snoc_entry, removelast_last, Htype, Hpatch.
    rewrite bool_decide_eq_false_2 by done.
    destruct (applyForward patch w) as [[u|] w']; cbn [fst snd];
      eexists; (split; [reflexivity|]);
      rewrite ?undoStack_persist, ?statuses_persist; split; reflexivity.
Qed.
End EngineFacts.

Lemma syncStatuses_inSync file st : storageInSync (syncStatuses file st).2.
Proof. rewrite syncStatuses_unfold. apply persist_inSync. Qed.

Lemma approve_inSync path ident st :
  storageInSync st -> storageInSync (approve path ident st).
Proof.
  intros Hst. unfold approve.
  destruct (statuses st !! path); [|done].
  case_bool_decide; [apply persist_inSync|done].
Qed.

Lemma approveAll_inSync path file st :
  storageInSync st -> storageInSync (approveAll path file st).
Proof.
  intros Hst. unfold approveAll.
  destruct (statuses st !! path); [|done].
  destruct (foldl _ _ _). apply persist_inSync.
Qed.

Lemma undoApprove_inSync path ident st :
  storageInSync st -> storageInSync (undoApprove path ident st).
Proof.
  intros Hst. unfold undoApprove.
  destruct (statuses st !! path); [|done].
  case_bool_decide; [apply persist_inSync|done].
Qed.

Lemma pruneCommittedFiles_inSync files st :
  storageInSync st -> storageInSync (pruneCommittedFiles files st).
Proof.
  intros Hst. unfold pruneCommittedFiles.
  case_bool_decide; [apply persist_inSync|done].
Qed.

Section PersistenceFacts.
Context {World : Type} `{git : GitAdapter World}.

Lemma reject_inSync path ident file st w r st' w' :
  storageInSync st ->
  reject path ident file st w = (Returned r, st', w') ->
  storageInSync st'.
Proof.
  intros Hst. unfold reject.
  destruct (find _ _) as [hunk|]; [|now intros [= _ <- _]].
  destruct (applyReverse _ w) as [[u|] w1]; [|discriminate].
  destruct (getFileDiff path w1) as [[[|fresh rest]|] w2]; [| |discriminate].
  - intros [= _ <- _]. apply persist_inSync.
  - intros [= _ <- _]. apply syncStatuses_inSync.
Qed.

Lemma undo_inSync st w r st' w' :
  storageInSync st -> undo st w = (r, st', w') -> storageInSync st'.
Proof.
  intros Hst. unfold undo.
  destruct (last (undoStack st)) as [entry|]; [|now intros [= _ <- _]].
  destruct (entryType entry).
  - intros [= _ <- _]. apply persist_inSync.
  - destruct (forwardPatch entry) as [p|].
    + case_bool_decide.
      * intros [= _ <- _]. apply persist_inSync.
      * destruct (applyForward p w) as [[u|] w1]; intros [= _ <- _];
          [apply persist_inSync|exact Hst].
    + intros [= _ <- _]. apply persist_inSync.
Qed.

(** What [persist] writes holds, for a path and an identity other than
    [protoKey], the entry [approved] exactly when the status in memory is
    [approved], and nothing else; a path is in it only with at least one
    approved identity.  The stored blob is that data after [syncStatuses]
    and [clear], which always persist, and stays that data after
    [approve], [approveAll], [undoApprove], [pruneCommittedFiles], [undo]
    and a [reject] that returns, which persist whenever they change a
    status map. *)
Lemma blob_in_sync_when_returning (st : StateManager) (w : World) :
  (forall sts path ident s,
      statusEntry (persistData sts) path ident = Some s <->
      s = approved /\ statusEntry sts path ident = Some approved /\
      path <> protoKey /\ ident <> protoKey) /\
  (forall sts path obj, persistData sts !! path = Some obj -> obj <> ∅) /\
  (forall file, storageInSync (syncStatuses file st).2) /\
  storageInSync (clear st) /\
  (storageInSync st ->
     (forall path ident, storageInSync (approve path ident st)) /\
     (forall path file, storageInSync (approveAll path file st)) /\
     (forall path ident, storageInSync (undoApprove path ident st)) /\
     (forall files, storageInSync (pruneCommittedFiles files st)) /\
     (forall path ident file r st' w',
         reject path ident file st w = (Returned r, st', w') ->
         storageInSync st') /\
     (forall r st' w', undo st w = (r, st', w') -> storageInSync st')).
Proof.
  split; [intros; apply persistData_entry|].
  split; [intros sts path obj Hobj; now apply persistData_nonempty in Hobj|].
  split; [intros file; apply syncStatuses_inSync|].
  split; [apply persist_inSync|].
  intros Hst. repeat split.
  - intros; now apply approve_inSync.
  - intros; now apply approveAll_inSync.
  - intros; now apply undoApprove_inSync.
  - intros; now apply pruneCommittedFiles_inSync.
  - intros. eapply reject_inSync; eauto.
  - intros. eapply undo_inSync; eauto.
Qed.
End PersistenceFacts.

(** C8.  The stored blob does not hold exactly the approved identities
    after every operation.  First, [reject] deletes the identity from the
    status map and then asks for the fresh diff; when that call fails,
    [reject] ends without [persist], and the blob still lists as approved
    an identity that memory no longer has: here [hunk-B] of [test.txt],
    approved and in the blob, is rejected through a collaborator whose
    [getFileDiff] fails.  Second, [persist] fills plain objects, which take
    no own key [protoKey]: after [approve] on the hunk of a file of that
    name the status in memory is [approved] and the blob is empty. *)
Theorem persisted_blob_misses_cases :
  (let file := makeFile [makeHunk "hunk-A"; makeHunk "hunk-B"] in
   let run := reject "test.txt" "hunk-B" file shiftedBefore
                {| reversedByBroken := [] |} in
   storageInSync shiftedBefore /\
   statusEntry (statuses shiftedBefore) "test.txt" "hunk-B" = Some approved /\
   run.1.1 = Rejected /\
   reversedByBroken run.2 = [buildPatch file (makeHunk "hunk-B")] /\
   statusEntry (statuses run.1.2) "test.txt" "hunk-B" = None /\
   storage run.1.2 = Some (Some {["test.txt" := {["hunk-B" := approved]}]}) /\
   ~ storageInSync run.1.2) /\
  (let st := approve "__proto__" "hunk-A"
               (syncStatuses protoFile (newStateManager (Some None))).2 in
   statusEntry (statuses st) "__proto__" "hunk-A" = Some approved /\
   getStatusArray protoFile st = [approved] /\
   storage st = Some (Some ∅) /\
   getStatusArray protoFile (newStateManager (storage st)) = [pending]).
Proof.
  split.
  - cbv zeta. split; [vm_compute; reflexivity|].
    split; [vm_compute; reflexivity|].
    split; [vm_compute; reflexivity|].
    split; [vm_compute; reflexivity|].
    split; [vm_compute; reflexivity|].
    split; [vm_compute; reflexivity|].
    unfold storageInSync. intros Heq.
    assert (Hat : statusEntry (default ∅ (default None (storage
              (reject "test.txt" "hunk-B"
                 (makeFile [makeHunk "hunk-A"; makeHunk "hunk-B"])
                 shiftedBefore {| reversedByBroken := [] |}).1.2)))
              "test.txt" "hunk-B" = Some approved) by (vm_compute; reflexivity).
    destruct (storage _) as [blob|]; [|discriminate Hat].
    change (default None (Some blob)) with blob in Hat. rewrite Heq in Hat.
    apply persistData_entry in Hat. destruct Hat as (_ & Hat & _).
    vm_compute in Hat. discriminate Hat.
  - cbv zeta. repeat split; vm_compute; reflexivity.
Qed.

(** An engine built on a blob that [persist] wrote, or on a memento never
    written to, starts with the blob in sync. *)
Lemma newStateManager_inSync sts :
  storageInSync (newStateManager (Some (Some (persistData sts)))) /\
  storageInSync (newStateManager (Some None)) /\
  storageInSync (newStateManager None).
Proof.
  unfold storageInSync, newStateManager. simpl.
  split; [now rewrite persistData_idempotent|]. split; [|done].
  apply map_eq. intros p. unfold persistData. now rewrite lookup_omap, !lookup_empty.
Qed.

(** *** Every [reject] entry of the undo stack carries its patch *)

Lemma buildPatch_nonempty file hunk : buildPatch file hunk <> "".
Proof.
  unfold buildPatch. destruct (join _) as [|c s]; [discriminate|].
  rewrite append_cons. discriminate.
Qed.

Lemma carriesPatch_removelast (P : UndoEntry -> Prop) stack :
  Forall P stack -> Forall P (removelast stack).
Proof.
  induction 1 as [|e stack He Hall IH]; [constructor|].
  simpl. destruct stack; [constructor|]. now constructor.
Qed.

Lemma carriesPatch_removeLastMatch (P : UndoEntry -> Prop) test stack :
  Forall P stack -> Forall P (removeLastMatch test stack).
Proof.
  induction 1 as [|e stack He Hall IH]; [constructor|]. simpl.
  destruct (existsb test stack); [now constructor|].
  destruct (test e); [done|now constructor].
Qed.

Section StackFacts.
Context {World : Type} `{git : GitAdapter World}.

(** The undo stack of a new engine has no entry, and every method keeps
    the property that a [reject] entry holds a non-empty patch text: the
    only such entries are pushed by [reject], with the output of
    [buildPatch]. *)
Lemma reject_entries_carry_patch (st : StateManager) (w : World) :
  carriesPatch (newStateManager (storage st)) /\
  (carriesPatch st ->
     (forall file, carriesPatch (syncStatuses file st).2) /\
     (forall path ident, carriesPatch (approve path ident st)) /\
     (forall path file, carriesPatch (approveAll path file st)) /\
     (forall path ident, carriesPatch (undoApprove path ident st)) /\
     carriesPatch (clear st) /\
     (forall files, carriesPatch (pruneCommittedFiles files st)) /\
     (forall path ident file, carriesPatch (reject path ident file st w).1.2) /\
     carriesPatch (undo st w).1.2).
Proof.
  split; [constructor|]. unfold carriesPatch. intros Hst.
  assert (Happrove : forall path ident,
    (fun e => entryType e = reject_t ->
              exists p, forwardPatch e = Some p /\ p <> "")
      {| entryType := approve_t; filePath := path; hunkId := ident;
         forwardPatch := None |}) by (intros ? ? ?; discriminate).
  repeat split.
  - intros file. rewrite syncStatuses_unfold. cbn [snd].
    now rewrite undoStack_persist.
  - intros path ident. unfold approve.
    destruct (statuses st !! path); [|done].
    case_bool_decide; [|done]. rewrite undoStack_persist. cbn [undoStack].
    apply Forall_app. split; [done|]. constructor; [apply Happrove|constructor].
  - intros path file. unfold approveAll.
    destruct (statuses st !! path) as [m|]; [|done].
    assert (Hfold : forall hs acc,
      Forall (fun e => entryType e = reject_t ->
                exists p, forwardPatch e = Some p /\ p <> "") acc.2 ->
      Forall (fun e => entryType e = reject_t ->
                exists p, forwardPatch e = Some p /\ p <> "")
        (foldl (fun (acc : gmap string HunkStatus * list UndoEntry) hunk =>
             match truthyId hunk with
             | Some i =>
               if bool_decide (acc.1 !! i = Some pending) then
                 (<[i := approved]> acc.1,
                  acc.2 ++ [{| entryType := approve_t; filePath := path;
                               hunkId := i; forwardPatch := None |}])
               else acc
             | None => acc
             end) acc hs).2).
    { induction hs as [|h hs IH]; intros acc Hacc; [done|]. simpl.
      apply IH. destruct (truthyId h); [|done].
      case_bool_decide; [|done]. cbn [snd].
      apply Forall_app. split; [done|]. constructor; [apply Happrove|constructor]. }
    specialize (Hfold (hunks file) (m, undoStack st) Hst).
    destruct (foldl _ _ _) as [m' stack']. now rewrite undoStack_persist.
  - intros path ident. unfold undoApprove.
    destruct (statuses st !! path); [|done].
    case_bool_decide; [|done]. rewrite undoStack_persist. cbn [undoStack].
    now apply carriesPatch_removeLastMatch.
  - unfold clear. rewrite undoStack_persist. constructor.
  - intros files. unfold pruneCommittedFiles.
    case_bool_decide; [|done]. now rewrite undoStack_persist.
  - intros path ident file. unfold reject.
    destruct (find _ _) as [hunk|]; [|done].
    destruct (applyReverse _ w) as [[u|] w1]; [|done].
    assert (Hpush : Forall (fun e => entryType e = reject_t ->
                       exists p, forwardPatch e = Some p /\ p <> "")
              (undoStack st ++
               [{| entryType := reject_t; filePath := path; hunkId := ident;
                   forwardPatch := Some (buildPatch file hunk) |}])).
    { apply Forall_app. split; [done|]. constructor; [|constructor].
      intros _. eexists. split; [reflexivity|apply buildPatch_nonempty]. }
    cbn [statuses undoStack setUndoStack].
    destruct (getFileDiff path w1) as [[[|fresh rest]|] w2]; cbn [fst snd].
    + rewrite undoStack_persist.
      destruct (statuses st !! path); exact Hpush.
    + rewrite syncStatuses_unfold. cbn [snd]. rewrite undoStack_persist.
      destruct (statuses st !! path); exact Hpush.
    + destruct (statuses st !! path); exact Hpush.
  - unfold undo.
    destruct (last (undoStack st)) as [entry|]; [|done].
    pose proof (carriesPatch_removelast _ _ Hst) as Hpop.
    destruct (entryType entry); cbn [fst snd].
    + rewrite undoStack_persist. cbn [statuses undoStack setUndoStack].
      destruct (statuses st !! filePath entry); [case_bool_decide|]; exact Hpop.
    + destruct (forwardPatch entry) as [p|];
        [case_bool_decide; [|destruct (applyForward p w) as [[u|] w1]]|];
        cbn [fst snd]; rewrite ?undoStack_persist; exact Hpop.
Qed.
End StackFacts.

(** ** Instances of the theorems on the example inputs *)

Lemma syncStatuses_reconciles_witness :
  (syncStatuses shiftedFile shiftedBefore).1 !! 2%nat = Some approved.
Proof.
  apply (proj2 (proj2 (proj2 (proj2 (proj2
           (syncStatuses_reconciles shiftedFile shiftedBefore)))))
           2%nat (makeHunk "hunk-B") "hunk-B").
  - reflexivity.
  - reflexivity.
  - discriminate.
  - vm_compute. reflexivity.
Defined.

Lemma computeHunkIds_suffixes_witness :
  exists b ki kj idi idj,
    computeHunkIds "a.txt" twinHunks !! 0%nat = Some idi /\
    computeHunkIds "a.txt" twinHunks !! 2%nat = Some idj /\
    idi = b +:+ "-" +:+ pretty ki /\ idj = b +:+ "-" +:+ pretty kj /\
    1 <= ki < kj /\ idi <> idj.
Proof.
  apply (proj2 (proj2 (computeHunkIds_suffixes "a.txt" twinHunks)) 0%nat 2%nat
           (runHunk 3 3 [{| type := remove; content := "world" |}])
           (runHunk 9 9 [{| type := remove; content := "world" |}])).
  - lia.
  - reflexivity.
  - reflexivity.
  - reflexivity.
Defined.

Lemma computeHunkIds_distinct_witness :
  exists sfx,
    computeHunkIds "a.txt" twinHunks !! 1%nat =
    Some (computeHunkId "a.txt"
            (runHunk 7 6 [{| type := add; content := "other" |}]) +:+ sfx).
Proof.
  apply (proj1 (proj2 (computeHunkIds_distinct "a.txt" twinHunks)) 1%nat).
  reflexivity.
Defined.

Lemma splitHunks_header_start_convention_witness :
  safeHunk deletionHunk /\
  exists sub,
    sub ∈ splitHunks [deletionHunk] /\
    lines sub = [{| type := remove; content := "gone1" |};
                 {| type := remove; content := "gone2" |}] /\
    oldStart sub = 11 /\ newStart sub = 11 /\
    header sub = "@@ -11,2 +10,0 @@" /\
    rawLines sub = ["@@ -11,2 +10,0 @@"; "-gone1"; "-gone2"].
Proof.
  assert (Hsafe : safeHunk deletionHunk).
  { unfold safeHunk, maxExact. simpl. lia. }
  assert (Hin : runHunk 11 11 [{| type := remove; content := "gone1" |};
                               {| type := remove; content := "gone2" |}]
                ∈ splitHunks [deletionHunk]).
  { assert (E : splitHunks [deletionHunk] =
                [runHunk 11 11 [{| type := remove; content := "gone1" |};
                                {| type := remove; content := "gone2" |}];
                 runHunk 14 12 [{| type := add; content := "fresh" |}]])
      by (vm_compute; reflexivity).
    rewrite E. apply list_elem_of_here. }
  split; [exact Hsafe|].
  destruct (splitHunks_header_start_convention deletionHunk _ Hsafe Hin)
    as (pre & post & _ & Hrest).
  cbv zeta in Hrest. destruct Hrest as (Ho & Hn & _ & _ & Hh & Hraw).
  rewrite <- Ho, <- Hn in Hh.
  eexists. split; [exact Hin|]. split; [reflexivity|].
  split; [reflexivity|]. split; [reflexivity|].
  split; [rewrite Hh|rewrite Hraw, Hh]; vm_compute; reflexivity.
Defined.

Lemma undo_reverses_last_action_witness :
  exists st',
    undo shiftedBefore freshMock =
      (Returned (Some ("test.txt", approve_t)), st', freshMock) /\
    statusOf st' "test.txt" "hunk-B" = pending.
Proof.
  destruct (proj1 (proj2 (undo_reverses_last_action shiftedBefore freshMock))
              []
              {| entryType := approve_t; filePath := "test.txt";
                 hunkId := "hunk-B"; forwardPatch := None |})
    as (st' & Hundo & _ & Hpending & _).
  - reflexivity.
  - reflexivity.
  - exists st'. split; [exact Hundo|exact Hpending].
Defined.

Lemma lookup_miss_is_noop_witness :
  approve "unknown.txt" "hunk-A" shiftedBefore = shiftedBefore /\
  reject "test.txt" "nonexistent" shiftedFile shiftedBefore freshMock =
    (Returned None, shiftedBefore, freshMock).
Proof.
  split.
  - apply (proj1 (lookup_miss_is_noop shiftedBefore freshMock)).
    left. vm_compute. reflexivity.
  - apply (proj1 (proj2 (lookup_miss_is_noop shiftedBefore freshMock))).
    intros h Hin. unfold shiftedFile in Hin. cbn [hunks makeFile] in Hin.
    repeat (apply elem_of_cons in Hin as [->|Hin]; [discriminate|]).
    now apply not_elem_of_nil in Hin.
Defined.

(** The stored blob of the example engine: the approved identity only. *)
Example shiftedBefore_storage :
  storage shiftedBefore = Some (Some {["test.txt" := {["hunk-B" := approved]}]}).
Proof. vm_compute. reflexivity. Qed.

(** Content-based identities through the whole pipeline: the change at old
    line 11 is approved; after two lines are inserted earlier in the file
    the same change is at another index and at other line numbers, and is
    still reported as approved. *)
Example identity_stable_under_earlier_insertion :
  match getDiffOf editBefore, getDiffOf editAfter with
  | [before], [after] =>
    match map id (hunks before) with
    | [Some ident] =>
      map newStart (hunks before) = [11] /\
      map newStart (hunks after) = [2; 13] /\
      (syncStatuses after
         (approve "a.txt" ident
            (syncStatuses before (newStateManager None)).2)).1
      = [pending; approved]
    | _ => False
    end
  | _, _ => False
  end.
Proof. vm_compute. repeat split; reflexivity. Qed.

(** ** The assertions of the repository's tests, on the embedding *)

Example fnv1a_test_vectors :
  fnv1a "" = "811c9dc5" /\ fnv1a "a" = "e40c292c" /\ fnv1a "foobar" = "bf9cf968".
Proof. vm_compute. repeat split; reflexivity. Qed.

Example matchHeader_examples :
  matchHeader "@@ -1,3 +1,4 @@" = Some ("1", Some "3", "1", Some "4") /\
  matchHeader "@@ -1 +1 @@ function f() {" = Some ("1", None, "1", None) /\
  matchHeader "@@ -1,3 +1,4@@" = None /\
  matchHeader "@@ -1, +1 @@" = None /\
  matchHeader "@@@ -1 -1 +1 @@@" = None.
Proof. vm_compute. repeat split; reflexivity. Qed.

(** "handles empty input" and "parses binary file indicator" *)
Example parseDiff_empty_and_binary :
  parseDiff "" = Ok [] /\
  parseDiff ("diff --git a/image.png b/image.png" +:+ NL +:+
             "index 1234..5678" +:+ NL +:+
             "Binary files a/image.png and b/image.png differ" +:+ NL)
  = Ok [{| oldPath := ""; newPath := ""; hunks := []; isBinary := true;
           diffHeader := [] |}].
Proof. vm_compute. split; reflexivity. Qed.

(** "splits a hunk with two change groups separated by context" *)
Example splitHunks_two_groups :
  let subs :=
    splitHunks
      [{| oldStart := 16; oldCount := 8; newStart := 16; newCount := 9;
          header := "@@ -16,8 +16,9 @@";
          lines := [{| type := context; content := "line16" |};
                    {| type := context; content := "line17" |};
                    {| type := add; content := "line18new" |};
                    {| type := add; content := "line19new" |};
                    {| type := context; content := "line20" |};
                    {| type := context; content := "line21" |};
                    {| type := remove; content := "line22old" |};
                    {| type := add; content := "line22new" |};
                    {| type := context; content := "line23" |}];
          rawLines := []; id := None |}] in
  map newStart subs = [18; 22] /\ map newCount subs = [2; 1] /\
  map oldCount subs = [0; 1] /\
  map (fun sub => map type (lines sub)) subs = [[add; add]; [remove; add]] /\
  map header subs = ["@@ -17,0 +18,2 @@"; "@@ -20,1 +22,1 @@"].
Proof. vm_compute. repeat split; reflexivity. Qed.

(** "does not split a hunk with only one change group" and the
    specification's end-to-end scenario: one sub-hunk with
    [oldCount = 1], [newCount = 2], [newStart = 2], and a patch with that
    header and the three changed lines. *)
Example splitHunks_one_group :
  exists sub,
    splitHunks [simpleHunk] = [sub] /\
    oldCount sub = 1 /\ newCount sub = 2 /\ newStart sub = 2 /\
    buildPatch simpleFile sub =
      "--- a/a.txt" +:+ NL +:+ "+++ b/a.txt" +:+ NL +:+
      "@@ -2,1 +2,2 @@" +:+ NL +:+ "-world" +:+ NL +:+
      "+beautiful world" +:+ NL +:+ "+today" +:+ NL.
Proof. eexists. split; [vm_compute; reflexivity|]. vm_compute. repeat split; reflexivity. Qed.

(** "undoes a reject by calling applyForward": the patch handed to
    reverse-apply comes back to forward-apply. *)
Example reject_then_undo :
  let file := makeFile [makeHunk "reject-then-undo"] in
  let st := (syncStatuses file (newStateManager None)).2 in
  let '(_, st1, g1) := reject "test.txt" "reject-then-undo" file st freshMock in
  let '(r, _, g2) := undo st1 g1 in
  r = Returned (Some ("test.txt", reject_t)) /\
  appliedReverse g2 = [buildPatch file (makeHunk "reject-then-undo")] /\
  appliedForward g2 = appliedReverse g2.
Proof. vm_compute. repeat split; reflexivity. Qed.

(** * More of the code *)

(** ** More on the hunk splitter *)

(** A run of changed lines on its own is one sub-hunk. *)
Lemma splitLoop_run run o n :
  run <> [] -> Forall isChange run -> splitLoop run o n = [runHunk o n run].
Proof.
  intros Hne Hall. destruct run as [|l run]; [done|].
  rewrite splitLoop_cons.
  assert (Hl : isContext l = false).
  { apply isContext_false_isChange. now inversion Hall. }
  rewrite Hl.
  destruct (collectGroup_spec (l :: run) (newGroup o n))
    as (run' & rest' & Hcg & Hsplit & Hch & Hstop).
  cbv zeta. rewrite Hcg. cbn [fst snd g_oldLine g_newLine newGroup].
  assert (Hrest : rest' = []).
  { destruct rest' as [|x rest']; [done|]. exfalso.
    simpl in Hstop. rewrite Forall_forall in Hall.
    assert (Hx : isChange x).
    { apply Hall. rewrite Hsplit. apply elem_of_app. right. apply list_elem_of_here. }
    apply isContext_false_isChange in Hx. congruence. }
  subst rest'. rewrite app_nil_r in Hsplit. subst run'.
  rewrite splitLoop_nil. f_equal.
Qed.

(** X1.  Splitting is idempotent: the sub-hunks of [splitHunks] carry no
    context line, and splitting them again returns them unchanged. *)
Theorem splitHunks_idempotent (hs : list DiffHunk) :
  splitHunks (splitHunks hs) = splitHunks hs.
Proof.
  assert (Hfix : forall subs,
             Forall (fun s => splitHunk s = [s]) subs -> splitHunks subs = subs).
  { induction 1 as [|s subs Hs _ IH]; [done|].
    unfold splitHunks in *. simpl. now rewrite Hs, IH. }
  apply Hfix. apply Forall_forall. intros sub Hin.
  unfold splitHunks in Hin. apply list_elem_of_In, in_concat in Hin.
  destruct Hin as (subs & Hsubs & Hin). apply in_map_iff in Hsubs.
  destruct Hsubs as (h & <- & _). apply list_elem_of_In in Hin.
  destruct (splitLoop_elem _ _ _ _ Hin) as (pre & run & post & _ & Hne & Hch & ->).
  unfold splitHunk. cbn [lines oldStart newStart runHunk].
  now apply splitLoop_run.
Qed.

(** X2.  A hunk has no sub-hunk exactly when it has no changed line (as
    the hunk of a malformed header, or one of context lines only), and
    never more sub-hunks than changed lines. *)
Theorem splitHunks_none_iff_no_change (hunk : DiffHunk) :
  (splitHunks [hunk] = [] <-> filter isChange (lines hunk) = []) /\
  (length (splitHunks [hunk]) <= length (filter isChange (lines hunk)))%nat.
Proof.
  rewrite splitHunks_singleton. unfold splitHunk.
  pose proof (splitLoop_maximalRuns (lines hunk) (oldStart hunk) (newStart hunk)) as Hruns.
  pose proof (maximalRuns_concat _ _ Hruns) as Hcat.
  pose proof (maximalRuns_nonempty _ _ Hruns) as Hne.
  rewrite <- Hcat.
  set (subs := splitLoop (lines hunk) (oldStart hunk) (newStart hunk)) in *.
  clearbody subs. clear Hruns Hcat.
  induction subs as [|s subs IH]; [split; [done|simpl; lia]|].
  simpl in *. apply Forall_cons in Hne as [[Hs _] Hne].
  destruct (IH Hne) as [_ Hlen]. rewrite length_app.
  split; [|destruct (lines s); [done|simpl; lia]].
  split; [done|]. intros Happ. apply app_eq_nil in Happ as [? _]. done.
Qed.

(** X3.  The counts of the sub-hunks add up to the removed and to the
    added lines of the hunk. *)
Theorem splitHunks_counts_add_up (hunk : DiffHunk) :
  sumZ (map oldCount (splitHunks [hunk])) =
    Z.of_nat (length (filter (fun l => type l = remove) (lines hunk))) /\
  sumZ (map newCount (splitHunks [hunk])) =
    Z.of_nat (length (filter (fun l => type l = add) (lines hunk))).
Proof.
  rewrite splitHunks_singleton. unfold splitHunk.
  apply (splitLoop_iterations (fun rest _ _ subs =>
    sumZ (map oldCount subs) =
      Z.of_nat (length (filter (fun l => type l = remove) rest)) /\
    sumZ (map newCount subs) =
      Z.of_nat (length (filter (fun l => type l = add) rest)))).
  - done.
  - intros l rest o n subs Hl [IHo IHn]. rewrite !filter_cons.
    unfold isContext in Hl. destruct (type l) eqn:E; try discriminate.
    repeat case_decide; try congruence. done.
  - intros run rest o n subs _ Hch _ [IHo IHn].
    rewrite !filter_app, !length_app, !Nat2Z.inj_add. cbn [map sumZ foldr].
    fold (sumZ (map oldCount subs)). fold (sumZ (map newCount subs)).
    rewrite IHo, IHn. cbn [oldCount newCount runHunk].
    now rewrite (oldAdvance_run _ Hch), (newAdvance_run _ Hch).
Qed.

Lemma advance_nonneg ls : 0 <= oldAdvance ls /\ 0 <= newAdvance ls.
Proof. unfold oldAdvance, newAdvance. lia. Qed.

(** X4.  The sub-hunks of a hunk whose line numbers the code counts
    exactly come out in the order of their position: none starts before
    the hunk does, and each one ends strictly before the next one starts,
    on the old and on the new side. *)
Theorem splitHunks_ordered (hunk : DiffHunk) :
  safeHunk hunk ->
  Forall (fun s => oldStart hunk <= oldStart s /\ newStart hunk <= newStart s)
         (splitHunks [hunk]) /\
  wellSeparated (splitHunks [hunk]).
Proof.
  intros _. rewrite splitHunks_singleton. unfold splitHunk.
  cut (Forall (fun s => oldStart hunk <= oldStart s /\ newStart hunk <= newStart s)
         (splitLoop (lines hunk) (oldStart hunk) (newStart hunk)) /\
       (startsWithContext (lines hunk) ->
        Forall (fun s => oldStart hunk < oldStart s /\ newStart hunk < newStart s)
         (splitLoop (lines hunk) (oldStart hunk) (newStart hunk))) /\
       wellSeparated (splitLoop (lines hunk) (oldStart hunk) (newStart hunk))).
  { tauto. }
  apply (splitLoop_iterations (fun rest o n subs =>
    Forall (fun s => o <= oldStart s /\ n <= newStart s) subs /\
    (startsWithContext rest ->
     Forall (fun s => o < oldStart s /\ n < newStart s) subs) /\
    wellSeparated subs)).
  - intros o n. repeat split; constructor.
  - intros l rest o n subs Hl (Hge & _ & Hsep).
    assert (Hgt : Forall (fun s => o < oldStart s /\ n < newStart s) subs).
    { eapply Forall_impl; [exact Hge|]. simpl. intros s. lia. }
    split; [|split; [done|done]].
    eapply Forall_impl; [exact Hgt|]. simpl. intros s. lia.
  - intros run rest o n subs Hne Hch Hstop (Hge & Hgt & Hsep).
    specialize (Hgt Hstop).
    destruct (advance_nonneg run) as [Ho Hn].
    split; [|split].
    + constructor; [cbn; lia|].
      eapply Forall_impl; [exact Hge|]. simpl. intros s. lia.
    + intros Hctx. exfalso. destruct run as [|x run]; [done|].
      simpl in Hctx. apply Forall_cons in Hch as [Hx _].
      apply isContext_false_isChange in Hx. congruence.
    + destruct subs as [|s2 subs]; [done|].
      apply Forall_cons in Hgt as [[? ?] _].
      cbn [wellSeparated]. cbn [oldStart oldCount newStart newCount runHunk].
      done.
Qed.

Lemma splitHunks_ordered_witness :
  safeHunk deletionHunk /\
  Forall (fun s => 10 <= oldStart s /\ 10 <= newStart s)
         (splitHunks [deletionHunk]) /\
  wellSeparated (splitHunks [deletionHunk]).
Proof.
  assert (Hsafe : safeHunk deletionHunk).
  { unfold safeHunk, maxExact. simpl. lia. }
  split; [exact Hsafe|]. exact (splitHunks_ordered deletionHunk Hsafe).
Defined.

(** ** Decimal numbers in hunk headers *)

Lemma pretty_N_go_app x s : pretty_N_go x s = pretty_N_go x "" +:+ s.
Proof.
  revert s. induction (N.lt_wf_0 x) as [x _ IH]; intros s.
  destruct (decide (x = 0)%N) as [->|Hx]; [now rewrite !pretty_N_go_0|].
  rewrite !(pretty_N_go_step x) by lia.
  rewrite (IH (x `div` 10)%N) by (apply N.div_lt; lia).
  rewrite (IH (x `div` 10)%N ltac:(apply N.div_lt; lia) (String _ "")).
  now rewrite string_app_assoc.
Qed.

Lemma pretty_N_go_snoc x :
  (0 < x)%N ->
  pretty_N_go x "" =
  pretty_N_go (x `div` 10) "" +:+ String (pretty_N_char (x `mod` 10)) "".
Proof. intros Hx. now rewrite pretty_N_go_step, pretty_N_go_app. Qed.

Lemma isDigit_pretty_N_char y : isDigit (pretty_N_char y) = true.
Proof. unfold pretty_N_char. repeat case_match; reflexivity. Qed.

Lemma value_pretty_N_char y :
  (y < 10)%N -> Z.of_nat (nat_of_ascii (pretty_N_char y)) - 48 = Z.of_N y.
Proof.
  intros Hy.
  assert (y = 0 \/ y = 1 \/ y = 2 \/ y = 3 \/ y = 4 \/ y = 5 \/ y = 6 \/
          y = 7 \/ y = 8 \/ y = 9)%N as Hcases by lia.
  repeat (destruct Hcases as [->|Hcases]; [reflexivity|]).
  now subst.
Qed.

Lemma allDigits_app a b : allDigits (a +:+ b) = allDigits a && allDigits b.
Proof.
  induction a as [|c a IH]; [done|]. rewrite append_cons. simpl.
  now rewrite IH, andb_assoc.
Qed.

Lemma list_ascii_app a b :
  list_ascii_of_string (a +:+ b) = list_ascii_of_string a ++ list_ascii_of_string b.
Proof. induction a as [|c a IH]; [done|]. rewrite append_cons. simpl. now rewrite IH. Qed.

Lemma parseInt_snoc a c :
  parseInt (a +:+ String c "") =
  10 * parseInt a + (Z.of_nat (nat_of_ascii c) - 48).
Proof. unfold parseInt. now rewrite list_ascii_app, fold_left_app. Qed.

(** The digits [pretty] prints for a natural number: digits only, and
    [parseInt] reads the number back. *)
Lemma pretty_N_go_digits x :
  allDigits (pretty_N_go x "") = true /\
  parseInt (pretty_N_go x "") = Z.of_N x /\
  ((0 < x)%N -> pretty_N_go x "" <> "").
Proof.
  induction (N.lt_wf_0 x) as [x _ IH].
  destruct (decide (x = 0)%N) as [->|Hx].
  { rewrite pretty_N_go_0. repeat split. lia. }
  rewrite pretty_N_go_snoc by lia.
  destruct (IH (x `div` 10)%N) as (Hd & Hv & _); [apply N.div_lt; lia|].
  split; [|split].
  - rewrite allDigits_app, Hd. simpl. now rewrite isDigit_pretty_N_char.
  - rewrite parseInt_snoc, Hv, value_pretty_N_char by (apply N.mod_lt; lia).
    rewrite (N.div_mod x 10) at 3 by lia. lia.
  - intros _ Heq. apply (f_equal String.length) in Heq.
    rewrite string_length_app in Heq. simpl in Heq. lia.
Qed.

Lemma pretty_nonneg (n : Z) :
  0 <= n ->
  allDigits (pretty n) = true /\ parseInt (pretty n) = n /\ pretty n <> "".
Proof.
  intros Hn. destruct n as [|p|p]; [done| |lia].
  change (pretty (Z.pos p)) with (pretty (N.pos p)).
  unfold pretty, pretty_N. rewrite decide_False by done.
  destruct (pretty_N_go_digits (N.pos p)) as (Hd & Hv & Hne).
  split; [done|]. split; [done|]. apply Hne. lia.
Qed.

Lemma allDigits_noNL s : allDigits s = true -> noNL s.
Proof.
  unfold noNL. induction s as [|c s IH]; [done|]. simpl.
  intros [Hc Hs]%andb_true_iff. rewrite (IH Hs), orb_false_r.
  destruct (Ascii.eqb_spec c (ascii_of_nat 10)) as [->|]; [discriminate|done].
Qed.

Lemma pretty_noNL (n : Z) : noNL (pretty n).
Proof.
  destruct n as [|p|p]; [done| |].
  - apply allDigits_noNL, (pretty_nonneg (Z.pos p)). lia.
  - change (pretty (Z.neg p)) with ("-" +:+ pretty (Z.pos p)).
    apply noNL_app. split; [done|].
    apply allDigits_noNL, (pretty_nonneg (Z.pos p)). lia.
Qed.

Lemma spanDigits_app d r :
  allDigits d = true -> noDigitHead r -> spanDigits (d +:+ r) = (d, r).
Proof.
  intros Hd Hr. induction d as [|c d IH].
  - destruct r as [|c r]; [done|]. simpl in *. now rewrite Hr.
  - rewrite append_cons. simpl in *.
    apply andb_true_iff in Hd as [Hc Hd]. now rewrite Hc, (IH Hd).
Qed.

Lemma digits1_pretty (n : Z) r :
  0 <= n -> noDigitHead r -> digits1 (pretty n +:+ r) = Some (pretty n, r).
Proof.
  intros Hn Hr. destruct (pretty_nonneg n Hn) as (Hd & _ & Hne).
  unfold digits1. rewrite (spanDigits_app _ _ Hd Hr).
  now destruct (pretty n).
Qed.

Lemma startsWith_app p x : startsWith (p +:+ x) p = true.
Proof.
  unfold startsWith. induction p as [|c p IH]; [now destruct x|].
  rewrite append_cons. cbn [String.prefix].
  now destruct (ascii_dec c c).
Qed.

Lemma slice_app p x : slice (String.length p) (p +:+ x) = x.
Proof. induction p as [|c p IH]; [done|]. rewrite append_cons. exact IH. Qed.

Lemma expect_app p x : expect p (p +:+ x) = Some x.
Proof. unfold expect. now rewrite startsWith_app, slice_app. Qed.

Lemma optCount_countText (count : option Z) tail :
  match count with Some c => 0 <= c | None => True end ->
  noDigitHead tail -> expect "," tail = None ->
  optCount (countText count tail) = (pretty <$> count, tail).
Proof.
  intros Hc Htail Hcomma. unfold optCount, countText.
  destruct count as [c|]; simpl.
  - now rewrite expect_app, digits1_pretty.
  - now rewrite Hcomma.
Qed.

(** The header pattern on a header as [git diff] prints it. *)
Lemma matchHeader_headerText a b c d rest :
  0 <= a -> 0 <= c ->
  match b with Some x => 0 <= x | None => True end ->
  match d with Some x => 0 <= x | None => True end ->
  matchHeader (headerText a b c d rest) =
  Some (pretty a, pretty <$> b, pretty c, pretty <$> d).
Proof.
  intros Ha Hc Hb Hd. unfold matchHeader, headerText.
  rewrite expect_app. cbn [mbind option_bind].
  rewrite digits1_pretty; [|done|destruct b; reflexivity].
  cbn [mbind option_bind].
  rewrite optCount_countText; [|done|reflexivity|reflexivity].
  rewrite expect_app. cbn [mbind option_bind].
  rewrite digits1_pretty; [|done|destruct d; reflexivity].
  cbn [mbind option_bind].
  rewrite optCount_countText; [|done|reflexivity|reflexivity].
  rewrite expect_app. reflexivity.
Qed.

Lemma formatHeader_headerText a b c d :
  formatHeader a b c d = headerText a (Some b) c (Some d) "".
Proof. reflexivity. Qed.

(** ** More on the parser *)



(** X5.  [parseHunk] on a header as [git diff] prints it, with numbers
    from 0 to [maxExact], with or without counts and with any text after
    the closing [@@]: the hunk gets the numbers of the header, a count
    that is left out counting as 1; the header line is kept as it is and
    the parser moves on by at least one line, within the input. *)
Theorem parseHunk_reads_header (lines_ : list string) (i : nat)
  (a : Z) (b : option Z) (c : Z) (d : option Z) (rest : string) :
  0 <= a <= maxExact -> 0 <= c <= maxExact ->
  match b with Some x => 0 <= x <= maxExact | None => True end ->
  match d with Some x => 0 <= x <= maxExact | None => True end ->
  lines_ !! i = Some (headerText a b c d rest) ->
  exists hunk j,
    parseHunk lines_ i = Ok (hunk, j) /\
    oldStart hunk = a /\ oldCount hunk = countOr1 b /\
    newStart hunk = c /\ newCount hunk = countOr1 d /\
    header hunk = headerText a b c d rest /\
    (i < j <= length lines_)%nat.
Proof.
  intros [Ha _] [Hc _] Hb' Hd' Hi.
  assert (Hb : match b with Some x => 0 <= x | None => True end)
    by (destruct b; [apply Hb'|done]).
  assert (Hd : match d with Some x => 0 <= x | None => True end)
    by (destruct d; [apply Hd'|done]).
  destruct (parseHunk_ok lines_ i _ Hi) as (body & Hparse & _ & _ & Hlen).
  exists (parsedHunk (headerText a b c d rest) body), (i + 1 + length body)%nat.
  split; [exact Hparse|].
  unfold parsedHunk. rewrite matchHeader_headerText by done.
  cbn [oldStart oldCount newStart newCount header].
  destruct (pretty_nonneg a Ha) as (_ & -> & _).
  destruct (pretty_nonneg c Hc) as (_ & -> & _).
  repeat split; try lia.
  - destruct b as [x|]; [|done]. simpl. now destruct (pretty_nonneg x Hb) as (_ & -> & _).
  - destruct d as [x|]; [|done]. simpl. now destruct (pretty_nonneg x Hd) as (_ & -> & _).
Qed.

Lemma parseHunk_reads_header_witness :
  exists hunk j,
    parseHunk ["@@ -3 +4,2 @@ fn main()"; "-a"; "+b"; "+c"] 0 = Ok (hunk, j) /\
    oldStart hunk = 3 /\ oldCount hunk = 1 /\
    newStart hunk = 4 /\ newCount hunk = 2 /\
    header hunk = "@@ -3 +4,2 @@ fn main()" /\
    (0 < j <= 4)%nat.
Proof.
  apply (parseHunk_reads_header
           ["@@ -3 +4,2 @@ fn main()"; "-a"; "+b"; "+c"] 0 3 None 4 (Some 2)
           " fn main()");
    [unfold maxExact; lia|unfold maxExact; lia|exact I
    |unfold maxExact; simpl; lia|reflexivity].
Defined.

(** ** Patches of sub-hunks *)

Lemma classify_rawOf run : Forall isChange run -> classify (map rawOf run) = run.
Proof.
  unfold classify. induction 1 as [|l run Hl _ IH]; [done|].
  change (omap classifyLine (map rawOf (l :: run)))
    with (match classifyLine (rawOf l) with
          | Some y => y :: omap classifyLine (map rawOf run)
          | None => omap classifyLine (map rawOf run)
          end).
  rewrite IH.
  destruct l as [[] c]; [now destruct c|now destruct c|].
  unfold isChange in Hl. simpl in Hl. destruct Hl; discriminate.
Qed.

Lemma isBodyLine_rawOf l : isBodyLine (rawOf l) = true.
Proof. destruct l as [[] [|a c]]; reflexivity. Qed.

Lemma rawOf_noNL l : noNL (content l) -> noNL (rawOf l).
Proof.
  intros Hc. destruct l as [[] c]; unfold rawOf; simpl in *;
    apply noNL_app; (split; [reflexivity|done]).
Qed.

Lemma formatHeader_noNL a b c d : noNL (formatHeader a b c d).
Proof.
  unfold formatHeader.
  repeat (apply noNL_app; split); try apply pretty_noNL; reflexivity.
Qed.

(** The sub-hunks of a hunk, with what is known of their position. *)
Lemma splitHunk_elem hunk sub :
  sub ∈ splitHunk hunk ->
  exists o n run,
    sub = runHunk o n run /\ oldStart hunk <= o /\ newStart hunk <= n /\
    run <> [] /\ Forall isChange run /\ run ⊆ lines hunk.
Proof.
  unfold splitHunk. intros Hin.
  destruct (splitLoop_elem _ _ _ _ Hin) as (pre & run & post & Hl & Hne & Hch & ->).
  destruct (advance_nonneg pre) as [Ho Hn].
  eexists _, _, run. split; [reflexivity|].
  repeat split; try done; try lia.
  rewrite Hl. set_solver.
Qed.

(** X6.  The patch of a sub-hunk of a hunk that starts at line 1 or
    later on both sides and whose line numbers the code counts exactly,
    put after a [diff --git ] line, parses to one file with one hunk that
    has the changed lines, the raw lines and the counts of the sub-hunk.
    Its start lines are the numbers the header shows: on a side whose
    count is 0 that is one less than the start the sub-hunk records. *)
Theorem subhunk_patch_reparses (file : DiffFile) (hunk sub : DiffHunk)
  (d : string) :
  safeHunk hunk ->
  1 <= oldStart hunk -> 1 <= newStart hunk ->
  Forall (fun l => noNL (content l)) (lines hunk) ->
  noNL (oldPath file) -> noNL (newPath file) ->
  startsWith d "diff --git " = true -> noNL d ->
  sub ∈ splitHunks [hunk] ->
  exists file' sub',
    parseDiff (d +:+ NL +:+ buildPatch file sub) = Ok [file'] /\
    hunks file' = [sub'] /\
    lines sub' = lines sub /\ rawLines sub' = rawLines sub /\
    oldCount sub' = oldCount sub /\ newCount sub' = newCount sub /\
    oldStart sub' = (if oldCount sub =? 0 then oldStart sub - 1 else oldStart sub) /\
    newStart sub' = (if newCount sub =? 0 then newStart sub - 1 else newStart sub).
Proof.
  intros _ Ho Hn Hcontent Hold Hnew Hd Hdnl Hin.
  rewrite splitHunks_singleton in Hin.
  destruct (splitHunk_elem _ _ Hin) as (o & n & run & -> & Hoo & Hnn & Hne & Hch & Hsub).
  destruct (advance_nonneg run) as [Hoa Hna].
  set (a := if oldAdvance run =? 0 then o - 1 else o).
  set (c := if newAdvance run =? 0 then n - 1 else n).
  set (hdr := formatHeader a (oldAdvance run) c (newAdvance run)).
  assert (Ha : 0 <= a) by (subst a; destruct (oldAdvance run =? 0); lia).
  assert (Hc : 0 <= c) by (subst c; destruct (newAdvance run =? 0); lia).
  assert (Hm : matchHeader hdr =
               Some (pretty a, Some (pretty (oldAdvance run)),
                     pretty c, Some (pretty (newAdvance run)))).
  { subst hdr. rewrite formatHeader_headerText.
    now rewrite matchHeader_headerText. }
  assert (Hraw : rawLines (runHunk o n run) = hdr :: map rawOf run) by reflexivity.
  assert (Hbp : split (buildPatch file (runHunk o n run)) =
                ("--- a/" +:+ orElse (oldPath file) (newPath file)) ::
                ("+++ b/" +:+ orElse (newPath file) (oldPath file)) ::
                hdr :: map rawOf run ++ [""]).
  { unfold buildPatch. rewrite Hraw.
    rewrite split_join; [reflexivity|done|].
    repeat constructor.
    - apply noNL_app. split; [reflexivity|]. now apply orElse_noNL.
    - apply noNL_app. split; [reflexivity|]. now apply orElse_noNL.
    - apply formatHeader_noNL.
    - apply Forall_map, Forall_forall. intros l Hl. apply rawOf_noNL.
      rewrite Forall_forall in Hcontent. apply Hcontent, Hsub, Hl. }
  eexists _, (parsedHunk hdr (map rawOf run)).
  split.
  - unfold parseDiff. rewrite (split_line d _ Hdnl), Hbp.
    apply parseDiffLoop_patch; [done|reflexivity| |now rewrite Hm].
    apply Forall_map, Forall_forall. intros l _. apply isBodyLine_rawOf.
  - split; [reflexivity|].
    unfold parsedHunk. rewrite Hm.
    cbn [lines rawLines oldCount newCount oldStart newStart runHunk].
    rewrite (classify_rawOf _ Hch).
    destruct (pretty_nonneg a Ha) as (_ & -> & _).
    destruct (pretty_nonneg c Hc) as (_ & -> & _).
    destruct (pretty_nonneg _ Hoa) as (_ & -> & _).
    destruct (pretty_nonneg _ Hna) as (_ & -> & _).
    repeat split.
Qed.

Lemma subhunk_patch_reparses_witness :
  exists file' sub',
    parseDiff ("diff --git a/test.txt b/test.txt" +:+ NL +:+
               buildPatch (makeFile [])
                 (runHunk 14 12 [{| type := add; content := "fresh" |}]))
      = Ok [file'] /\
    hunks file' = [sub'] /\
    lines sub' = [{| type := add; content := "fresh" |}] /\
    rawLines sub' = ["@@ -13,0 +12,1 @@"; "+fresh"] /\
    oldCount sub' = 0 /\ newCount sub' = 1 /\
    oldStart sub' = 13 /\ newStart sub' = 12.
Proof.
  apply (subhunk_patch_reparses (makeFile []) deletionHunk
           (runHunk 14 12 [{| type := add; content := "fresh" |}])
           "diff --git a/test.txt b/test.txt").
  - unfold safeHunk, maxExact. simpl. lia.
  - simpl; lia.
  - simpl; lia.
  - repeat constructor.
  - reflexivity.
  - reflexivity.
  - reflexivity.
  - reflexivity.
  - vm_compute. apply list_elem_of_further, list_elem_of_here.
Defined.



(** *** Where the loops stop *)

Section Positions.
Variable lines_ : list string.

Lemma noStartBetween_refl i : noStartBetween lines_ i i.
Proof. intros k line Hk. lia. Qed.

Lemma noStartBetween_trans i j k :
  noStartBetween lines_ i j -> noStartBetween lines_ j k -> noStartBetween lines_ i k.
Proof.
  intros H1 H2 m line Hm Hl.
  destruct (decide (m < j)%nat); [apply (H1 m)|apply (H2 m)]; auto; lia.
Qed.

Lemma noStartBetween_step i line :
  lines_ !! i = Some line -> startsWith line "diff --git " = false ->
  noStartBetween lines_ i (i + 1).
Proof.
  intros Hi Hs k l Hk Hl. replace k with i in Hl by lia. congruence.
Qed.

Lemma fileStarts_drop i line :
  lines_ !! i = Some line ->
  fileStarts (drop i lines_) =
  ((if startsWith line "diff --git " then 1 else 0) +
   fileStarts (drop (i + 1) lines_))%nat.
Proof.
  intros Hi. unfold fileStarts.
  rewrite (drop_S _ _ _ Hi), filter_cons, Nat.add_1_r.
  destruct (startsWith line "diff --git "); case_decide; try done.
Qed.

Lemma fileStarts_skip i j :
  (i <= j)%nat -> noStartBetween lines_ i j ->
  fileStarts (drop i lines_) = fileStarts (drop j lines_).
Proof.
  intros Hij. induction Hij as [|j Hij IH]; [done|]. intros Hno.
  rewrite IH by (intros k line Hk; apply Hno; lia).
  destruct (lines_ !! j) as [line|] eqn:Hj.
  - rewrite (fileStarts_drop _ _ Hj), (Hno j line) by (done || lia).
    now rewrite Nat.add_1_r.
  - apply lookup_ge_None in Hj. now rewrite !drop_ge by lia.
Qed.

Lemma parseHunkLoop_between fuel i hunk :
  (length lines_ - i < fuel)%nat ->
  exists hunk' j,
    parseHunkLoop lines_ fuel i hunk = Ok (hunk', j) /\
    (i <= j)%nat /\ ((i <= length lines_)%nat -> (j <= length lines_)%nat) /\
    noStartBetween lines_ i j.
Proof.
  revert i hunk. induction fuel as [|fuel IH]; intros i hunk Hfuel; [lia|].
  destruct (lines_ !! i) as [line|] eqn:Hi.
  - rewrite (parseHunkLoop_step _ _ _ _ _ Hi).
    pose proof (lookup_lt_Some _ _ _ Hi) as Hlt.
    destruct (isBodyLine line) eqn:Hb; simpl.
    2: { exists hunk, i. split; [done|]. split; [lia|]. split; [lia|].
         apply noStartBetween_refl. }
    destruct (negb _).
    2: { exists hunk, i. split; [done|]. split; [lia|]. split; [lia|].
         apply noStartBetween_refl. }
    edestruct (IH (i + 1)%nat) as (hunk' & j & -> & Hj & Hlen & Hno); [lia|].
    exists hunk', j. split; [done|]. split; [lia|]. split; [lia|].
    eapply noStartBetween_trans; [|exact Hno].
    eapply noStartBetween_step; [exact Hi|].
    now apply isBodyLine_not_marker.
  - apply lookup_ge_None in Hi. rewrite parseHunkLoop_stop by done.
    exists hunk, i. split; [done|]. split; [lia|]. split; [lia|].
    apply noStartBetween_refl.
Qed.

Lemma parseHunk_between i line :
  lines_ !! i = Some line -> startsWith line "@@" = true ->
  exists hunk j,
    parseHunk lines_ i = Ok (hunk, j) /\
    (i < j <= length lines_)%nat /\ noStartBetween lines_ i j.
Proof.
  intros Hi Hat. pose proof (lookup_lt_Some _ _ _ Hi) as Hlt.
  pose proof (noStartBetween_step _ _ Hi (header_not_file_start _ Hat)) as Hstep.
  unfold parseHunk. rewrite (lineAt_Some _ _ _ Hi). cbn [mbind result_bind].
  destruct (matchHeader line) as [[[[m1 m2] m3] m4]|].
  - edestruct (parseHunkLoop_between (budget lines_) (i + 1)%nat)
      as (hunk' & j & -> & Hj & Hlen & Hno); [unfold budget; lia|].
    exists hunk', j. split; [done|]. split; [lia|].
    eapply noStartBetween_trans; [exact Hstep|exact Hno].
  - do 2 eexists. split; [reflexivity|]. split; [lia|exact Hstep].
Qed.

Lemma parseHunksLoop_between fuel i hs :
  (length lines_ - i < fuel)%nat ->
  exists hs' j,
    parseHunksLoop lines_ fuel i hs = Ok (hs', j) /\
    (i <= j)%nat /\ ((i <= length lines_)%nat -> (j <= length lines_)%nat) /\
    noStartBetween lines_ i j.
Proof.
  revert i hs. induction fuel as [|fuel IH]; intros i hs Hfuel; [lia|].
  cbn [parseHunksLoop].
  destruct (lines_ !! i) as [line|] eqn:Hi.
  - rewrite (ltb_lookup _ _ _ Hi), (lineAt_Some _ _ _ Hi). cbn [mbind result_bind].
    pose proof (lookup_lt_Some _ _ _ Hi) as Hlt.
    destruct (startsWith line "diff --git ") eqn:Hd; cbn [negb].
    { exists hs, i. split; [done|]. split; [lia|]. split; [lia|].
      apply noStartBetween_refl. }
    destruct (startsWith line "@@") eqn:Hh.
    + destruct (parseHunk_between i line Hi Hh) as (hunk & j & -> & Hj & Hno).
      cbn [mbind result_bind].
      destruct (IH j (hs ++ [hunk])) as (hs' & j' & -> & Hj' & Hlen & Hno'); [lia|].
      exists hs', j'. split; [done|]. split; [lia|]. split; [lia|].
      eapply noStartBetween_trans; [exact Hno|exact Hno'].
    + destruct (IH (i + 1)%nat hs) as (hs' & j' & -> & Hj' & Hlen & Hno'); [lia|].
      exists hs', j'. split; [done|]. split; [lia|]. split; [lia|].
      eapply noStartBetween_trans; [|exact Hno'].
      eapply noStartBetween_step; [exact Hi|exact Hd].
  - apply lookup_ge_None in Hi. rewrite (proj2 (Nat.ltb_ge _ _) Hi).
    exists hs, i. split; [done|]. split; [lia|]. split; [lia|].
    apply noStartBetween_refl.
Qed.

Lemma skipExtendedHeaders_between fuel i :
  (length lines_ - i < fuel)%nat ->
  exists j, skipExtendedHeaders lines_ fuel i = Ok j /\
    (i <= j)%nat /\ ((i <= length lines_)%nat -> (j <= length lines_)%nat) /\
    noStartBetween lines_ i j.
Proof.
  revert i. induction fuel as [|fuel IH]; intros i Hfuel; [lia|].
  cbn [skipExtendedHeaders].
  destruct (lines_ !! i) as [line|] eqn:Hi.
  - rewrite (ltb_lookup _ _ _ Hi), (lineAt_Some _ _ _ Hi). cbn [mbind result_bind].
    pose proof (lookup_lt_Some _ _ _ Hi) as Hlt.
    destruct (startsWith line "diff --git ") eqn:Hd; cbn [negb andb].
    { exists i. split; [done|]. split; [lia|]. split; [lia|].
      apply noStartBetween_refl. }
    destruct (_ && _).
    + destruct (IH (i + 1)%nat) as (j & -> & Hj & Hlen & Hno); [lia|].
      exists j. split; [done|]. split; [lia|]. split; [lia|].
      eapply noStartBetween_trans; [|exact Hno].
      eapply noStartBetween_step; [exact Hi|exact Hd].
    + exists i. split; [done|]. split; [lia|]. split; [lia|].
      apply noStartBetween_refl.
  - apply lookup_ge_None in Hi. rewrite (proj2 (Nat.ltb_ge _ _) Hi).
    exists i. split; [done|]. split; [lia|]. split; [lia|].
    apply noStartBetween_refl.
Qed.

Lemma startsWith_not_file_start line p c p' :
  p = String c p' -> c <> "d"%char ->
  startsWith line p = true -> startsWith line "diff --git " = false.
Proof.
  intros -> Hc. unfold startsWith. destruct line as [|a s]; [done|].
  cbn [String.prefix].
  destruct (ascii_dec c a); [subst a|discriminate]. intros _.
  destruct (ascii_dec "d" c); [congruence|done].
Qed.

Lemma parseOldPath_between i :
  exists p hdr j,
    parseOldPath lines_ i = Ok (p, hdr, j) /\
    (i <= j)%nat /\ ((i <= length lines_)%nat -> (j <= length lines_)%nat) /\
    noStartBetween lines_ i j /\ (length hdr <= 1)%nat.
Proof.
  unfold parseOldPath.
  destruct (lineStartsWith_ok lines_ i "---") as ([] & -> & Hb); cbn [mbind result_bind].
  - destruct (Hb eq_refl) as (line & Hi & Hs).
    pose proof (lookup_lt_Some _ _ _ Hi) as Hlt.
    rewrite (lineAt_Some _ _ _ Hi). cbn [mbind result_bind].
    do 3 eexists. split; [reflexivity|]. split; [lia|]. split; [lia|].
    split; [|simpl; lia].
    eapply noStartBetween_step; [exact Hi|].
    eapply startsWith_not_file_start; [reflexivity| |exact Hs]. done.
  - do 3 eexists. split; [reflexivity|]. split; [lia|]. split; [lia|].
    split; [apply noStartBetween_refl|simpl; lia].
Qed.

Lemma parseNewPath_between hdr i :
  exists p hdr' j,
    parseNewPath lines_ hdr i = Ok (p, hdr', j) /\
    (i <= j)%nat /\ ((i <= length lines_)%nat -> (j <= length lines_)%nat) /\
    noStartBetween lines_ i j /\ (length hdr' <= length hdr + 1)%nat.
Proof.
  unfold parseNewPath.
  destruct (lineStartsWith_ok lines_ i "+++") as ([] & -> & Hb); cbn [mbind result_bind].
  - destruct (Hb eq_refl) as (line & Hi & Hs).
    pose proof (lookup_lt_Some _ _ _ Hi) as Hlt.
    rewrite (lineAt_Some _ _ _ Hi). cbn [mbind result_bind].
    do 3 eexists. split; [reflexivity|]. split; [lia|]. split; [lia|].
    split; [|rewrite length_app; simpl; lia].
    eapply noStartBetween_step; [exact Hi|].
    eapply startsWith_not_file_start; [reflexivity| |exact Hs]. done.
  - do 3 eexists. split; [reflexivity|]. split; [lia|]. split; [lia|].
    split; [apply noStartBetween_refl|lia].
Qed.

(** The main loop makes one file of every line that starts a file, and
    every file it makes has the shape [fileShape]. *)
Lemma parseDiffLoop_count fuel i files :
  (length lines_ - i < fuel)%nat ->
  exists files',
    parseDiffLoop lines_ fuel i files = Ok (files ++ files') /\
    length files' = fileStarts (drop i lines_) /\
    Forall fileShape files'.
Proof.
  revert i files. induction fuel as [|fuel IH]; intros i files Hfuel; [lia|].
  destruct (lines_ !! i) as [line|] eqn:Hi.
  2: { apply lookup_ge_None in Hi. rewrite parseDiffLoop_stop by done.
       exists []. rewrite app_nil_r, drop_ge by lia. repeat split. constructor. }
  pose proof (lookup_lt_Some _ _ _ Hi) as Hlt.
  cbn [parseDiffLoop].
  rewrite (ltb_lookup _ _ _ Hi), (lineAt_Some _ _ _ Hi). cbn [mbind result_bind].
  rewrite (fileStarts_drop _ _ Hi).
  destruct (startsWith line "diff --git ") eqn:Hd; cbn [negb].
  2: { destruct (IH (i + 1)%nat files) as (files' & -> & Hlen & Hshape); [lia|].
       exists files'. repeat split; done. }
  destruct (skipExtendedHeaders_between (budget lines_) (i + 1)%nat)
    as (j1 & -> & Hj1 & Hl1 & Hno1); [unfold budget; lia|].
  cbn [mbind result_bind].
  destruct (lineStartsWith_ok lines_ j1 "Binary") as ([] & -> & Hb);
    cbn [mbind result_bind].
  - destruct (Hb eq_refl) as (bline & Hbi & Hbs).
    pose proof (lookup_lt_Some _ _ _ Hbi) as Hblt.
    edestruct (IH (j1 + 1)%nat) as (files' & -> & Hlen & Hshape); [lia|].
    eexists (_ :: files'). split; [now rewrite <- app_assoc|].
    split.
    + simpl. rewrite Hlen. f_equal. symmetry. apply fileStarts_skip; [lia|].
      eapply noStartBetween_trans; [exact Hno1|].
      eapply noStartBetween_step; [exact Hbi|].
      eapply startsWith_not_file_start; [reflexivity| |exact Hbs]. done.
    + constructor; [|done]. split; [done|simpl; lia].
  - destruct (parseOldPath_between j1) as (oldP & hdr & j2 & -> & Hj2 & Hl2 & Hno2 & Hh2).
    cbn [mbind result_bind].
    destruct (parseNewPath_between hdr j2) as (newP & hdr' & j3 & -> & Hj3 & Hl3 & Hno3 & Hh3).
    cbn [mbind result_bind].
    destruct (parseHunksLoop_between (budget lines_) j3 [])
      as (hs & j4 & -> & Hj4 & Hl4 & Hno4); [unfold budget; lia|].
    cbn [mbind result_bind].
    edestruct (IH j4) as (files' & -> & Hlen & Hshape); [lia|].
    eexists (_ :: files'). split; [now rewrite <- app_assoc|].
    split.
    + simpl. rewrite Hlen. f_equal. symmetry. apply fileStarts_skip; [lia|].
      eauto using noStartBetween_trans.
    + constructor; [|done]. split; [discriminate|simpl; lia].
Qed.
End Positions.

(** *** Every hunk header of a file section makes a hunk *)

Lemma header_parsedHunk hdr body : header (parsedHunk hdr body) = hdr.
Proof.
  unfold parsedHunk. now destruct (matchHeader hdr) as [[[[m1 m2] m3] m4]|].
Qed.

Lemma parsedHunk_degenerate hdr :
  matchHeader hdr = None -> parsedHunk hdr [] = degenerateHunk hdr.
Proof. intros Hm. unfold parsedHunk. now rewrite Hm. Qed.

Lemma startsWith_other_head line c p c' q :
  c <> c' -> startsWith line (String c p) = true ->
  startsWith line (String c' q) = false.
Proof.
  intros Hc. unfold startsWith. destruct line as [|a s]; [done|].
  cbn [String.prefix].
  destruct (ascii_dec c a); [subst a|discriminate]. intros _.
  destruct (ascii_dec c' c); [congruence|done].
Qed.

Section Coverage.
Variable lines_ : list string.

(** The loop over the extended headers stops at a hunk header at the
    latest. *)
Lemma skipExtendedHeaders_upto fuel s j1 i line :
  skipExtendedHeaders lines_ fuel s = Ok j1 ->
  (s <= i)%nat -> lines_ !! i = Some line -> startsWith line "@@" = true ->
  (forall k l, (s <= k < i)%nat -> lines_ !! k = Some l ->
     startsWith l "Binary" = false) ->
  (j1 <= i)%nat /\ exists l, lines_ !! j1 = Some l /\ startsWith l "Binary" = false.
Proof.
  revert s. induction fuel as [|fuel IH]; intros s Hrun Hsi Hi Hat Hnb;
    [discriminate|].
  cbn [skipExtendedHeaders] in Hrun.
  destruct (lines_ !! s) as [l|] eqn:Hs.
  2: { apply lookup_ge_None in Hs. apply lookup_lt_Some in Hi. lia. }
  rewrite (ltb_lookup _ _ _ Hs), (lineAt_Some _ _ _ Hs) in Hrun.
  cbn [mbind result_bind] in Hrun.
  destruct (decide (s = i)) as [->|Hne].
  - assert (l = line) as -> by congruence.
    rewrite Hat in Hrun. cbn [negb] in Hrun.
    rewrite andb_false_r, andb_false_l in Hrun. injection Hrun as <-.
    split; [lia|]. exists line. split; [done|].
    eapply (startsWith_other_head line "@" "@" "B"); [done|exact Hat].
  - destruct (_ && _) in Hrun.
    + destruct (IH _ Hrun) as (Hle & Hl); [lia|done|done| |done].
      intros k l' Hk. apply Hnb. lia.
    + injection Hrun as <-. split; [lia|]. exists l. split; [done|].
      apply (Hnb s l); [lia|done].
Qed.

Lemma parseOldPath_upto j p hdr j' i line :
  parseOldPath lines_ j = Ok (p, hdr, j') -> (j <= i)%nat ->
  lines_ !! i = Some line -> startsWith line "@@" = true -> (j' <= i)%nat.
Proof.
  intros Hrun Hji Hi Hat. unfold parseOldPath in Hrun.
  destruct (lines_ !! j) as [l|] eqn:Hj.
  2: { apply lookup_ge_None in Hj. apply lookup_lt_Some in Hi. lia. }
  rewrite (lineStartsWith_Some _ _ _ _ Hj) in Hrun.
  cbn [mbind result_bind] in Hrun.
  destruct (startsWith l "---") eqn:Hs.
  - rewrite (lineAt_Some _ _ _ Hj) in Hrun. cbn [mbind result_bind] in Hrun.
    injection Hrun as _ _ <-.
    destruct (decide (j = i)) as [->|]; [|lia].
    assert (l = line) as -> by congruence.
    rewrite (startsWith_other_head line "@" "@" "-" "--") in Hs; done.
  - injection Hrun as _ _ <-. lia.
Qed.

Lemma parseNewPath_upto hdr0 j p hdr j' i line :
  parseNewPath lines_ hdr0 j = Ok (p, hdr, j') -> (j <= i)%nat ->
  lines_ !! i = Some line -> startsWith line "@@" = true -> (j' <= i)%nat.
Proof.
  intros Hrun Hji Hi Hat. unfold parseNewPath in Hrun.
  destruct (lines_ !! j) as [l|] eqn:Hj.
  2: { apply lookup_ge_None in Hj. apply lookup_lt_Some in Hi. lia. }
  rewrite (lineStartsWith_Some _ _ _ _ Hj) in Hrun.
  cbn [mbind result_bind] in Hrun.
  destruct (startsWith l "+++") eqn:Hs.
  - rewrite (lineAt_Some _ _ _ Hj) in Hrun. cbn [mbind result_bind] in Hrun.
    injection Hrun as _ _ <-.
    destruct (decide (j = i)) as [->|]; [|lia].
    assert (l = line) as -> by congruence.
    rewrite (startsWith_other_head line "@" "@" "+" "++") in Hs; done.
  - injection Hrun as _ _ <-. lia.
Qed.

(** The loop of [parseHunk] does not take a hunk header as a body line. *)
Lemma parseHunkLoop_upto fuel s hunk hunk' next i line :
  parseHunkLoop lines_ fuel s hunk = Ok (hunk', next) -> (s <= i)%nat ->
  lines_ !! i = Some line -> startsWith line "@@" = true -> (next <= i)%nat.
Proof.
  revert s hunk. induction fuel as [|fuel IH]; intros s hunk Hrun Hsi Hi Hat;
    [discriminate|].
  destruct (lines_ !! s) as [l|] eqn:Hs.
  2: { apply lookup_ge_None in Hs. apply lookup_lt_Some in Hi. lia. }
  rewrite (parseHunkLoop_step _ _ _ _ _ Hs) in Hrun.
  destruct (decide (s = i)) as [->|Hne].
  - assert (l = line) as -> by congruence.
    assert (Hb : isBodyLine line = false).
    { destruct (isBodyLine line) eqn:Hb; [|done].
      apply isBodyLine_not_marker in Hb as [Hb _]. congruence. }
    rewrite Hb in Hrun. cbn [andb] in Hrun. injection Hrun as _ <-. lia.
  - destruct (_ && _) in Hrun.
    + apply (IH _ _ Hrun); [lia|done|done].
    + injection Hrun as _ <-. lia.
Qed.

Lemma parseHunk_upto s hunk next i line :
  parseHunk lines_ s = Ok (hunk, next) -> (s < i)%nat ->
  lines_ !! i = Some line -> startsWith line "@@" = true -> (next <= i)%nat.
Proof.
  intros Hrun Hsi Hi Hat. unfold parseHunk in Hrun.
  destruct (lineAt lines_ s) as [hl| |]; cbn [mbind result_bind] in Hrun;
    try discriminate.
  destruct (matchHeader hl) as [[[[m1 m2] m3] m4]|].
  - eapply parseHunkLoop_upto; [exact Hrun|lia|exact Hi|exact Hat].
  - injection Hrun as _ <-. lia.
Qed.

(** The hunk loop keeps the hunks it has. *)
Lemma parseHunksLoop_mono fuel s hs hs' j h :
  parseHunksLoop lines_ fuel s hs = Ok (hs', j) -> h ∈ hs -> h ∈ hs'.
Proof.
  revert s hs. induction fuel as [|fuel IH]; intros s hs Hrun Hin; [discriminate|].
  cbn [parseHunksLoop] in Hrun.
  destruct (s <? length lines_)%nat; [|now injection Hrun as <- _].
  destruct (lineAt lines_ s) as [l| |]; cbn [mbind result_bind] in Hrun;
    try discriminate.
  destruct (startsWith l "diff --git "); cbn [negb] in Hrun;
    [now injection Hrun as <- _|].
  destruct (startsWith l "@@").
  - destruct (parseHunk lines_ s) as [[hunk next]| |];
      cbn [mbind result_bind] in Hrun; try discriminate.
    apply (IH _ _ Hrun). apply elem_of_app. now left.
  - apply (IH _ _ Hrun Hin).
Qed.

(** The hunk loop makes a hunk of every hunk header it has in front of
    it, up to the next line that starts a file. *)
Lemma parseHunksLoop_visits fuel s hs hs' j i line :
  parseHunksLoop lines_ fuel s hs = Ok (hs', j) -> (s <= i)%nat ->
  lines_ !! i = Some line -> startsWith line "@@" = true ->
  noStartBetween lines_ s i ->
  exists body, parsedHunk line body ∈ hs' /\ (matchHeader line = None -> body = []).
Proof.
  revert s hs. induction fuel as [|fuel IH]; intros s hs Hrun Hsi Hi Hat Hno;
    [discriminate|].
  cbn [parseHunksLoop] in Hrun.
  destruct (lines_ !! s) as [l|] eqn:Hs.
  2: { apply lookup_ge_None in Hs. apply lookup_lt_Some in Hi. lia. }
  rewrite (ltb_lookup _ _ _ Hs), (lineAt_Some _ _ _ Hs) in Hrun.
  cbn [mbind result_bind] in Hrun.
  destruct (decide (s = i)) as [->|Hne].
  - assert (l = line) as -> by congruence.
    rewrite (header_not_file_start _ Hat), Hat in Hrun. cbn [negb] in Hrun.
    destruct (parseHunk_ok lines_ i line Hi) as (body & Hp & _ & Hdeg & _).
    rewrite Hp in Hrun. cbn [mbind result_bind] in Hrun.
    exists body. split; [|exact Hdeg].
    eapply parseHunksLoop_mono; [exact Hrun|].
    apply elem_of_app. right. apply list_elem_of_here.
  - rewrite (Hno s l) in Hrun by (done || lia). cbn [negb] in Hrun.
    destruct (startsWith l "@@") eqn:Hl.
    + destruct (parseHunk_between lines_ s l Hs Hl) as (hunk & next & Hp & Hnext & _).
      rewrite Hp in Hrun. cbn [mbind result_bind] in Hrun.
      assert (Hlt' : (s < i)%nat) by lia.
      pose proof (parseHunk_upto _ _ _ _ _ Hp Hlt' Hi Hat) as Hle.
      apply (IH _ _ Hrun); [lia|done|done|].
      intros k l' Hk. apply Hno. lia.
    + apply (IH _ _ Hrun); [lia|done|done|].
      intros k l' Hk. apply Hno. lia.
Qed.

(** One iteration of the main loop at a line that starts a file: one file
    is added, the loop goes on at the next line that starts a file or at
    the end, and every hunk header of the section has its hunk in the
    file. *)
Lemma parseDiffLoop_marker fuel s files d :
  lines_ !! s = Some d -> startsWith d "diff --git " = true ->
  exists file next,
    (s < next <= length lines_)%nat /\ noStartBetween lines_ (s + 1) next /\
    parseDiffLoop lines_ (S fuel) s files =
      parseDiffLoop lines_ fuel next (files ++ [file]) /\
    forall i line, hunkLineOf lines_ s i line ->
      isBinary file = false /\
      exists body, parsedHunk line body ∈ hunks file /\
                   (matchHeader line = None -> body = []).
Proof.
  intros Hs Hd. pose proof (lookup_lt_Some _ _ _ Hs) as Hlt.
  cbn [parseDiffLoop].
  rewrite (ltb_lookup _ _ _ Hs), (lineAt_Some _ _ _ Hs). cbn [mbind result_bind].
  rewrite Hd. cbn [negb].
  destruct (skipExtendedHeaders_between lines_ (budget lines_) (s + 1)%nat)
    as (j1 & Hskip & Hj1 & Hl1 & Hno1); [unfold budget; lia|].
  rewrite Hskip. cbn [mbind result_bind].
  destruct (lineStartsWith_ok lines_ j1 "Binary") as ([] & Hbin & Hb);
    rewrite Hbin; cbn [mbind result_bind].
  - destruct (Hb eq_refl) as (bline & Hbi & Hbs).
    pose proof (lookup_lt_Some _ _ _ Hbi) as Hblt.
    eexists _, (j1 + 1)%nat. split; [lia|]. split.
    { eapply noStartBetween_trans; [exact Hno1|].
      eapply noStartBetween_step; [exact Hbi|].
      eapply startsWith_not_file_start; [reflexivity| |exact Hbs]. done. }
    split; [reflexivity|].
    intros i line (_ & Hsi & Hi & Hat & Hbetween). exfalso.
    destruct (skipExtendedHeaders_upto _ _ _ i line Hskip)
      as (Hle & l & Hl & Hnb); [lia|done|done| |congruence].
    intros k l' Hk Hl'. apply (Hbetween k l'); [lia|done].
  - destruct (parseOldPath_between lines_ j1)
      as (oldP & hdr & j2 & Hold & Hj2 & Hl2 & Hno2 & _).
    rewrite Hold. cbn [mbind result_bind].
    destruct (parseNewPath_between lines_ hdr j2)
      as (newP & hdr' & j3 & Hnew & Hj3 & Hl3 & Hno3 & _).
    rewrite Hnew. cbn [mbind result_bind].
    destruct (parseHunksLoop_between lines_ (budget lines_) j3 [])
      as (hs & j4 & Hhunks & Hj4 & Hl4 & Hno4); [unfold budget; lia|].
    rewrite Hhunks. cbn [mbind result_bind].
    eexists _, j4. split; [lia|].
    split; [eauto using noStartBetween_trans|].
    split; [reflexivity|].
    intros i line (_ & Hsi & Hi & Hat & Hbetween). split; [reflexivity|].
    destruct (skipExtendedHeaders_upto _ _ _ i line Hskip) as (Hle1 & _);
      [lia|done|done| |].
    { intros k l' Hk Hl'. apply (Hbetween k l'); [lia|done]. }
    pose proof (parseOldPath_upto _ _ _ _ i line Hold Hle1 Hi Hat) as Hle2.
    pose proof (parseNewPath_upto _ _ _ _ _ i line Hnew Hle2 Hi Hat) as Hle3.
    cbn [hunks].
    apply (parseHunksLoop_visits _ _ _ _ _ i line Hhunks Hle3 Hi Hat).
    intros k l Hk Hl. apply (Hbetween k l); [lia|done].
Qed.

(** The main loop, started at or before a line that starts a file, gets
    to that line and keeps the file it makes there. *)
Lemma parseDiffLoop_reaches fuel s files j i line :
  (length lines_ - s < fuel)%nat -> (s <= j)%nat -> hunkLineOf lines_ j i line ->
  exists files' file body,
    parseDiffLoop lines_ fuel s files = Ok files' /\ file ∈ files' /\
    isBinary file = false /\ parsedHunk line body ∈ hunks file /\
    (matchHeader line = None -> body = []).
Proof.
  revert s files. induction fuel as [|fuel IH]; intros s files Hfuel Hsj Hline; [lia|].
  pose proof Hline as ((d & Hj & Hd) & Hji & Hi & Hat & Hbetween).
  destruct (lines_ !! s) as [l|] eqn:Hs.
  2: { apply lookup_ge_None in Hs. apply lookup_lt_Some in Hj. lia. }
  pose proof (lookup_lt_Some _ _ _ Hs) as Hlt.
  destruct (startsWith l "diff --git ") eqn:Hl.
  - destruct (parseDiffLoop_marker fuel s files l Hs Hl)
      as (file & next & Hnext & Hno & Hstep & Hcover).
    rewrite Hstep.
    destruct (decide (s = j)) as [->|Hne].
    + destruct (Hcover i line Hline) as (Hbin & body & Hin & Hdeg).
      destruct (parseDiffLoop_count lines_ fuel next (files ++ [file]))
        as (files' & Hrun & _); [lia|].
      exists ((files ++ [file]) ++ files'), file, body.
      split; [exact Hrun|]. split; [|done].
      apply elem_of_app. left. apply elem_of_app. right. apply list_elem_of_here.
    + assert (Hle : (next <= j)%nat).
      { destruct (decide (next <= j)%nat) as [|Hgt]; [done|]. exfalso.
        rewrite (Hno j d) in Hd; [done|lia|done]. }
      apply IH; [lia|done|done].
  - cbn [parseDiffLoop].
    rewrite (ltb_lookup _ _ _ Hs), (lineAt_Some _ _ _ Hs). cbn [mbind result_bind].
    rewrite Hl. cbn [negb].
    assert (s <> j) by (intros ->; congruence).
    apply IH; [lia|lia|done].
Qed.
End Coverage.

(** C5.  [parseDiff] returns a list of files for every input text: no
    method is ever called on [undefined] and every loop ends.  Every hunk
    of the result has as header a line that starts with [@@], and a hunk
    whose header does not match the hunk-header pattern is the degenerate
    hunk of that header (all four numbers 0, no lines, the header as only
    raw line).  Every line that starts with [@@] and follows a line that
    starts a file, with no line between the two that starts a file or
    starts with [Binary], has its hunk in a file of the result: the
    degenerate hunk when the line does not match the pattern.  At such a
    line [parseHunk] returns that hunk and the index of the next line. *)
Theorem parseDiff_total_malformed_header_degenerate (diffText : string) :
  exists files,
    parseDiff diffText = Ok files /\
    (forall file h, file ∈ files -> h ∈ hunks file ->
       startsWith (header h) "@@" = true /\
       (matchHeader (header h) = None -> h = degenerateHunk (header h))) /\
    (forall j i line, hunkLineOf (split diffText) j i line ->
       exists file h,
         file ∈ files /\ isBinary file = false /\ h ∈ hunks file /\
         header h = line /\
         (matchHeader line = None -> h = degenerateHunk line)) /\
    (forall i line,
       split diffText !! i = Some line -> matchHeader line = None ->
       parseHunk (split diffText) i = Ok (degenerateHunk line, (i + 1)%nat)).
Proof.
  destruct (parseDiff_ok diffText) as (files & Hparse & Hgood).
  exists files. split; [exact Hparse|]. split; [|split].
  - intros file h Hfile Hh. rewrite Forall_forall in Hgood.
    destruct (Hgood file Hfile) as (Hhunks & _). rewrite Forall_forall in Hhunks.
    destruct (Hhunks h Hh) as (hdr & body & -> & _ & Hat & _ & Hdeg).
    rewrite header_parsedHunk. split; [exact Hat|].
    intros Hm. rewrite (Hdeg Hm). now apply parsedHunk_degenerate.
  - intros j i line Hline.
    destruct (parseDiffLoop_reaches (split diffText) (budget (split diffText))
                0%nat [] j i line) as (files' & file & body & Hrun & Hfile & Hbin & Hh & Hdeg);
      [unfold budget; lia|lia|exact Hline|].
    unfold parseDiff in Hparse. cbv zeta in Hparse.
    rewrite Hparse in Hrun. injection Hrun as <-.
    exists file, (parsedHunk line body).
    split; [exact Hfile|]. split; [exact Hbin|]. split; [exact Hh|].
    split; [apply header_parsedHunk|].
    intros Hm. rewrite (Hdeg Hm). now apply parsedHunk_degenerate.
  - intros i line Hi Hm. unfold parseHunk.
    rewrite (lineAt_Some _ _ _ Hi). cbn [mbind result_bind]. now rewrite Hm.
Qed.

Lemma parseDiff_total_malformed_header_degenerate_witness :
  exists files file,
    parseDiff malformedDiff = Ok files /\ file ∈ files /\
    isBinary file = false /\
    degenerateHunk "@@ bogus @@" ∈ hunks file.
Proof.
  destruct (parseDiff_total_malformed_header_degenerate malformedDiff)
    as (files & Hparse & _ & Hcover & _).
  destruct (Hcover 0%nat 3%nat "@@ bogus @@")
    as (file & h & Hfile & Hbin & Hh & _ & Hdeg).
  - split; [eexists; split; reflexivity|]. split; [lia|].
    split; [reflexivity|]. split; [reflexivity|].
    intros k l Hk Hl.
    destruct k as [|[|[|k]]]; [lia| | |lia];
      vm_compute in Hl; injection Hl as <-; split; reflexivity.
  - exists files, file. split; [exact Hparse|]. split; [exact Hfile|].
    split; [exact Hbin|]. now rewrite <- (Hdeg eq_refl).
Defined.


(** X8.  [parseDiff] makes exactly one file of every line of the text
    that starts with [diff --git ], whatever is between these lines.  A
    file it marks as binary has no hunks and no header lines; any other
    file has at most two header lines. *)
Theorem parseDiff_one_file_per_start (diffText : string) :
  exists files,
    parseDiff diffText = Ok files /\
    length files = fileStarts (split diffText) /\
    Forall fileShape files.
Proof.
  unfold parseDiff.
  destruct (parseDiffLoop_count (split diffText) (budget (split diffText)) 0 [])
    as (files & Hparse & Hlen & Hshape); [unfold budget; lia|].
  exists files. now rewrite Hparse.
Qed.

(** *** Binary files *)





(** *** What every parsed hunk looks like *)

Lemma classify_length body : (length (classify body) <= length body)%nat.
Proof.
  unfold classify. induction body as [|r body IH]; [done|].
  change (omap classifyLine (r :: body))
    with (match classifyLine r with
          | Some y => y :: omap classifyLine body
          | None => omap classifyLine body
          end).
  destruct (classifyLine r); simpl; lia.
Qed.

Lemma classifyLine_content r l :
  classifyLine r = Some l -> content l = slice 1 r.
Proof.
  unfold classifyLine. repeat case_match; intros [= <-]; reflexivity.
Qed.

(** X10.  In every hunk of every file [parseDiff] returns, the first raw
    line is the header, which starts with [@@]; the other raw lines are
    lines of the text that start with [+], [-], a blank or a backslash and
    a blank, or are empty; [lines] is made of these in order, one entry
    for each but the backslash lines, the content being the raw line
    without its first character; and no identity is set. *)
Theorem parseDiff_hunk_invariant (diffText : string) (files : list DiffFile)
  (file : DiffFile) (hunk : DiffHunk) :
  parseDiff diffText = Ok files -> file ∈ files -> hunk ∈ hunks file ->
  exists body,
    rawLines hunk = header hunk :: body /\
    startsWith (header hunk) "@@" = true /\
    header hunk ∈ split diffText /\
    Forall (fun r => r ∈ split diffText /\ isBodyLine r = true) body /\
    lines hunk = classify body /\
    (length (lines hunk) <= length body)%nat /\
    Forall (fun l => noNL (content l)) (lines hunk) /\
    id hunk = None.
Proof.
  intros Hparse Hfile Hhunk.
  destruct (parseDiff_ok diffText) as (files' & Hparse' & Hgood).
  rewrite Hparse in Hparse'. injection Hparse' as <-.
  rewrite Forall_forall in Hgood.
  destruct (Hgood _ Hfile) as (Hhunks & _ & _).
  rewrite Forall_forall in Hhunks.
  destruct (Hhunks _ Hhunk) as (hdr & body & -> & Hhdr & Hat & Hbody & Hdeg).
  pose proof (split_noNL diffText) as Hsplit. rewrite Forall_forall in Hsplit.
  assert (Hshape : header (parsedHunk hdr body) = hdr /\
                   lines (parsedHunk hdr body) = classify body /\
                   id (parsedHunk hdr body) = None).
  { unfold parsedHunk.
    destruct (matchHeader hdr) as [[[[m1 m2] m3] m4]|] eqn:Hm; [done|].
    now rewrite (Hdeg eq_refl). }
  destruct Hshape as (Hh & Hl & Hid).
  exists body. rewrite (rawLines_parsedHunk _ _ Hdeg), Hh, Hl.
  repeat split; try done.
  - apply classify_length.
  - apply Forall_forall. intros l Hl'. unfold classify in Hl'.
    apply list_elem_of_omap in Hl' as (r & Hr & Hc).
    rewrite (classifyLine_content _ _ Hc). apply noNL_slice.
    rewrite Forall_forall in Hbody. now apply Hsplit, Hbody.
Qed.

Lemma parseDiff_hunk_invariant_witness :
  exists body,
    rawLines simpleHunk = header simpleHunk :: body /\
    startsWith (header simpleHunk) "@@" = true /\
    header simpleHunk ∈ split simpleDiff /\
    Forall (fun r => r ∈ split simpleDiff /\ isBodyLine r = true) body /\
    lines simpleHunk = classify body /\
    (length (lines simpleHunk) <= length body)%nat /\
    Forall (fun l => noNL (content l)) (lines simpleHunk) /\
    id simpleHunk = None.
Proof.
  apply (parseDiff_hunk_invariant simpleDiff [simpleFile] simpleFile simpleHunk).
  - vm_compute; reflexivity.
  - apply list_elem_of_here.
  - apply list_elem_of_here.
Defined.

(** ** More on hunk identities *)

Lemma hexDigit_ok d :
  0 <= d < 16 -> isHexChar (hexDigit d) = true /\ hexCharValue (hexDigit d) = d.
Proof.
  intros Hd.
  assert (d = 0 \/ d = 1 \/ d = 2 \/ d = 3 \/ d = 4 \/ d = 5 \/ d = 6 \/ d = 7 \/
          d = 8 \/ d = 9 \/ d = 10 \/ d = 11 \/ d = 12 \/ d = 13 \/ d = 14 \/
          d = 15) as Hcases by lia.
  repeat (destruct Hcases as [->|Hcases]; [split; reflexivity|]).
  subst. split; reflexivity.
Qed.

Lemma hexDigits_ok fuel : forall n acc,
  0 <= n < 16 ^ Z.of_nat fuel -> allHex acc = true ->
  allHex (hexDigits fuel n acc) = true /\
  hexValue (hexDigits fuel n acc) = hexValueFrom n acc.
Proof.
  induction fuel as [|fuel IH]; intros n acc Hn Hacc.
  { simpl in Hn. assert (n = 0) as -> by lia. done. }
  cbn [hexDigits]. cbv zeta.
  assert (Hm : 0 <= n mod 16 < 16) by (apply Z.mod_pos_bound; lia).
  destruct (hexDigit_ok _ Hm) as [Hhex Hval].
  assert (Hacc' : allHex (String (hexDigit (n mod 16)) acc) = true).
  { simpl. now rewrite Hhex, Hacc. }
  assert (Hstep : hexValueFrom (n / 16) (String (hexDigit (n mod 16)) acc) =
                  hexValueFrom n acc).
  { unfold hexValueFrom. simpl. rewrite Hval. f_equal.
    rewrite (Z.div_mod n 16) at 3 by lia. lia. }
  destruct (n / 16 =? 0) eqn:E.
  - split; [done|]. apply Z.eqb_eq in E. unfold hexValue. now rewrite <- Hstep, E.
  - destruct (IH (n / 16) (String (hexDigit (n mod 16)) acc)) as [Hall Hv];
      [|done|].
    + split; [apply Z.div_pos; lia|].
      apply Z.div_lt_upper_bound; [lia|].
      rewrite Nat2Z.inj_succ, Z.pow_succ_r in Hn; lia.
    + split; [done|]. now rewrite Hv.
Qed.

Lemma allHex_app a b : allHex (a +:+ b) = allHex a && allHex b.
Proof.
  induction a as [|c a IH]; [done|]. rewrite append_cons. simpl.
  now rewrite IH, andb_assoc.
Qed.

Lemma repeatChar_zero k s :
  allHex (repeatChar k "0" +:+ s) = allHex s /\
  hexValue (repeatChar k "0" +:+ s) = hexValue s.
Proof.
  induction k as [|k [IH1 IH2]]; [done|]. simpl. rewrite append_cons.
  split; [simpl; exact IH1|]. exact IH2.
Qed.

Lemma toString16_ok n :
  0 <= n -> allHex (toString16 n) = true /\ hexValue (toString16 n) = n.
Proof.
  intros Hn. unfold toString16.
  destruct (hexDigits_ok (S (Z.to_nat (Z.log2 n))) n "") as [Hall Hv]; [|done|].
  - split; [done|].
    destruct (decide (n = 0)) as [->|Hpos]; [done|].
    pose proof (Z.log2_nonneg n) as Hlog.
    destruct (Z.log2_spec n) as [_ Hlt]; [lia|].
    eapply Z.lt_le_trans; [exact Hlt|].
    rewrite Nat2Z.inj_succ, Z2Nat.id by done.
    change 16 with (2 ^ 4). rewrite <- Z.pow_mul_r by lia.
    apply Z.pow_le_mono_r; lia.
  - split; [done|]. now rewrite Hv.
Qed.

(** X11.  [fnv1a] returns exactly eight lower-case hexadecimal digits, and
    they spell the unsigned 32-bit value of the hash: the text loses
    nothing of the number, so two hashes are the same text exactly when
    they are the same number. *)
Theorem fnv1a_eight_hex_digits (str : string) :
  String.length (fnv1a str) = 8%nat /\
  allHex (fnv1a str) = true /\
  hexValue (fnv1a str) = toUint32 (fnv1aLoop str) /\
  (forall str', fnv1a str = fnv1a str' <->
                toUint32 (fnv1aLoop str) = toUint32 (fnv1aLoop str')).
Proof.
  assert (Hgen : forall s, allHex (fnv1a s) = true /\
                           hexValue (fnv1a s) = toUint32 (fnv1aLoop s)).
  { intros s. unfold fnv1a, padStart.
    destruct (toString16_ok (toUint32 (fnv1aLoop s))) as [Hall Hv].
    { unfold toUint32. apply Z.mod_pos_bound. lia. }
    destruct (repeatChar_zero
                (8 - String.length (toString16 (toUint32 (fnv1aLoop s))))
                (toString16 (toUint32 (fnv1aLoop s)))) as [-> ->].
    done. }
  split; [apply fnv1a_length|].
  split; [apply Hgen|]. split; [apply Hgen|].
  intros str'. split.
  - intros Heq. rewrite <- (proj2 (Hgen str)), <- (proj2 (Hgen str')).
    now rewrite Heq.
  - intros Heq. unfold fnv1a. now rewrite Heq.
Qed.

(** Where a run of changed lines ends is determined by the lines. *)
Lemma run_split_unique (run1 run2 rest1 rest2 : list DiffLine) :
  run1 ++ rest1 = run2 ++ rest2 ->
  Forall isChange run1 -> Forall isChange run2 ->
  startsWithContext rest1 -> startsWithContext rest2 ->
  run1 = run2 /\ rest1 = rest2.
Proof.
  revert run2. induction run1 as [|x run1 IH]; intros run2 Heq H1 H2 Hs1 Hs2.
  - destruct run2 as [|y run2]; [done|]. exfalso.
    simpl in Heq. subst rest1. simpl in Hs1.
    apply Forall_cons in H2 as [Hy _].
    apply isContext_false_isChange in Hy. congruence.
  - apply Forall_cons in H1 as [Hx H1].
    destruct run2 as [|y run2].
    + exfalso. simpl in Heq. subst rest2. simpl in Hs2.
      apply isContext_false_isChange in Hx. congruence.
    + simpl in Heq. injection Heq as <- Heq.
      apply Forall_cons in H2 as [_ H2].
      destruct (IH run2 Heq H1 H2 Hs1 Hs2) as [-> ->]. done.
Qed.

Lemma splitLoop_app_run run rest o n :
  run <> [] -> Forall isChange run -> startsWithContext rest ->
  splitLoop (run ++ rest) o n =
  runHunk o n run :: splitLoop rest (o + oldAdvance run) (n + newAdvance run).
Proof.
  intros Hne Hall Hstop. destruct run as [|l run]; [done|].
  change ((l :: run) ++ rest) with (l :: (run ++ rest)).
  rewrite splitLoop_cons.
  assert (Hl : isContext l = false).
  { apply isContext_false_isChange. now inversion Hall. }
  rewrite Hl.
  destruct (collectGroup_spec (l :: (run ++ rest)) (newGroup o n))
    as (run' & rest' & Hcg & Hsplit & Hch & Hstop').
  cbv zeta. rewrite Hcg. cbn [fst snd g_oldLine g_newLine newGroup].
  destruct (run_split_unique (l :: run) run' rest rest') as [<- <-]; try done.
Qed.

Lemma sameChange_run run run' :
  Forall2 sameChange run run' -> Forall isChange run -> run' = run.
Proof.
  induction 1 as [|x y run run' [Ht Hc] _ IH]; [done|].
  intros [Hx Hall]%Forall_cons. rewrite (IH Hall). f_equal.
  destruct x, y; simpl in *. rewrite (Hc Hx), Ht. done.
Qed.

Lemma sameChange_startsWithContext rest rest' :
  Forall2 sameChange rest rest' -> startsWithContext rest ->
  startsWithContext rest'.
Proof.
  destruct 1 as [|x y rest rest' [Ht _] _]; [done|].
  unfold startsWithContext, isContext. now rewrite Ht.
Qed.

(** The runs [splitHunks] finds do not depend on where the hunk is, nor
    on what its context lines say. *)
Lemma splitLoop_lines_moved rest o n :
  forall rest' o' n', Forall2 sameChange rest rest' ->
    map lines (splitLoop rest o n) = map lines (splitLoop rest' o' n').
Proof.
  apply (splitLoop_iterations (fun rest o n subs =>
    forall rest' o' n', Forall2 sameChange rest rest' ->
      map lines subs = map lines (splitLoop rest' o' n'))).
  - intros o0 n0 rest' o' n' ->%Forall2_nil_inv_l. now rewrite splitLoop_nil.
  - intros l rest0 o0 n0 subs Hl IH rest' o' n' Hsame.
    apply Forall2_cons_inv_l in Hsame as (l' & rest0' & [Ht _] & Hsame & ->).
    rewrite splitLoop_cons.
    replace (isContext l') with true
      by (unfold isContext in *; now rewrite <- Ht).
    now apply IH.
  - intros run rest0 o0 n0 subs Hne Hch Hstop IH rest' o' n' Hsame.
    apply Forall2_app_inv_l in Hsame as (run' & rest0' & Hrun & Hrest & ->).
    rewrite (sameChange_run _ _ Hrun Hch).
    rewrite splitLoop_app_run;
      [|done|done|now apply (sameChange_startsWithContext rest0)].
    cbn [map lines runHunk]. f_equal. now apply IH.
Qed.

Lemma splitHunks_lines_moved hs hs' :
  Forall2 (fun h h' => Forall2 sameChange (lines h) (lines h')) hs hs' ->
  map lines (splitHunks hs) = map lines (splitHunks hs').
Proof.
  unfold splitHunks. induction 1 as [|h h' hs hs' Hh _ IH]; [done|].
  cbn [map concat]. rewrite !map_app, IH. f_equal.
  unfold splitHunk. now apply splitLoop_lines_moved.
Qed.

Lemma computeHunkIds_ext filePath hs hs' :
  map lines hs = map lines hs' ->
  computeHunkIds filePath hs = computeHunkIds filePath hs'.
Proof.
  intros Hlines.
  assert (Hbases : map (computeHunkId filePath) hs = map (computeHunkId filePath) hs').
  { clear -Hlines. revert hs' Hlines.
    induction hs as [|h hs IH]; intros [|h' hs'] Hlines; try done.
    simpl in Hlines. injection Hlines as Hh Hlines. simpl.
    rewrite (IH hs' Hlines). f_equal.
    unfold computeHunkId, changedContent. now rewrite Hh. }
  assert (Hlen : length hs = length hs').
  { rewrite <- (length_map lines hs), Hlines. apply length_map. }
  apply list_eq. intros i.
  destruct (map (computeHunkId filePath) hs !! i) as [b|] eqn:Hb.
  - rewrite (computeHunkIds_lookup _ _ _ _ Hb).
    rewrite Hbases in Hb. rewrite (computeHunkIds_lookup _ _ _ _ Hb).
    now rewrite Hbases.
  - apply lookup_ge_None in Hb. rewrite length_map in Hb.
    rewrite !(proj2 (lookup_ge_None _ _)); [done| |];
      rewrite computeHunkIds_length; lia.
Qed.

Lemma identify_ids f :
  map id (hunks (identify f)) =
  map Some (computeHunkIds (pathOf f) (splitHunks (hunks f))).
Proof.
  unfold identify, pathOf. cbn [hunks].
  pose proof (computeHunkIds_length (orElse (newPath f) (oldPath f))
                (splitHunks (hunks f))) as Hlen.
  revert Hlen.
  generalize (computeHunkIds (orElse (newPath f) (oldPath f)) (splitHunks (hunks f))).
  generalize (splitHunks (hunks f)).
  intros hs ids. revert hs. induction ids as [|i ids IH]; intros [|h hs] Hlen;
    try done. simpl. f_equal. apply IH. simpl in Hlen. lia.
Qed.

Lemma statusArray_ids m hs hs' :
  map id hs = map id hs' -> statusArray m hs = statusArray m hs'.
Proof.
  unfold statusArray. revert hs'.
  induction hs as [|h hs IH]; intros [|h' hs'] Heq; try done.
  simpl in Heq. injection Heq as Hid Heq. simpl.
  rewrite (IH hs' Heq). f_equal. unfold truthyId. now rewrite Hid.
Qed.

(** X12.  The identities the files of a diff get do not depend on where
    the hunks are nor on their context lines: two files with the same
    path whose hunks have, line by line, the same types and the same
    changed contents get the same identities, hunk by hunk, and the
    engine reports the same statuses for both. *)
Theorem identify_ignores_positions (f f' : DiffFile) :
  pathOf f = pathOf f' ->
  Forall2 (fun h h' => Forall2 sameChange (lines h) (lines h'))
          (hunks f) (hunks f') ->
  map id (hunks (identify f)) = map id (hunks (identify f')) /\
  forall st, getStatusArray (identify f) st = getStatusArray (identify f') st.
Proof.
  intros Hpath Hsame.
  assert (Hids : map id (hunks (identify f)) = map id (hunks (identify f'))).
  { rewrite !identify_ids, Hpath. f_equal.
    now apply computeHunkIds_ext, splitHunks_lines_moved. }
  split; [exact Hids|]. intros st. unfold getStatusArray.
  change (pathOf (identify f)) with (pathOf f).
  change (pathOf (identify f')) with (pathOf f'). rewrite Hpath.
  assert (Hlen : length (hunks (identify f)) = length (hunks (identify f'))).
  { rewrite <- (length_map id), Hids. apply length_map. }
  destruct (statuses st !! pathOf f') as [m|].
  - now apply statusArray_ids.
  - revert Hlen. generalize (hunks (identify f)) (hunks (identify f')).
    induction l as [|x l IH]; intros [|y l'] Hl; try done.
    simpl. f_equal. apply IH. simpl in Hl. lia.
Qed.

Lemma identify_ignores_positions_witness :
  map id (hunks (identify (makeFile [deletionHunk]))) =
  map id (hunks (identify (makeFile [movedDeletionHunk]))) /\
  forall st, getStatusArray (identify (makeFile [deletionHunk])) st =
             getStatusArray (identify (makeFile [movedDeletionHunk])) st.
Proof.
  apply (identify_ignores_positions (makeFile [deletionHunk])
           (makeFile [movedDeletionHunk])); [reflexivity|].
  repeat constructor; simpl; intros [?|?]; discriminate.
Defined.

(** ** More on the review state engine *)

Lemma buildMap_again prior hs :
  buildMap (buildMap prior hs) hs = buildMap prior hs.
Proof.
  apply map_eq. intros i. rewrite !buildMap_lookup.
  case_bool_decide; done.
Qed.

(** X13.  [syncStatuses] is idempotent: a second call with the same file
    returns the same array and leaves the engine as the first call left
    it; and [getStatusArray] after the call returns the array the call
    returned. *)
Theorem syncStatuses_idempotent (file : DiffFile) (st : StateManager) :
  syncStatuses file (syncStatuses file st).2 = syncStatuses file st /\
  getStatusArray file (syncStatuses file st).2 = (syncStatuses file st).1.
Proof.
  rewrite (syncStatuses_unfold file st). cbn [fst snd].
  set (B := buildMap (default ∅ (statuses st !! pathOf file)) (hunks file)).
  split.
  - rewrite syncStatuses_unfold. cbv zeta.
    rewrite statuses_persist. cbn [statuses setStatuses].
    rewrite lookup_insert_eq. cbn [default]. unfold Datatypes.id.
    assert (HB : buildMap B (hunks file) = B) by apply buildMap_again.
    rewrite HB, insert_insert_eq. f_equal.
    unfold persist, setStatuses. simpl. now destruct (storage st).
  - unfold getStatusArray. rewrite statuses_persist. cbn [statuses setStatuses].
    now rewrite lookup_insert_eq.
Qed.

(** The loop of [approveAll]: the pending identities of the hunks become
    approved, nothing else changes, and each of them gets one entry on
    the undo stack. *)
Lemma approveAll_loop (p : string) (hs : list DiffHunk)
  (m : gmap string HunkStatus) (stack : list UndoEntry) :
  let r := foldl (fun (acc : gmap string HunkStatus * list UndoEntry) hunk =>
               match truthyId hunk with
               | Some i =>
                 if bool_decide (acc.1 !! i = Some pending) then
                   (<[i := approved]> acc.1,
                    acc.2 ++ [{| entryType := approve_t; filePath := p;
                                 hunkId := i; forwardPatch := None |}])
                 else acc
               | None => acc
               end) (m, stack) hs in
  (forall i, r.1 !! i =
     if bool_decide (i ∈ omap truthyId hs /\ m !! i = Some pending)
     then Some approved else m !! i) /\
  exists extra,
    r.2 = stack ++ extra /\
    Forall (fun e => entryType e = approve_t /\ filePath e = p /\
                     forwardPatch e = None) extra /\
    NoDup (map hunkId extra) /\
    (forall i, i ∈ map hunkId extra <->
               i ∈ omap truthyId hs /\ m !! i = Some pending).
Proof.
  induction hs as [|h hs IH] using rev_ind.
  - simpl. split.
    + done.
    + exists []. rewrite app_nil_r.
      split; [done|]. split; [constructor|]. split; [constructor|].
      intros i. simpl. split; [intros Hin|intros [Hin _]]; inversion Hin.
  - cbv zeta in *. rewrite foldl_app, omap_app. simpl.
    destruct IH as (Hmap & extra & Hstack & Hall & Hnd & Hin).
    destruct (foldl _ (m, stack) hs) as [m1 stack1] eqn:Hr.
    cbn [fst snd] in *.
    destruct (truthyId h) as [j|] eqn:Hj; simpl.
    2: { rewrite app_nil_r. split; [done|]. exists extra. done. }
    case_bool_decide as Hp; cbn [fst snd].
    + assert (Hfresh : (j ∉ omap truthyId hs) /\ m !! j = Some pending).
      { rewrite Hmap in Hp. case_bool_decide as Hc; [done|]. split; [|done].
        intros Hjin. apply Hc. done. }
      destruct Hfresh as [Hnotin Hpend].
      split.
      * intros i. destruct (decide (i = j)) as [->|Hne].
        -- rewrite lookup_insert_eq, bool_decide_eq_true_2; [done|].
           split; [|done]. apply elem_of_app. right. apply list_elem_of_here.
        -- rewrite lookup_insert_ne, Hmap by done.
           apply (f_equal (fun b : bool => if b then _ else _)).
           apply bool_decide_ext. rewrite elem_of_app, list_elem_of_singleton.
           tauto.
      * eexists (extra ++ [_]). rewrite Hstack, <- app_assoc.
        split; [reflexivity|]. split; [|split].
        -- apply Forall_app. split; [done|]. now repeat constructor.
        -- rewrite map_app. simpl. apply NoDup_app. split; [done|].
           split; [|apply NoDup_singleton].
           intros i Hi ->%list_elem_of_singleton. apply Hin in Hi. tauto.
        -- intros i. rewrite map_app, !elem_of_app, Hin. simpl.
           rewrite !list_elem_of_singleton. split.
           ++ intros [[? ?]| ->]; auto.
           ++ intros [[?| ->] ?]; auto.
    + split.
      * intros i. rewrite Hmap.
        apply (f_equal (fun b : bool => if b then _ else _)).
        apply bool_decide_ext. rewrite elem_of_app, list_elem_of_singleton.
        split; [tauto|]. intros [[?| ->] Hpend]; [tauto|].
        split; [|done].
        destruct (decide (j ∈ omap truthyId hs)) as [|Hnotin]; [done|].
        exfalso. apply Hp. rewrite Hmap, bool_decide_eq_false_2; tauto.
      * exists extra. split; [done|]. split; [done|]. split; [done|].
        intros i. rewrite Hin, elem_of_app, list_elem_of_singleton.
        split; [tauto|]. intros [[?| ->] Hpend]; [tauto|].
        split; [|done].
        destruct (decide (j ∈ omap truthyId hs)) as [|Hnotin]; [done|].
        exfalso. apply Hp. rewrite Hmap, bool_decide_eq_false_2; tauto.
Qed.

(** X14.  The command that approves a file ([syncStatuses], then
    [approveAll]) leaves under the file's path a map with exactly the
    identities of the file's hunks, each one approved, except that an
    identity stored as rejected stays so; the other paths are untouched.
    The array [getStatusArray] returns afterwards says the same, hunk by
    hunk, a hunk without identity being pending; and [isFileResolved] is
    true exactly when the file has an identity and none was stored as
    rejected. *)
Theorem approveFile_resolves (file : DiffFile) (st : StateManager) :
  let path := pathOf file in
  let prior := default ∅ (statuses st !! path) in
  let final := fun i => if bool_decide (prior !! i = Some rejected)
                        then rejected else approved in
  let st' := approveFile file st in
  (exists m', statuses st' !! path = Some m' /\
     forall i, m' !! i = if bool_decide (i ∈ identities file)
                         then Some (final i) else None) /\
  (forall p, p <> path -> statuses st' !! p = statuses st !! p) /\
  (forall k h, hunks file !! k = Some h ->
     getStatusArray file st' !! k =
     Some (match truthyId h with Some i => final i | None => pending end)) /\
  (isFileResolved path st' = true <->
   identities file <> [] /\
   forall i, i ∈ identities file -> prior !! i <> Some rejected).
Proof.
  cbv zeta. unfold approveFile.
  rewrite (syncStatuses_unfold file st). cbn [snd].
  set (prior := default ∅ (statuses st !! pathOf file)).
  set (B := buildMap prior (hunks file)).
  unfold approveAll. rewrite statuses_persist. cbn [statuses setStatuses].
  rewrite lookup_insert_eq.
  rewrite undoStack_persist. cbn [undoStack setStatuses].
  pose proof (approveAll_loop (pathOf file) (hunks file) B (undoStack st))
    as [Hmap _].
  cbv zeta in Hmap.
  destruct (foldl _ (B, undoStack st) (hunks file)) as [m' stack'].
  cbn [fst] in Hmap.
  rewrite statuses_persist. cbn [statuses].
  rewrite insert_insert_eq.
  assert (Hm' : forall i, m' !! i =
            if bool_decide (i ∈ identities file)
            then Some (if bool_decide (prior !! i = Some rejected)
                       then rejected else approved) else None).
  { intros i. rewrite Hmap. unfold B. rewrite buildMap_lookup.
    fold (identities file).
    destruct (bool_decide (i ∈ identities file)) eqn:Ein.
    - apply bool_decide_eq_true in Ein.
      destruct (prior !! i) as [[]|] eqn:Ei; simpl;
        case_bool_decide as Hc; try done;
        solve [destruct Hc; discriminate | exfalso; apply Hc; done].
    - apply bool_decide_eq_false in Ein.
      rewrite bool_decide_eq_false_2; [done|]. intros [? _]. done. }
  split; [|split; [|split]].
  - exists m'. now rewrite lookup_insert_eq.
  - intros p Hp. now rewrite lookup_insert_ne.
  - intros k h Hk. unfold getStatusArray. rewrite statuses_persist.
    cbn [statuses]. rewrite lookup_insert_eq.
    rewrite (statusArray_lookup _ _ _ _ Hk).
    destruct (truthyId h) as [i|] eqn:Hi; [|done].
    rewrite Hm', bool_decide_eq_true_2; [done|].
    apply list_elem_of_omap. exists h. split; [|done].
    eapply list_elem_of_lookup_2, Hk.
  - unfold isFileResolved. rewrite statuses_persist. cbn [statuses].
    rewrite lookup_insert_eq.
    case_bool_decide as Hsize.
    + apply map_size_empty_iff in Hsize. split; [done|]. intros [Hne _].
      exfalso. destruct (identities file) as [|i ids] eqn:Hids; [done|].
      pose proof (Hm' i) as Hi. rewrite Hsize, lookup_empty in Hi.
      rewrite bool_decide_eq_true_2 in Hi; [done|]. apply list_elem_of_here.
    + rewrite bool_decide_eq_true. split.
      * intros Hall. split.
        -- intros Hnil. apply Hsize. apply map_size_empty_iff, map_eq.
           intros i. rewrite Hm', Hnil, lookup_empty.
           rewrite bool_decide_eq_false_2; [done|]. apply not_elem_of_nil.
        -- intros i Hin Hrej.
           specialize (Hall i rejected).
           rewrite Hm', bool_decide_eq_true_2, bool_decide_eq_true_2 in Hall
             by done.
           specialize (Hall eq_refl). discriminate.
      * intros [_ Hok] i s. rewrite Hm'.
        case_bool_decide as Hin; [|done].
        rewrite bool_decide_eq_false_2 by auto. now intros [= <-].
Qed.

(** X15.  [approveAll] for a path that has a status map puts one entry
    on the undo stack for every identity of the file's hunks that was
    pending, and no other: the entries come after the ones that were
    there, each is an [approve] entry of the path without patch text, and
    no identity gets two. *)
Theorem approveAll_undo_entries (path : string) (file : DiffFile)
  (st : StateManager) (m : gmap string HunkStatus) :
  statuses st !! path = Some m ->
  exists extra,
    undoStack (approveAll path file st) = undoStack st ++ extra /\
    Forall (fun e => entryType e = approve_t /\ filePath e = path /\
                     forwardPatch e = None) extra /\
    NoDup (map hunkId extra) /\
    (forall i, i ∈ map hunkId extra <->
               i ∈ identities file /\ m !! i = Some pending).
Proof.
  intros Hm. unfold approveAll. rewrite Hm.
  pose proof (approveAll_loop path (hunks file) m (undoStack st))
    as [_ (extra & Hstack & Hall & Hnd & Hin)].
  cbv zeta in Hstack.
  destruct (foldl _ (m, undoStack st) (hunks file)) as [m' stack'].
  cbn [snd] in Hstack. rewrite undoStack_persist. cbn [undoStack].
  exists extra. done.
Qed.

Lemma approveAll_undo_entries_witness :
  exists extra,
    undoStack (approveAll "test.txt" shiftedFile shiftedBefore) =
      undoStack shiftedBefore ++ extra /\
    Forall (fun e => entryType e = approve_t /\ filePath e = "test.txt" /\
                     forwardPatch e = None) extra /\
    NoDup (map hunkId extra) /\
    (forall i, i ∈ map hunkId extra <->
               i ∈ identities shiftedFile /\
               ({["hunk-A" := pending; "hunk-B" := approved]} : gmap string HunkStatus)
                 !! i = Some pending).
Proof.
  apply (approveAll_undo_entries "test.txt" shiftedFile shiftedBefore
           {["hunk-A" := pending; "hunk-B" := approved]}).
  vm_compute. reflexivity.
Defined.

(** [removeLastMatch] takes out the last entry that passes the test and
    keeps the others in their order. *)
Lemma removeLastMatch_spec test (l1 l2 : list UndoEntry) e :
  test e = true -> Forall (fun e' => test e' = false) l2 ->
  removeLastMatch test (l1 ++ e :: l2) = l1 ++ l2.
Proof.
  intros He Hl2.
  assert (Hex : existsb test l2 = false).
  { induction Hl2 as [|x l2 Hx _ IH]; [done|]. simpl. now rewrite Hx, IH. }
  induction l1 as [|x l1 IH]; simpl.
  - now rewrite Hex, He.
  - rewrite IH. replace (existsb test (l1 ++ e :: l2)) with true; [done|].
    symmetry. rewrite existsb_app. simpl. rewrite He. now rewrite orb_true_r.
Qed.

Lemma removeLastMatch_none test (l : list UndoEntry) :
  Forall (fun e' => test e' = false) l -> removeLastMatch test l = l.
Proof.
  induction 1 as [|x l Hx Hl IH]; [done|]. simpl. rewrite Hx.
  destruct (existsb test l); [now rewrite IH|done].
Qed.

(** X16.  [undoApprove] of an approved identity sets it back to pending
    and takes exactly one entry off the undo stack: the latest [approve]
    entry of that path and identity; the entries before and after it keep
    their order.  When the stack has no such entry it is left as it is.
    In particular [undoApprove] right after [approve] of a pending
    identity restores the status maps and the undo stack. *)
Theorem undoApprove_removes_latest_entry (filePath ident : string)
  (st : StateManager) (m : gmap string HunkStatus) :
  statuses st !! filePath = Some m ->
  (m !! ident = Some approved ->
   statuses (undoApprove filePath ident st) =
     <[filePath := <[ident := pending]> m]> (statuses st) /\
   (forall l1 e l2,
      undoStack st = l1 ++ e :: l2 -> isApproveOf filePath ident e = true ->
      Forall (fun e' => isApproveOf filePath ident e' = false) l2 ->
      undoStack (undoApprove filePath ident st) = l1 ++ l2) /\
   (Forall (fun e' => isApproveOf filePath ident e' = false) (undoStack st) ->
    undoStack (undoApprove filePath ident st) = undoStack st)) /\
  (m !! ident = Some pending ->
   undoApprove filePath ident (approve filePath ident st) = persist st).
Proof.
  intros Hm. split.
  - intros Happ. unfold undoApprove. rewrite Hm, bool_decide_eq_true_2 by done.
    rewrite statuses_persist, undoStack_persist. cbn [statuses undoStack].
    split; [done|]. split.
    + intros l1 e l2 -> He Hl2. now apply removeLastMatch_spec.
    + apply removeLastMatch_none.
  - intros Hpend. unfold approve. rewrite Hm, bool_decide_eq_true_2 by eauto.
    unfold undoApprove. rewrite statuses_persist. cbn [statuses].
    rewrite lookup_insert_eq, lookup_insert_eq, bool_decide_eq_true_2 by done.
    rewrite undoStack_persist. cbn [undoStack].
    rewrite insert_insert_eq, insert_insert_eq.
    rewrite (insert_id m) by done. rewrite (insert_id (statuses st)) by done.
    rewrite (removeLastMatch_spec _ (undoStack st) []);
      [|unfold isApproveOf; simpl; now rewrite !bool_decide_eq_true_2|constructor].
    rewrite app_nil_r.
    clear. destruct st as [sts stack [blob|]]; reflexivity.
Qed.

Lemma undoApprove_removes_latest_entry_witness :
  (statuses (undoApprove "test.txt" "hunk-A" twoApproved) =
     <["test.txt" := <["hunk-A" := pending]>
        ({["hunk-A" := approved; "hunk-B" := approved]} : gmap string HunkStatus)]>
       (statuses twoApproved) /\
   (forall l1 e l2,
      undoStack twoApproved = l1 ++ e :: l2 ->
      isApproveOf "test.txt" "hunk-A" e = true ->
      Forall (fun e' => isApproveOf "test.txt" "hunk-A" e' = false) l2 ->
      undoStack (undoApprove "test.txt" "hunk-A" twoApproved) = l1 ++ l2) /\
   (Forall (fun e' => isApproveOf "test.txt" "hunk-A" e' = false)
           (undoStack twoApproved) ->
    undoStack (undoApprove "test.txt" "hunk-A" twoApproved) =
      undoStack twoApproved)).
Proof.
  assert (Hm : statuses twoApproved !! "test.txt" =
               Some ({["hunk-A" := approved; "hunk-B" := approved]}
                       : gmap string HunkStatus))
    by (vm_compute; reflexivity).
  apply (proj1 (undoApprove_removes_latest_entry "test.txt" "hunk-A" twoApproved
                  _ Hm)).
  vm_compute. reflexivity.
Defined.
(** X17.  [pruneCommittedFiles] keeps the status map of every path of the
    given files as it is and removes the maps of all other paths; it
    never touches the undo stack, so entries of removed paths stay on it;
    doing it twice is doing it once; and the statuses reported for the
    given files are the ones reported before. *)
Theorem pruneCommittedFiles_keeps_current (files : list DiffFile)
  (st : StateManager) :
  let st' := pruneCommittedFiles files st in
  (forall p, statuses st' !! p =
             if bool_decide (p ∈ map pathOf files) then statuses st !! p
             else None) /\
  undoStack st' = undoStack st /\
  pruneCommittedFiles files st' = st' /\
  (forall file, file ∈ files ->
     getStatusArray file st' = getStatusArray file st).
Proof.
  cbv zeta.
  set (kept := filter (fun kv : string * gmap string HunkStatus =>
                         kv.1 ∈ (list_to_set (map pathOf files) : gset string))
                      (statuses st)).
  assert (Hkept : forall p, kept !! p =
            if bool_decide (p ∈ map pathOf files) then statuses st !! p
            else None).
  { intros p. apply option_eq. intros m. unfold kept.
    rewrite map_lookup_filter_Some. cbn [fst].
    rewrite elem_of_list_to_set.
    case_bool_decide; [tauto|]. split; [tauto|done]. }
  assert (Hst : statuses (pruneCommittedFiles files st) = kept /\
                undoStack (pruneCommittedFiles files st) = undoStack st).
  { unfold pruneCommittedFiles. fold kept. case_bool_decide as Hch; simpl.
    - now rewrite statuses_persist, undoStack_persist.
    - split; [|done]. symmetry. now apply dec_stable. }
  destruct Hst as [Hs Hu].
  split; [|split; [|split]].
  - intros p. now rewrite Hs.
  - exact Hu.
  - unfold pruneCommittedFiles at 1. rewrite Hs.
    rewrite bool_decide_eq_false_2; [done|]. intros Hne. apply Hne.
    apply map_eq. intros p. apply option_eq. intros m.
    rewrite map_lookup_filter_Some. cbn [fst]. rewrite Hkept.
    rewrite elem_of_list_to_set.
    case_bool_decide; [tauto|]. split; [tauto|done].
  - intros file Hin. unfold getStatusArray. rewrite Hs, Hkept.
    rewrite bool_decide_eq_true_2; [done|].
    apply list_elem_of_fmap. now exists file.
Qed.

Lemma getStatusArray_lookup file st k h :
  hunks file !! k = Some h ->
  getStatusArray file st !! k =
  Some (match truthyId h with
        | Some i => statusOf st (pathOf file) i
        | None => pending
        end).
Proof.
  intros Hk. unfold getStatusArray, statusOf, statusEntry.
  destruct (statuses st !! pathOf file) as [m|]; simpl.
  - now apply statusArray_lookup.
  - rewrite list_lookup_fmap, Hk. simpl. now destruct (truthyId h).
Qed.

Lemma getStatusArray_lookup_None file st k :
  hunks file !! k = None -> getStatusArray file st !! k = None.
Proof.
  intros Hk. unfold getStatusArray, statusArray.
  destruct (statuses st !! pathOf file); now rewrite list_lookup_fmap, Hk.
Qed.

(** X18.  A restart keeps the approvals and nothing else: an engine built
    on the memento of an engine whose blob is up to date has an empty undo
    stack and reports, for every file and hunk by hunk, approved where
    the old engine reported approved and pending everywhere else; except
    that under the path or the identity [protoKey], which the stored
    object cannot hold, an approval is lost and the hunk is pending.  Its
    blob is up to date as well. *)
Theorem restart_keeps_approvals (st : StateManager) (blob : option Blob)
  (file : DiffFile) :
  storage st = Some blob -> storageInSync st ->
  let st' := newStateManager (storage st) in
  undoStack st' = [] /\
  (forall k h, hunks file !! k = Some h ->
     getStatusArray file st' !! k =
     Some (match truthyId h with
           | Some i =>
             if bool_decide (pathOf file = protoKey \/ i = protoKey)
             then pending
             else afterRestart (statusOf st (pathOf file) i)
           | None => pending
           end)) /\
  (pathOf file <> protoKey ->
   Forall (fun h => truthyId h <> Some protoKey) (hunks file) ->
   getStatusArray file st' = map afterRestart (getStatusArray file st)) /\
  storageInSync st'.
Proof.
  intros Hsto Hsync. cbv zeta. unfold storageInSync in Hsync.
  rewrite Hsto in *.
  assert (Hsts : statuses (newStateManager (Some blob)) = persistData (statuses st)).
  { rewrite <- Hsync. now destruct blob. }
  assert (Hent : forall i,
    statusOf (newStateManager (Some blob)) (pathOf file) i =
    if bool_decide (pathOf file = protoKey \/ i = protoKey) then pending
    else afterRestart (statusOf st (pathOf file) i)).
  { intros i. unfold statusOf. rewrite Hsts.
    pose proof (persistData_entry (statuses st) (pathOf file) i) as He.
    destruct (statusEntry (persistData (statuses st)) (pathOf file) i) as [s|] eqn:Es.
    - destruct (proj1 (He s) eq_refl) as (-> & Happ & Hp & Hi).
      rewrite bool_decide_eq_false_2 by tauto. now rewrite Happ.
    - cbn [default]. case_bool_decide as Hproto; [done|].
      destruct (statusEntry (statuses st) (pathOf file) i) as [[]|] eqn:E; try done.
      exfalso. assert (Hsome : None = Some approved); [|done].
      apply (He approved). repeat split; auto. }
  assert (Hpoint : forall k h, hunks file !! k = Some h ->
     getStatusArray file (newStateManager (Some blob)) !! k =
     Some (match truthyId h with
           | Some i =>
             if bool_decide (pathOf file = protoKey \/ i = protoKey)
             then pending
             else afterRestart (statusOf st (pathOf file) i)
           | None => pending
           end)).
  { intros k h Hk. rewrite (getStatusArray_lookup _ _ _ _ Hk).
    destruct (truthyId h); [now rewrite Hent|done]. }
  split; [done|]. split; [exact Hpoint|]. split.
  - intros Hpath Hids. apply list_eq. intros k. rewrite list_lookup_fmap.
    destruct (hunks file !! k) as [h|] eqn:Hk.
    + rewrite (Hpoint _ _ Hk), (getStatusArray_lookup _ _ _ _ Hk). simpl.
      rewrite Forall_forall in Hids.
      specialize (Hids h (list_elem_of_lookup_2 _ _ _ Hk)).
      destruct (truthyId h) as [i|]; [|done].
      rewrite bool_decide_eq_false_2; [done|]. intros [?| ->]; done.
    + now rewrite !(getStatusArray_lookup_None _ _ _ Hk).
  - unfold storageInSync. cbn [storage newStateManager].
    rewrite Hsts. cbn [default]. rewrite Hsync. symmetry.
    apply persistData_idempotent.
Qed.

Lemma restart_keeps_approvals_witness :
  undoStack (newStateManager (storage shiftedBefore)) = [] /\
  getStatusArray shiftedFile (newStateManager (storage shiftedBefore)) =
    map afterRestart (getStatusArray shiftedFile shiftedBefore) /\
  storageInSync (newStateManager (storage shiftedBefore)).
Proof.
  destruct (restart_keeps_approvals shiftedBefore
              (Some {["test.txt" := {["hunk-B" := approved]}]}) shiftedFile)
    as (Hstack & _ & Harr & Hsync).
  - vm_compute. reflexivity.
  - vm_compute. reflexivity.
  - split; [exact Hstack|]. split; [|exact Hsync].
    apply Harr; [discriminate|]. repeat constructor; discriminate.
Defined.

Section RejectFacts.
Context {World : Type} `{git : GitAdapter World}.

(** X19.  After a [reject] that went through, the last entry of the undo
    stack holds the very patch text that was handed to [applyReverse],
    and [undo] hands that text to [applyForward] in the world the
    [reject] left.  [reject] returns the first file the collaborator
    answered with, or [null] when it answered with none.  Whether
    [applyForward] returns or throws, [undo] has taken the entry off the
    stack, and the status maps are as [reject] left them. *)
Theorem reject_then_undo_same_patch (path ident : string) (file : DiffFile)
  (hunk : DiffHunk) (fresh : list DiffFile) (st : StateManager)
  (w w1 w2 : World) :
  find (fun h => bool_decide (id h = Some ident)) (hunks file) = Some hunk ->
  applyReverse (buildPatch file hunk) w = (Returned tt, w1) ->
  getFileDiff path w1 = (Returned fresh, w2) ->
  exists st',
    reject path ident file st w = (Returned (head fresh), st', w2) /\
    undoStack st' = undoStack st ++
      [{| entryType := reject_t; filePath := path; hunkId := ident;
          forwardPatch := Some (buildPatch file hunk) |}] /\
    forall o w3, applyForward (buildPatch file hunk) w2 = (o, w3) ->
      exists st'',
        undo st' w2 =
          (match o with
           | Returned _ => Returned (Some (path, reject_t))
           | Rejected => Rejected
           end, st'', w3) /\
        undoStack st'' = undoStack st /\ statuses st'' = statuses st'.
Proof.
  intros Hfind Hrev Hdiff.
  set (entry := {| entryType := reject_t; filePath := path; hunkId := ident;
                   forwardPatch := Some (buildPatch file hunk) |}).
  assert (Hundo : forall st', undoStack st' = undoStack st ++ [entry] ->
    forall o w3, applyForward (buildPatch file hunk) w2 = (o, w3) ->
      exists st'',
        undo st' w2 =
          (match o with
           | Returned _ => Returned (Some (path, reject_t))
           | Rejected => Rejected
           end, st'', w3) /\
        undoStack st'' = undoStack st /\ statuses st'' = statuses st').
  { intros st' Hstack o w3 Hfwd. unfold undo.
    rewrite Hstack, last_snoc, removelast_last. cbn [entryType forwardPatch entry].
    rewrite bool_decide_eq_false_2 by apply buildPatch_nonempty.
    rewrite Hfwd. destruct o; eexists; (split; [reflexivity|]).
    - now rewrite undoStack_persist, statuses_persist.
    - done. }
  unfold reject. rewrite Hfind, Hrev.
  cbn [statuses undoStack setUndoStack]. rewrite Hdiff.
  destruct fresh as [|freshFile rest]; cbn [head].
  - eexists. split; [reflexivity|].
    assert (Hstack : forall sts,
      undoStack (persist (setStatuses
        (match statuses st !! path with
         | Some m => setStatuses (setUndoStack st (undoStack st ++ [entry]))
                       (<[path := delete ident m]> (statuses st))
         | None => setUndoStack st (undoStack st ++ [entry])
         end) sts)) = undoStack st ++ [entry]).
    { intros sts. rewrite undoStack_persist.
      now destruct (statuses st !! path). }
    split; [apply Hstack|]. apply Hundo, Hstack.
  - eexists. split; [reflexivity|].
    assert (Hstack :
      undoStack (syncStatuses freshFile
        (match statuses st !! path with
         | Some m => setStatuses (setUndoStack st (undoStack st ++ [entry]))
                       (<[path := delete ident m]> (statuses st))
         | None => setUndoStack st (undoStack st ++ [entry])
         end)).2 = undoStack st ++ [entry]).
    { rewrite syncStatuses_unfold. cbn [snd]. rewrite undoStack_persist.
      now destruct (statuses st !! path). }
    split; [apply Hstack|]. apply Hundo, Hstack.
Qed.
End RejectFacts.

Lemma reject_then_undo_same_patch_witness :
  let file := makeFile [makeHunk "hunk-A"] in
  exists st',
    reject "test.txt" "hunk-A" file (newStateManager None) freshMock =
      (Returned None, st',
       {| appliedReverse := [buildPatch file (makeHunk "hunk-A")];
          appliedForward := []; nextFileDiff := [] |}) /\
    undoStack st' =
      [{| entryType := reject_t; filePath := "test.txt"; hunkId := "hunk-A";
          forwardPatch := Some (buildPatch file (makeHunk "hunk-A")) |}] /\
    forall o w3,
      applyForward (buildPatch file (makeHunk "hunk-A"))
        {| appliedReverse := [buildPatch file (makeHunk "hunk-A")];
           appliedForward := []; nextFileDiff := [] |} = (o, w3) ->
      exists st'',
        undo st' {| appliedReverse := [buildPatch file (makeHunk "hunk-A")];
                    appliedForward := []; nextFileDiff := [] |} =
          (match o with
           | Returned _ => Returned (Some ("test.txt", reject_t))
           | Rejected => Rejected
           end, st'', w3) /\
        undoStack st'' = [] /\ statuses st'' = statuses st'.
Proof.
  cbv zeta.
  apply (reject_then_undo_same_patch "test.txt" "hunk-A"
           (makeFile [makeHunk "hunk-A"]) (makeHunk "hunk-A") []
           (newStateManager None) freshMock
           {| appliedReverse := [buildPatch (makeFile [makeHunk "hunk-A"])
                                            (makeHunk "hunk-A")];
              appliedForward := []; nextFileDiff := [] |}
           {| appliedReverse := [buildPatch (makeFile [makeHunk "hunk-A"])
                                            (makeHunk "hunk-A")];
              appliedForward := []; nextFileDiff := [] |});
    reflexivity.
Defined.

(** *** The status that is never stored *)

Lemma neverRejected_insert st sts p m :
  neverRejected st -> statuses st = sts ->
  (forall i, m !! i <> Some rejected) ->
  forall st', statuses st' = <[p := m]> sts -> neverRejected st'.
Proof.
  intros Hst <- Hm st' Hst' q m' i. rewrite Hst'.
  destruct (decide (q = p)) as [->|Hne].
  - rewrite lookup_insert_eq. intros [= <-]. apply Hm.
  - rewrite lookup_insert_ne by done. apply Hst.
Qed.

Lemma neverRejected_same st st' :
  neverRejected st -> statuses st' = statuses st -> neverRejected st'.
Proof. intros Hst Heq q m i. rewrite Heq. apply Hst. Qed.

Lemma buildMap_not_rejected prior hs :
  (forall i, prior !! i <> Some rejected) ->
  forall i, buildMap prior hs !! i <> Some rejected.
Proof.
  intros Hprior i. rewrite buildMap_lookup. case_bool_decide; [|done].
  specialize (Hprior i). destruct (prior !! i) as [[]|]; simpl; congruence.
Qed.

Lemma syncStatuses_neverRejected file st :
  neverRejected st -> neverRejected (syncStatuses file st).2.
Proof.
  intros Hst. rewrite syncStatuses_unfold. cbn [snd].
  eapply (neverRejected_insert st); [done|reflexivity| |].
  2: { rewrite statuses_persist. reflexivity. }
  apply buildMap_not_rejected. intros i.
  destruct (statuses st !! pathOf file) as [m|] eqn:Em; simpl.
  - now apply (Hst _ _ _ Em).
  - now rewrite lookup_empty.
Qed.

Section NeverRejected.
Context {World : Type} `{git : GitAdapter World}.

(** X20.  The engine never stores the status rejected: when no status
    map holds it, none holds it after any operation, whatever the
    collaborator answers; and the arrays [syncStatuses] and
    [getStatusArray] return have no rejected entry.  A rejected hunk is
    taken out of its map instead. *)
Theorem engine_never_stores_rejected (st : StateManager) (w : World) :
  neverRejected st ->
  (forall file,
     neverRejected (syncStatuses file st).2 /\
     Forall (fun s => s <> rejected) (syncStatuses file st).1 /\
     Forall (fun s => s <> rejected) (getStatusArray file st)) /\
  (forall path ident, neverRejected (approve path ident st)) /\
  (forall path file, neverRejected (approveAll path file st)) /\
  (forall path ident, neverRejected (undoApprove path ident st)) /\
  neverRejected (clear st) /\
  (forall files, neverRejected (pruneCommittedFiles files st)) /\
  (forall path ident file, neverRejected (reject path ident file st w).1.2) /\
  neverRejected (undo st w).1.2.
Proof.
  intros Hst.
  assert (Harr : forall (m : gmap string HunkStatus) hs,
            (forall i, m !! i <> Some rejected) ->
            Forall (fun s => s <> rejected) (statusArray m hs)).
  { intros m hs Hm. unfold statusArray. apply Forall_map, Forall_forall.
    intros h _. destruct (truthyId h) as [i|]; [|done].
    specialize (Hm i). destruct (m !! i) as [[]|]; simpl; congruence. }
  split; [|split; [|split; [|split; [|split; [|split; [|split]]]]]].
  - intros file. split; [now apply syncStatuses_neverRejected|]. split.
    + rewrite syncStatuses_unfold. cbn [fst]. apply Harr.
      apply buildMap_not_rejected. intros i.
      destruct (statuses st !! pathOf file) as [m|] eqn:Em; simpl.
      * now apply (Hst _ _ _ Em).
      * now rewrite lookup_empty.
    + unfold getStatusArray.
      destruct (statuses st !! pathOf file) as [m|] eqn:Em.
      * apply Harr. intros i. now apply (Hst _ _ _ Em).
      * apply Forall_map, Forall_forall. done.
  - intros path ident. unfold approve.
    destruct (statuses st !! path) as [m|] eqn:Em; [|done].
    case_bool_decide; [|done].
    eapply (neverRejected_insert st); [done|reflexivity| |].
    2: { rewrite statuses_persist. reflexivity. }
    intros i. destruct (decide (i = ident)) as [->|Hne].
    + now rewrite lookup_insert_eq.
    + rewrite lookup_insert_ne by done. now apply (Hst _ _ _ Em).
  - intros path file. unfold approveAll.
    destruct (statuses st !! path) as [m|] eqn:Em; [|done].
    pose proof (approveAll_loop path (hunks file) m (undoStack st)) as [Hmap _].
    cbv zeta in Hmap.
    destruct (foldl _ (m, undoStack st) (hunks file)) as [m' stack'].
    cbn [fst] in Hmap.
    eapply (neverRejected_insert st); [done|reflexivity| |].
    2: { rewrite statuses_persist. reflexivity. }
    intros i. rewrite Hmap. case_bool_decide; [done|]. now apply (Hst _ _ _ Em).
  - intros path ident. unfold undoApprove.
    destruct (statuses st !! path) as [m|] eqn:Em; [|done].
    case_bool_decide; [|done].
    eapply (neverRejected_insert st); [done|reflexivity| |].
    2: { rewrite statuses_persist. reflexivity. }
    intros i. destruct (decide (i = ident)) as [->|Hne].
    + now rewrite lookup_insert_eq.
    + rewrite lookup_insert_ne by done. now apply (Hst _ _ _ Em).
  - unfold clear. intros p m i. rewrite statuses_persist. cbn [statuses].
    now rewrite lookup_empty.
  - intros files. unfold pruneCommittedFiles. case_bool_decide; [|done].
    intros p m i. rewrite statuses_persist. cbn [statuses setStatuses].
    rewrite map_lookup_filter_Some. intros [Hm _]. now apply (Hst _ _ _ Hm).
  - intros path ident file. unfold reject.
    destruct (find _ (hunks file)) as [hunk|]; [|done].
    destruct (applyReverse (buildPatch file hunk) w) as [[u|] w1]; [|done].
    set (st0 := setUndoStack st _).
    assert (H0 : neverRejected st0) by (now apply (neverRejected_same st)).
    set (st1 := match statuses st0 !! path with
                | Some m => setStatuses st0 (<[path := delete ident m]> (statuses st0))
                | None => st0
                end).
    assert (H1 : neverRejected st1).
    { subst st1. destruct (statuses st0 !! path) as [m|] eqn:Em; [|done].
      eapply (neverRejected_insert st0); [done|reflexivity| |reflexivity].
      intros i. destruct (decide (i = ident)) as [->|Hne].
      + now rewrite lookup_delete_eq.
      + rewrite lookup_delete_ne by done. now apply (H0 _ _ _ Em). }
    destruct (getFileDiff path w1) as [[[|freshFile rest]|] w2]; cbn [fst snd].
    + intros p m i. rewrite statuses_persist. cbn [statuses setStatuses].
      intros [_ Hm]%lookup_delete_Some. now apply (H1 _ _ _ Hm).
    + now apply syncStatuses_neverRejected.
    + exact H1.
  - unfold undo. destruct (last (undoStack st)) as [entry|]; [|done].
    set (st0 := setUndoStack st _).
    assert (H0 : neverRejected st0) by (now apply (neverRejected_same st)).
    destruct (entryType entry).
    + cbn [fst snd].
      destruct (statuses st0 !! filePath entry) as [m|] eqn:Em.
      * case_bool_decide.
        -- eapply (neverRejected_insert st0); [done|reflexivity| |].
           2: { rewrite statuses_persist. reflexivity. }
           intros i. destruct (decide (i = hunkId entry)) as [->|Hne].
           ++ now rewrite lookup_insert_eq.
           ++ rewrite lookup_insert_ne by done. now apply (H0 _ _ _ Em).
        -- apply (neverRejected_same st0); [done|apply statuses_persist].
      * apply (neverRejected_same st0); [done|apply statuses_persist].
    + destruct (forwardPatch entry) as [p|].
      * case_bool_decide.
        -- apply (neverRejected_same st0); [done|apply statuses_persist].
        -- destruct (applyForward p w) as [[u|] w1]; cbn [fst snd].
           ++ apply (neverRejected_same st0); [done|apply statuses_persist].
           ++ exact H0.
      * apply (neverRejected_same st0); [done|apply statuses_persist].
Qed.
End NeverRejected.

Lemma newStateManager_neverRejected :
  neverRejected (newStateManager (Some None)).
Proof. intros p m i Hm. cbn in Hm. now rewrite lookup_empty in Hm. Qed.

Lemma engine_never_stores_rejected_witness :
  neverRejected
    (syncStatuses shiftedFile (newStateManager (Some None))).2 /\
  Forall (fun s => s <> rejected)
    (syncStatuses shiftedFile (newStateManager (Some None))).1 /\
  Forall (fun s => s <> rejected)
    (getStatusArray shiftedFile (newStateManager (Some None))).
Proof.
  apply (proj1 (engine_never_stores_rejected (newStateManager (Some None))
                  freshMock newStateManager_neverRejected) shiftedFile).
Defined.


(** *** Rejecting a whole file *)

Lemma firstPending_None m hs :
  firstPending m hs = None <->
  forall h i, h ∈ hs -> truthyId h = Some i -> m !! i <> Some pending.
Proof.
  unfold firstPending.
  destruct (list_find _ (omap truthyId hs)) as [[k i]|] eqn:Hf; simpl.
  - split; [done|]. intros Hall. exfalso.
    apply list_find_Some in Hf as (Hk & Hp & _).
    apply list_elem_of_lookup_2, list_elem_of_omap in Hk as (h & Hh & Hi).
    now apply (Hall h i).
  - split; [|done]. intros _ h i Hh Hi Hp.
    apply list_find_None in Hf. rewrite Forall_forall in Hf.
    apply (Hf i); [|done]. apply list_elem_of_omap. eauto.
Qed.

Lemma not_storedPending path file st :
  ~ storedPending path file st <->
  match statuses st !! path with
  | Some m => firstPending m (hunks file) = None
  | None => True
  end.
Proof.
  unfold storedPending. destruct (statuses st !! path) as [m|].
  - rewrite firstPending_None. split.
    + intros Hno h i Hh Hi Hp. apply Hno. exists m, h, i. done.
    + intros Hall (m' & h & i & [= <-] & Hh & Hi & Hp). now apply (Hall h i).
  - split; [done|]. intros _ (m' & h & i & Hm & _). done.
Qed.

Section RejectAllFacts.
Context {World : Type} `{git : GitAdapter World}.

(** What [reject] does to the undo stack: nothing, or one [reject] entry
    with the patch of a hunk of the file. *)
Lemma reject_stack path ident file st w :
  undoStack (reject path ident file st w).1.2 = undoStack st \/
  exists hunk,
    undoStack (reject path ident file st w).1.2 =
    undoStack st ++ [{| entryType := reject_t; filePath := path;
                        hunkId := ident;
                        forwardPatch := Some (buildPatch file hunk) |}].
Proof.
  unfold reject.
  destruct (find _ (hunks file)) as [hunk|]; [|now left].
  destruct (applyReverse (buildPatch file hunk) w) as [[u|] w1]; [|now left].
  right. exists hunk.
  set (st1 := match statuses (setUndoStack st _) !! path with
              | Some m => _
              | None => _
              end).
  assert (H1 : undoStack st1 = undoStack st ++
            [{| entryType := reject_t; filePath := path; hunkId := ident;
                forwardPatch := Some (buildPatch file hunk) |}]).
  { subst st1. now destruct (statuses (setUndoStack st _) !! path). }
  destruct (getFileDiff path w1) as [[[|freshFile rest]|] w2]; cbn [fst snd].
  - now rewrite undoStack_persist.
  - rewrite syncStatuses_unfold. cbn [snd]. now rewrite undoStack_persist.
  - exact H1.
Qed.

Lemma syncStatuses_tracked file st :
  tracked (pathOf file) file (syncStatuses file st).2.
Proof.
  rewrite syncStatuses_unfold. cbn [snd]. unfold tracked.
  rewrite statuses_persist. cbn [statuses setStatuses].
  eexists. split; [apply lookup_insert_eq|].
  intros i Hi. rewrite buildMap_lookup.
  rewrite bool_decide_eq_true_2 by exact Hi. done.
Qed.

Lemma reject_tracked path ident file st w f1 st1 w1 :
  reject path ident file st w = (Returned (Some f1), st1, w1) ->
  tracked (pathOf f1) f1 st1.
Proof.
  unfold reject.
  destruct (find _ (hunks file)) as [hunk|]; [|discriminate].
  destruct (applyReverse (buildPatch file hunk) w) as [[u|] w2]; [|discriminate].
  destruct (getFileDiff path w2) as [[[|freshFile rest]|] w3];
    [discriminate| |discriminate].
  intros [= <- <- _]. apply syncStatuses_tracked.
Qed.

Lemma rejectAll_tracked path fuel file st w file' st' w' :
  rejectAll fuel path file st w = Some (Returned (Some file'), st', w') ->
  (pathOf file = path -> tracked path file st) ->
  pathOf file' = path -> tracked path file' st'.
Proof.
  revert file st w. induction fuel as [|fuel IH]; intros file st w Hrun Hinv Hpath;
    [done|].
  cbn [rejectAll] in Hrun.
  destruct (statuses st !! path) as [m|] eqn:Em.
  2: { injection Hrun as <- <- <-. auto. }
  destruct (firstPending m (hunks file)) as [ident|] eqn:Ef.
  2: { injection Hrun as <- <- <-. auto. }
  destruct (reject path ident file st w) as [[[[f1|]|] st1] w1] eqn:Er;
    [|discriminate|discriminate].
  apply (IH _ _ _ Hrun); [|exact Hpath].
  intros <-. eapply reject_tracked, Er.
Qed.

Lemma tracked_reported file st :
  tracked (pathOf file) file st ->
  ~ storedPending (pathOf file) file st -> ~ reportedPending file st.
Proof.
  intros (m & Hm & Hall) Hno (k & h & Hk & Hid & Hp).
  rewrite (getStatusArray_lookup _ _ _ _ Hk) in Hp.
  destruct (truthyId h) as [i|] eqn:Ei; [|done].
  unfold statusOf, statusEntry in Hp. rewrite Hm in Hp. cbn [mbind option_bind] in Hp.
  destruct (Hall i) as [s Hs].
  { apply list_elem_of_omap. exists h. split; [|done].
    eapply list_elem_of_lookup_2, Hk. }
  rewrite Hs in Hp. injection Hp as ->.
  apply Hno. exists m, h, i. repeat split; try done.
  eapply list_elem_of_lookup_2, Hk.
Qed.

Lemma rejectAll_run path fuel file st (w : World) r st' w' :
  rejectAll fuel path file st w = Some (r, st', w') ->
  (forall file', r = Returned (Some file') -> ~ storedPending path file' st') /\
  exists extra,
    undoStack st' = undoStack st ++ extra /\
    Forall (fun e => entryType e = reject_t /\ filePath e = path /\
                     exists patch, forwardPatch e = Some patch /\ patch <> "")
           extra.
Proof.
  revert file st w r st' w'.
  induction fuel as [|fuel IH]; intros file st w r st' w' Hrun; [done|].
  cbn [rejectAll] in Hrun.
  assert (Hstop : ~ storedPending path file st ->
            Some (Returned (Some file), st, w) = Some (r, st', w') ->
            (forall file', r = Returned (Some file') -> ~ storedPending path file' st') /\
            exists extra,
              undoStack st' = undoStack st ++ extra /\
              Forall (fun e => entryType e = reject_t /\ filePath e = path /\
                        exists patch, forwardPatch e = Some patch /\ patch <> "")
                     extra).
  { intros Hno [= <- <- <-]. split; [now intros file' [= <-]|].
    exists []. now rewrite app_nil_r. }
  pose proof (proj1 (not_storedPending path file st)) as Hnp.
  destruct (statuses st !! path) as [m|] eqn:Em.
  2: { apply Hstop; [|done]. apply not_storedPending. now rewrite Em. }
  destruct (firstPending m (hunks file)) as [ident|] eqn:Ef.
  2: { apply Hstop; [|done]. apply not_storedPending. now rewrite Em. }
  pose proof (reject_stack path ident file st w) as Hstack.
  destruct (reject path ident file st w) as [[[[f1|]|] st1] w1] eqn:Er;
    cbn [fst snd] in Hstack.
  + destruct (IH _ _ _ _ _ _ Hrun) as (Hpost & extra & Hextra & Hall).
    split; [exact Hpost|].
    destruct Hstack as [Hsame|(hunk & Hpush)].
    * exists extra. now rewrite <- Hsame.
    * eexists (_ :: extra). rewrite Hextra, Hpush, <- app_assoc.
      split; [reflexivity|]. constructor; [|done].
      repeat split. eexists. split; [reflexivity|apply buildPatch_nonempty].
  + injection Hrun as <- <- <-. split; [done|].
    destruct Hstack as [Hsame|(hunk & Hpush)].
    * exists []. now rewrite app_nil_r.
    * eexists [_]. split; [exact Hpush|]. constructor; [|done].
      repeat split. eexists. split; [reflexivity|apply buildPatch_nonempty].
  + injection Hrun as <- <- <-. split; [done|].
    destruct Hstack as [Hsame|(hunk & Hpush)].
    * exists []. now rewrite app_nil_r.
    * eexists [_]. split; [exact Hpush|]. constructor; [|done].
      repeat split. eexists. split; [reflexivity|apply buildPatch_nonempty].
Qed.

(** X21.  [rejectAll] looks for hunks whose identity the map of the path
    holds as [pending].  On a file without such a hunk it returns the file
    at once, without a call to the collaborator and without a change of
    the engine; that is also so when the path has no map, although
    [getStatusArray] then reports every hunk as pending.  Whenever it
    returns a file, the map holds no identity of that file as [pending];
    and when the map had an entry for every identity of the file the call
    started with and the returned file has the path, the map has an entry
    for every identity of the returned file and [getStatusArray] reports
    no hunk with an identity as pending.  Whatever is returned, all that
    was added to the undo stack are [reject] entries of the path, each
    with a patch text. *)
Theorem rejectAll_until_nothing_pending (path : string) :
  (forall file st (w : World) fuel,
     ~ storedPending path file st ->
     rejectAll (S fuel) path file st w = Some (Returned (Some file), st, w)) /\
  (forall file st,
     pathOf file = path -> statuses st !! path = None ->
     ~ storedPending path file st /\
     getStatusArray file st = map (fun _ => pending) (hunks file)) /\
  (forall fuel file st (w : World) r st' w',
     rejectAll fuel path file st w = Some (r, st', w') ->
     (forall file', r = Returned (Some file') ->
        ~ storedPending path file' st' /\
        (tracked path file st -> pathOf file' = path ->
         tracked path file' st' /\ ~ reportedPending file' st')) /\
     exists extra,
       undoStack st' = undoStack st ++ extra /\
       Forall (fun e => entryType e = reject_t /\ filePath e = path /\
                        exists patch, forwardPatch e = Some patch /\ patch <> "")
              extra).
Proof.
  split; [|split].
  - intros file st w fuel Hno. apply not_storedPending in Hno.
    cbn [rejectAll]. destruct (statuses st !! path) as [m|]; [|done].
    now rewrite Hno.
  - intros file st Hpath Hnone. split.
    + apply not_storedPending. now rewrite Hnone.
    + unfold getStatusArray. now rewrite Hpath, Hnone.
  - intros fuel file st w r st' w' Hrun.
    destruct (rejectAll_run _ _ _ _ _ _ _ _ Hrun) as [Hpost Hextra].
    split; [|exact Hextra].
    intros file' ->. split; [now apply Hpost|].
    intros Htracked Hpath.
    assert (Ht : tracked path file' st').
    { eapply rejectAll_tracked; [exact Hrun|auto|exact Hpath]. }
    split; [exact Ht|].
    apply tracked_reported; rewrite Hpath; [exact Ht|now apply Hpost].
Qed.
End RejectAllFacts.

(** [hunk-A] is pending and [hunk-B] approved: one hunk is reversed, and
    the file that comes back has nothing pending. *)
Lemma rejectAll_until_nothing_pending_witness :
  let file := makeFile [makeHunk "hunk-A"; makeHunk "hunk-B"] in
  let fresh := makeFile [makeHunk "hunk-B"] in
  let g := {| reversed := []; answers := [[fresh]] |} in
  exists st' g',
    rejectAll 3 "test.txt" file shiftedBefore g =
      Some (Returned (Some fresh), st', g') /\
    length (reversed g') = 1%nat /\
    ~ storedPending "test.txt" fresh st' /\
    ~ reportedPending fresh st' /\
    exists extra,
      undoStack st' = undoStack shiftedBefore ++ extra /\
      Forall (fun e => entryType e = reject_t /\ filePath e = "test.txt" /\
                       exists patch, forwardPatch e = Some patch /\ patch <> "")
             extra.
Proof.
  cbv zeta.
  set (file := makeFile [makeHunk "hunk-A"; makeHunk "hunk-B"]).
  set (fresh := makeFile [makeHunk "hunk-B"]).
  set (g := {| reversed := []; answers := [[fresh]] |}).
  destruct (rejectAll 3 "test.txt" file shiftedBefore g) as [[[r st'] g']|] eqn:Hrun;
    [|vm_compute in Hrun; discriminate].
  assert (Hr : r = Returned (Some fresh) /\ length (reversed g') = 1%nat).
  { vm_compute in Hrun. injection Hrun as <- _ <-. split; reflexivity. }
  destruct Hr as [-> Hlen].
  assert (Htracked : tracked "test.txt" file shiftedBefore).
  { eexists. split; [vm_compute; reflexivity|].
    intros i Hi. vm_compute in Hi.
    apply elem_of_cons in Hi as [->|Hi]; [vm_compute; eauto|].
    apply elem_of_cons in Hi as [->|Hi]; [vm_compute; eauto|].
    now apply not_elem_of_nil in Hi. }
  destruct (proj2 (proj2 (rejectAll_until_nothing_pending "test.txt"))
              3%nat file shiftedBefore g (Returned (Some fresh)) st' g' Hrun)
    as [Hfile Hextra].
  destruct (Hfile fresh eq_refl) as [Hstored Hrep].
  exists st', g'. split; [reflexivity|]. split; [exact Hlen|].
  split; [exact Hstored|]. split; [|exact Hextra].
  apply Hrep; [exact Htracked|reflexivity].
Defined.

(** *** Messages of the webview *)

(** No identity of a batch occurs twice. *)
Lemma computeHunkIds_NoDup filePath hunks :
  NoDup (computeHunkIds filePath hunks).
Proof.
  pose proof (bases_length filePath hunks) as Hbases.
  rewrite Forall_forall in Hbases.
  set (bases := map (computeHunkId filePath) hunks) in *.
  apply NoDup_alt. intros i j x Hxi Hxj.
  destruct (lookup_lt_is_Some_2 bases i) as [bi Hbi].
  { unfold bases. rewrite length_map, <- (computeHunkIds_length filePath).
    eapply lookup_lt_Some, Hxi. }
  destruct (lookup_lt_is_Some_2 bases j) as [bj Hbj].
  { unfold bases. rewrite length_map, <- (computeHunkIds_length filePath).
    eapply lookup_lt_Some, Hxj. }
  rewrite (computeHunkIds_lookup _ _ _ _ Hbi) in Hxi.
  rewrite (computeHunkIds_lookup _ _ _ _ Hbj) in Hxj.
  fold bases in Hxi, Hxj. injection Hxi as Hxi. injection Hxj as Hxj.
  assert (Hli : String.length bi = 8%nat)
    by (apply Hbases; eapply list_elem_of_lookup_2, Hbi).
  assert (Hlj : String.length bj = 8%nat)
    by (apply Hbases; eapply list_elem_of_lookup_2, Hbj).
  pose proof (occ_take_total _ _ _ Hbi) as Hti.
  pose proof (occ_take_total _ _ _ Hbj) as Htj.
  assert (Hsame : bi = bj -> occ bi (take i bases) = occ bi (take j bases) -> i = j).
  { intros Hb Hocc. rewrite <- Hb in Hbj.
    destruct (Nat.lt_trichotomy i j) as [Hlt|[Heq|Hgt]]; [|done|].
    - pose proof (occ_take_lt _ _ _ _ Hbi Hlt). lia.
    - pose proof (occ_take_lt _ _ _ _ Hbj Hgt). lia. }
  unfold labelAt in Hxi, Hxj. subst x.
  case_bool_decide as Ei; case_bool_decide as Ej.
  - subst bj. apply Hsame; [done|lia].
  - exfalso. apply (f_equal String.length) in Hxj.
    rewrite !string_length_app, Hli, Hlj in Hxj. simpl in Hxj. lia.
  - exfalso. apply (f_equal String.length) in Hxj.
    rewrite !string_length_app, Hli, Hlj in Hxj. simpl in Hxj. lia.
  - apply string_app_inj_length in Hxj as [Hb Hsfx]; [|lia].
    apply string_app_inj_length in Hsfx as [_ Hsfx]; [|done].
    apply (inj pretty) in Hsfx. subst bj. apply Hsame; [done|lia].
Qed.

(** An identity of a batch is a hash, with or without suffix: it has at
    least eight characters. *)
Lemma computeHunkIds_nonempty filePath hunks x :
  x ∈ computeHunkIds filePath hunks -> x <> "".
Proof.
  intros Hin ->. apply list_elem_of_lookup_1 in Hin as [i Hi].
  destruct (lookup_lt_is_Some_2 (map (computeHunkId filePath) hunks) i) as [b Hb].
  { rewrite length_map, <- (computeHunkIds_length filePath).
    eapply lookup_lt_Some, Hi. }
  rewrite (computeHunkIds_lookup _ _ _ _ Hb) in Hi. injection Hi as Hi.
  assert (Hlen : String.length b = 8%nat).
  { pose proof (bases_length filePath hunks) as Hall.
    rewrite Forall_forall in Hall. apply Hall.
    eapply list_elem_of_lookup_2, Hb. }
  apply (f_equal String.length) in Hi. unfold labelAt in Hi.
  case_bool_decide; rewrite ?string_length_app, Hlen in Hi; simpl in Hi; lia.
Qed.

(** Every hunk of a file as [getDiff] returns it has an identity, and no
    two have the same. *)
Lemma identify_truthy f :
  map truthyId (hunks (identify f)) =
  map Some (computeHunkIds (pathOf f) (splitHunks (hunks f))).
Proof.
  pose proof (identify_ids f) as Hids.
  pose proof (computeHunkIds_nonempty (pathOf f) (splitHunks (hunks f))) as Hne.
  revert Hids Hne.
  generalize (computeHunkIds (pathOf f) (splitHunks (hunks f))).
  generalize (hunks (identify f)).
  induction l as [|h l IH]; intros [|x ids] Hids Hne; try done.
  simpl in Hids. injection Hids as Hh Hids. simpl.
  rewrite (IH ids Hids) by (intros y Hy; apply Hne; now apply list_elem_of_further).
  f_equal. unfold truthyId. rewrite Hh.
  rewrite bool_decide_eq_false_2; [done|]. apply Hne, list_elem_of_here.
Qed.

Lemma omap_map_Some {A B} (f : A -> option B) (l : list A) (ys : list B) :
  map f l = map Some ys -> omap f l = ys.
Proof.
  revert ys. induction l as [|x l IH]; intros [|y ys] Heq; try done.
  simpl in Heq. injection Heq as Hx Heq.
  change (omap f (x :: l)) with (match f x with
                                 | Some z => z :: omap f l
                                 | None => omap f l
                                 end).
  now rewrite Hx, (IH ys Heq).
Qed.

Lemma identify_identities f :
  identities (identify f) = computeHunkIds (pathOf f) (splitHunks (hunks f)).
Proof. unfold identities. apply omap_map_Some, identify_truthy. Qed.

Lemma omap_NoDup_index {A B} (f : A -> option B) (l : list A) k k' x x' y :
  NoDup (omap f l) ->
  l !! k = Some x -> l !! k' = Some x' -> f x = Some y -> f x' = Some y ->
  k = k'.
Proof.
  revert k k'. induction l as [|a l IH]; intros k k' Hnd Hk Hk' Hx Hx'; [done|].
  change (omap f (a :: l)) with (match f a with
                                 | Some z => z :: omap f l
                                 | None => omap f l
                                 end) in Hnd.
  assert (Hin : forall j z, l !! j = Some z -> f z = Some y -> y ∈ omap f l).
  { intros j z Hj Hz. apply list_elem_of_omap. exists z. split; [|done].
    eapply list_elem_of_lookup_2, Hj. }
  destruct k as [|k], k' as [|k']; simpl in Hk, Hk'.
  - done.
  - exfalso. injection Hk as ->. rewrite Hx in Hnd.
    apply NoDup_cons in Hnd as [Hnotin _]. apply Hnotin. eauto.
  - exfalso. injection Hk' as ->. rewrite Hx' in Hnd.
    apply NoDup_cons in Hnd as [Hnotin _]. apply Hnotin. eauto.
  - f_equal. apply IH; try done.
    destruct (f a); [now apply NoDup_cons in Hnd as [_ ?]|done].
Qed.

(** Setting the status of one identity changes the array at the index
    of the hunk that has it, when no other hunk has it. *)
Lemma statusArray_insert (m : gmap string HunkStatus) hs k h i s :
  NoDup (omap truthyId hs) -> hs !! k = Some h -> truthyId h = Some i ->
  statusArray (<[i := s]> m) hs = <[k := s]> (statusArray m hs).
Proof.
  intros Hnd Hk Hi. apply list_eq. intros j.
  destruct (decide (j = k)) as [->|Hne].
  - rewrite list_lookup_insert_eq.
    + rewrite (statusArray_lookup _ _ _ _ Hk), Hi. now rewrite lookup_insert_eq.
    + unfold statusArray. rewrite length_map. eapply lookup_lt_Some, Hk.
  - rewrite list_lookup_insert_ne by done.
    unfold statusArray. rewrite !list_lookup_fmap.
    destruct (hs !! j) as [h'|] eqn:Hj; [|done]. simpl. f_equal.
    destruct (truthyId h') as [i'|] eqn:Hi'; [|done].
    rewrite lookup_insert_ne; [done|]. intros <-.
    apply Hne. eapply (omap_NoDup_index truthyId hs); eauto.
Qed.

(** X22.  For a file as [getDiff] returns it (split, identities computed)
    that is the file the webview's path names, after [syncStatuses]: the
    [approve] message for hunk index [k] sets the status at index [k] of
    the file's status array to approved and leaves every other index
    as it is, and puts one entry on the undo stack; the [undo] message for
    the same index then sets index [k] back to pending and restores the
    undo stack. *)
Theorem approveMessage_flips_one_index (files : list DiffFile) (f : DiffFile)
  (k : nat) (st : StateManager) :
  let file := identify f in
  let path := pathOf file in
  find (fun f' => bool_decide (pathOf f' = path)) files = Some file ->
  (k < length (hunks file))%nat ->
  let st1 := (syncStatuses file st).2 in
  let st2 := approveMessage files path k st1 in
  let st3 := undoMessage files path k st2 in
  getStatusArray file st2 = <[k := approved]> (getStatusArray file st1) /\
  length (undoStack st2) = S (length (undoStack st1)) /\
  getStatusArray file st3 = <[k := pending]> (getStatusArray file st1) /\
  undoStack st3 = undoStack st1.
Proof.
  cbv zeta. intros Hfind Hk.
  destruct (lookup_lt_is_Some_2 _ _ Hk) as [h Hh].
  assert (Hnd : NoDup (omap truthyId (hunks (identify f)))).
  { fold (identities (identify f)). rewrite identify_identities.
    apply computeHunkIds_NoDup. }
  assert (Hi : exists i, truthyId h = Some i).
  { pose proof (identify_truthy f) as Ht.
    apply (f_equal (fun l => l !! k)) in Ht.
    rewrite !list_lookup_fmap, Hh in Ht. simpl in Ht.
    destruct (computeHunkIds _ _ !! k) as [i|]; [|done].
    exists i. now injection Ht. }
  destruct Hi as [i Hi].
  assert (Hat : hunkIdAt files (pathOf (identify f)) k = Some i).
  { unfold hunkIdAt. rewrite Hfind. cbn [mbind option_bind].
    rewrite Hh. exact Hi. }
  unfold approveMessage, undoMessage. rewrite Hat.
  rewrite (syncStatuses_unfold (identify f) st). cbn [snd].
  set (B := buildMap _ (hunks (identify f))).
  set (st1 := persist (setStatuses st _)).
  assert (Hst1 : statuses st1 !! pathOf (identify f) = Some B).
  { unfold st1. rewrite statuses_persist. cbn [statuses setStatuses].
    now rewrite lookup_insert_eq. }
  assert (HB : is_Some (B !! i)).
  { unfold B. rewrite buildMap_lookup, bool_decide_eq_true_2; [eauto|].
    apply list_elem_of_omap. exists h. split; [|done].
    eapply list_elem_of_lookup_2, Hh. }
  unfold approve. rewrite Hst1, bool_decide_eq_true_2 by done.
  set (st2 := persist _).
  assert (Hst2 : statuses st2 !! pathOf (identify f) = Some (<[i := approved]> B)).
  { unfold st2. rewrite statuses_persist. cbn [statuses].
    now rewrite lookup_insert_eq. }
  assert (Harr1 : getStatusArray (identify f) st1 = statusArray B (hunks (identify f))).
  { unfold getStatusArray. now rewrite Hst1. }
  split; [|split].
  - unfold getStatusArray. rewrite Hst2, Hst1.
    now apply (statusArray_insert _ _ _ h).
  - unfold st2. rewrite undoStack_persist. cbn [undoStack].
    rewrite length_app. simpl. lia.
  - unfold undoApprove. rewrite Hst2, lookup_insert_eq, bool_decide_eq_true_2 by done.
    split.
    + unfold getStatusArray. rewrite statuses_persist. cbn [statuses].
      rewrite lookup_insert_eq, insert_insert_eq, Hst1.
      now apply (statusArray_insert _ _ _ h).
    + rewrite undoStack_persist. cbn [undoStack].
      unfold st2. rewrite undoStack_persist. cbn [undoStack].
      rewrite (removeLastMatch_spec _ (undoStack st1) []);
        [apply app_nil_r| |constructor].
      unfold isApproveOf. simpl. now rewrite !bool_decide_eq_true_2.
Qed.

Lemma approveMessage_flips_one_index_witness :
  let file := identify (makeFile [deletionHunk]) in
  let files := [file] in
  let st1 := (syncStatuses file (newStateManager None)).2 in
  let st2 := approveMessage files "test.txt" 1 st1 in
  let st3 := undoMessage files "test.txt" 1 st2 in
  getStatusArray file st2 = [pending; approved] /\
  length (undoStack st2) = 1%nat /\
  getStatusArray file st3 = [pending; pending] /\
  undoStack st3 = [].
Proof.
  cbv zeta.
  apply (approveMessage_flips_one_index
           [identify (makeFile [deletionHunk])] (makeFile [deletionHunk]) 1
           (newStateManager None)).
  - reflexivity.
  - vm_compute. lia.
Defined.

(** X23.  For a file as [getDiff] returns it whose status map has
    exactly the identities of its hunks as keys (as it does after
    [syncStatuses] and after the approvals that follow), [isFileResolved]
    agrees with the status array: it is true exactly when the file has a
    hunk and every entry of the array is approved. *)
Theorem isFileResolved_agrees_with_array (f : DiffFile) (st : StateManager)
  (m : gmap string HunkStatus) :
  let file := identify f in
  statuses st !! pathOf file = Some m ->
  dom m = list_to_set (identities file) ->
  (isFileResolved (pathOf file) st = true <->
   hunks file <> [] /\
   Forall (fun s => s = approved) (getStatusArray file st)).
Proof.
  cbv zeta. intros Hm Hdomeq.
  assert (Hdom : forall i, is_Some (m !! i) <-> i ∈ identities (identify f)).
  { intros i. now rewrite <- elem_of_dom, Hdomeq, elem_of_list_to_set. }
  pose proof (identify_truthy f) as Htruthy.
  assert (Hhunk : forall h, h ∈ hunks (identify f) ->
            exists i, truthyId h = Some i /\ i ∈ identities (identify f)).
  { intros h Hin. apply list_elem_of_lookup_1 in Hin as [k Hk].
    pose proof (f_equal (fun l => l !! k) Htruthy) as Hl. cbv beta in Hl.
    rewrite !list_lookup_fmap, Hk in Hl.
    destruct (computeHunkIds _ _ !! k) as [i|]; [|done]. simpl in Hl.
    exists i. split; [congruence|].
    apply list_elem_of_omap. exists h. split; [|congruence].
    eapply list_elem_of_lookup_2, Hk. }
  unfold isFileResolved, getStatusArray. rewrite Hm.
  case_bool_decide as Hsize.
  - apply map_size_empty_iff in Hsize. subst m. split; [done|].
    intros [Hne _]. exfalso.
    destruct (hunks (identify f)) as [|h hs] eqn:Hhs; [done|].
    destruct (Hhunk h) as (i & _ & Hin); [apply list_elem_of_here|].
    apply Hdom in Hin as [s Hs]. now rewrite lookup_empty in Hs.
  - rewrite bool_decide_eq_true. split.
    + intros Hall. split.
      * intros Hnil. apply Hsize. apply map_size_empty_iff, map_eq. intros i.
        rewrite lookup_empty. apply eq_None_not_Some. intros His.
        apply Hdom in His. unfold identities in His. rewrite Hnil in His.
        now apply not_elem_of_nil in His.
      * unfold statusArray. apply Forall_map, Forall_forall. intros h Hin.
        destruct (Hhunk h Hin) as (i & -> & Hi).
        apply Hdom in Hi as [s Hs]. rewrite Hs. simpl. now apply (Hall i).
    + intros [_ Hall] i s Hs.
      assert (Hin : i ∈ identities (identify f)) by (apply Hdom; eauto).
      apply list_elem_of_omap in Hin as (h & Hh & Hi).
      unfold statusArray in Hall. rewrite Forall_map, Forall_forall in Hall.
      specialize (Hall h Hh). simpl in Hall. now rewrite Hi, Hs in Hall.
Qed.

Lemma isFileResolved_agrees_with_array_witness :
  let file := identify (makeFile [deletionHunk]) in
  let st := approveFile file (newStateManager None) in
  isFileResolved "test.txt" st = true <->
  hunks file <> [] /\ Forall (fun s => s = approved) (getStatusArray file st).
Proof.
  cbv zeta.
  apply (isFileResolved_agrees_with_array (makeFile [deletionHunk])
           (approveFile (identify (makeFile [deletionHunk])) (newStateManager None))
           (default ∅
              (statuses (approveFile (identify (makeFile [deletionHunk]))
                                     (newStateManager None)) !! "test.txt"))).
  - vm_compute. reflexivity.
  - vm_compute. reflexivity.
Defined.


(** ** The files handed to the engine *)

Lemma split_blank s : isBlank s = true -> Forall (fun l => isBlank l = true) (split s).
Proof.
  induction s as [|c s IH]; [now repeat constructor|].
  simpl. intros [Hc Hs]%andb_true_iff. specialize (IH Hs).
  destruct (Ascii.eqb c _); [now constructor|].
  destruct (split s) as [|l ls]; [repeat constructor; simpl; now rewrite Hc|].
  apply Forall_cons in IH as [Hl Hls]. constructor; [|done].
  simpl. now rewrite Hc, Hl.
Qed.

Lemma blank_not_file_start l :
  isBlank l = true -> startsWith l "diff --git " = false.
Proof.
  destruct l as [|c l]; [done|]. cbn [isBlank]. intros [Hc _]%andb_true_iff.
  unfold startsWith. cbn [String.prefix].
  destruct (ascii_dec "d" c) as [<-|]; [discriminate|done].
Qed.

Lemma computeHunkIds_long filePath hunks x :
  x ∈ computeHunkIds filePath hunks -> (8 <= String.length x)%nat.
Proof.
  intros Hin. apply list_elem_of_lookup_1 in Hin as [i Hi].
  destruct (lookup_lt_is_Some_2 (map (computeHunkId filePath) hunks) i) as [b Hb].
  { rewrite length_map, <- (computeHunkIds_length filePath).
    eapply lookup_lt_Some, Hi. }
  rewrite (computeHunkIds_lookup _ _ _ _ Hb) in Hi. injection Hi as <-.
  assert (Hlen : String.length b = 8%nat).
  { pose proof (bases_length filePath hunks) as Hall.
    rewrite Forall_forall in Hall. apply Hall.
    eapply list_elem_of_lookup_2, Hb. }
  unfold labelAt. case_bool_decide; rewrite ?string_length_app, Hlen; lia.
Qed.

Lemma identify_reviewable f :
  NoDup (map id (hunks (identify f))) /\ Forall reviewable (hunks (identify f)).
Proof.
  split.
  - rewrite identify_ids. apply NoDup_fmap; [intros x y [= ->]; done|].
    apply computeHunkIds_NoDup.
  - unfold identify. cbn [hunks]. apply Forall_forall. intros h' Hin.
    apply list_elem_of_lookup_1 in Hin as [k Hk].
    apply lookup_zip_with_Some in Hk as (h & i & -> & Hh & Hi).
    apply list_elem_of_lookup_2 in Hh, Hi.
    assert (Hsub : exists hunk, h ∈ splitHunk hunk).
    { unfold splitHunks in Hh. clear -Hh.
      induction (hunks f) as [|hunk hs IH]; [inversion Hh|].
      cbn [map concat] in Hh. apply elem_of_app in Hh as [Hh|Hh]; eauto. }
    destruct Hsub as [hunk Hsub].
    destruct (splitHunk_elem _ _ Hsub) as (o & n & run & -> & _ & _ & Hne & Hch & _).
    split; [|done].
    exists i. split; [done|]. eapply computeHunkIds_long, Hi.
Qed.

(** X24.  [getDiff] returns for every output of [git diff]: one file
    for every line that starts with [diff --git ] (none for blank
    output), and in every file the hunks have pairwise different
    identities, each of eight characters or more, hold changed lines
    only, at least one, and have as raw lines their header followed by
    the [+] and [-] lines of their lines: a context line or a backslash
    line of the diff is in no hunk handed to the engine. *)
Theorem getDiff_hunks_reviewable (raw : string) :
  exists files,
    getDiff raw = Ok files /\
    length files = fileStarts (split raw) /\
    Forall (fun file => NoDup (map id (hunks file)) /\
                        Forall reviewable (hunks file)) files.
Proof.
  unfold getDiff. destruct (isBlank raw) eqn:Hblank.
  - exists []. split; [done|]. split; [|constructor].
    unfold fileStarts. symmetry. apply length_zero_iff_nil.
    pose proof (split_blank raw Hblank) as Hall.
    induction Hall as [|l ls Hl _ IH]; [done|].
    rewrite filter_cons, decide_False; [exact IH|].
    now rewrite (blank_not_file_start l Hl).
  - unfold parseDiff.
    destruct (parseDiffLoop_count (split raw) (budget (split raw)) 0 [])
      as (files & -> & Hlen & _); [unfold budget; lia|].
    exists (map identify files). split; [done|].
    split; [now rewrite length_map|].
    apply Forall_map, Forall_forall. intros f _. apply identify_reviewable.
Qed.

(** *** The outcomes of a rejection *)

Section RejectOutcomes.
Context {World : Type} `{git : GitAdapter World}.

(** X25.  What [reject] leaves behind, for a hunk it finds, in each of
    its four outcomes.  When [applyReverse] throws, the engine is
    untouched.  When [applyReverse] returns and [getFileDiff] throws, the
    undo entry is on the stack and the identity is out of its map, and the
    stored blob is the one from before: nothing was written.  When
    [getFileDiff] answers with no file, the map of the path is gone, the
    maps of the other paths are as they were and the blob is up to date.
    When it answers with a file of the same path, the hunks of that file
    keep the status their identity had, the rejected identity being
    pending if it is there again, and the blob is up to date. *)
Theorem reject_outcomes (path ident : string) (file : DiffFile)
  (hunk : DiffHunk) (st : StateManager) (w : World) :
  find (fun h => bool_decide (id h = Some ident)) (hunks file) = Some hunk ->
  let entry := {| entryType := reject_t; filePath := path; hunkId := ident;
                  forwardPatch := Some (buildPatch file hunk) |} in
  let prior := default ∅ (statuses st !! path) in
  (forall w1, applyReverse (buildPatch file hunk) w = (Rejected, w1) ->
     reject path ident file st w = (Rejected, st, w1)) /\
  (forall u w1 w2,
     applyReverse (buildPatch file hunk) w = (Returned u, w1) ->
     getFileDiff path w1 = (Rejected, w2) ->
     exists st', reject path ident file st w = (Rejected, st', w2) /\
       undoStack st' = undoStack st ++ [entry] /\
       statusEntry (statuses st') path ident = None /\
       storage st' = storage st) /\
  (forall u w1 w2,
     applyReverse (buildPatch file hunk) w = (Returned u, w1) ->
     getFileDiff path w1 = (Returned [], w2) ->
     exists st', reject path ident file st w = (Returned None, st', w2) /\
       undoStack st' = undoStack st ++ [entry] /\
       statuses st' !! path = None /\
       (forall p, p <> path -> statuses st' !! p = statuses st !! p) /\
       storageInSync st') /\
  (forall u w1 w2 freshFile rest,
     applyReverse (buildPatch file hunk) w = (Returned u, w1) ->
     getFileDiff path w1 = (Returned (freshFile :: rest), w2) ->
     pathOf freshFile = path ->
     exists st', reject path ident file st w = (Returned (Some freshFile), st', w2) /\
       undoStack st' = undoStack st ++ [entry] /\
       (forall k h, hunks freshFile !! k = Some h ->
          getStatusArray freshFile st' !! k =
          Some (match truthyId h with
                | Some i => if bool_decide (i = ident) then pending
                            else default pending (prior !! i)
                | None => pending
                end)) /\
       (forall p, p <> path -> statuses st' !! p = statuses st !! p) /\
       storageInSync st').
Proof.
  intros Hfind. cbv zeta.
  set (entry := {| entryType := reject_t; filePath := path; hunkId := ident;
                   forwardPatch := Some (buildPatch file hunk) |}).
  set (st0 := setUndoStack st (undoStack st ++ [entry])).
  set (st1 := match statuses st0 !! path with
              | Some m => setStatuses st0 (<[path := delete ident m]> (statuses st0))
              | None => st0
              end).
  assert (Hstack1 : undoStack st1 = undoStack st ++ [entry]).
  { subst st1. now destruct (statuses st0 !! path). }
  assert (Hsto1 : storage st1 = storage st).
  { subst st1. now destruct (statuses st0 !! path). }
  assert (Hother1 : forall p, p <> path -> statuses st1 !! p = statuses st !! p).
  { intros p Hp. subst st1. destruct (statuses st0 !! path); [|done].
    cbn [statuses setStatuses]. now rewrite lookup_insert_ne. }
  assert (Hprior1 : forall i,
            default ∅ (statuses st1 !! path) !! i =
            if bool_decide (i = ident) then None
            else default ∅ (statuses st !! path) !! i).
  { intros i. subst st1. change (statuses st0) with (statuses st).
    destruct (statuses st !! path) as [m|] eqn:Em.
    - cbn [statuses setStatuses]. rewrite lookup_insert_eq. cbn [default].
      case_bool_decide as Hi; [subst i; apply lookup_delete_eq|].
      now apply lookup_delete_ne.
    - change (statuses st0) with (statuses st). rewrite Em. cbn [default].
      rewrite lookup_empty. now case_bool_decide. }
  split; [|split; [|split]].
  - intros w1 Hrev. unfold reject. now rewrite Hfind, Hrev.
  - intros u w1 w2 Hrev Hdiff. unfold reject. rewrite Hfind, Hrev.
    fold entry. fold st0. fold st1. rewrite Hdiff.
    exists st1. split; [done|]. split; [done|]. split; [|done].
    unfold statusEntry. specialize (Hprior1 ident).
    rewrite bool_decide_eq_true_2 in Hprior1 by done.
    destruct (statuses st1 !! path) as [m|]; [exact Hprior1|done].
  - intros u w1 w2 Hrev Hdiff. unfold reject. rewrite Hfind, Hrev.
    fold entry. fold st0. fold st1. rewrite Hdiff.
    eexists. split; [reflexivity|].
    rewrite undoStack_persist, statuses_persist. cbn [undoStack statuses setStatuses].
    split; [done|]. split; [apply lookup_delete_eq|].
    split; [|apply persist_inSync].
    intros p Hp. rewrite lookup_delete_ne by done. now apply Hother1.
  - intros u w1 w2 freshFile rest Hrev Hdiff Hpath. unfold reject.
    rewrite Hfind, Hrev. fold entry. fold st0. fold st1. rewrite Hdiff.
    eexists. split; [reflexivity|].
    rewrite syncStatuses_unfold. cbn [snd].
    rewrite undoStack_persist, statuses_persist. cbn [undoStack statuses setStatuses].
    split; [done|]. split; [|split; [|apply persist_inSync]].
    + intros k h Hk. unfold getStatusArray.
      rewrite statuses_persist. cbn [statuses setStatuses].
      rewrite lookup_insert_eq, (statusArray_buildMap _ _ _ _ Hk).
      destruct (truthyId h) as [i|]; [|done].
      rewrite Hpath, Hprior1. now case_bool_decide.
    + intros p Hp. rewrite Hpath, lookup_insert_ne by done. now apply Hother1.
Qed.
End RejectOutcomes.

(** As in the test "returns updated file when hunks remain", with the
    other hunk approved before: it keeps its approval. *)
Lemma reject_outcomes_witness :
  let file := makeFile [makeHunk "hunk-A"; makeHunk "hunk-B"] in
  let freshFile := makeFile [makeHunk "hunk-B"] in
  let g := {| appliedReverse := []; appliedForward := [];
              nextFileDiff := [freshFile] |} in
  let g' := {| appliedReverse := [buildPatch file (makeHunk "hunk-A")];
               appliedForward := []; nextFileDiff := [freshFile] |} in
  exists st',
    reject "test.txt" "hunk-A" file shiftedBefore g =
      (Returned (Some freshFile), st', g') /\
    getStatusArray freshFile st' !! 0%nat = Some approved /\
    storageInSync st'.
Proof.
  cbv zeta.
  set (file := makeFile [makeHunk "hunk-A"; makeHunk "hunk-B"]).
  set (freshFile := makeFile [makeHunk "hunk-B"]).
  set (g := {| appliedReverse := []; appliedForward := [];
               nextFileDiff := [freshFile] |}).
  set (g' := {| appliedReverse := [buildPatch file (makeHunk "hunk-A")];
                appliedForward := []; nextFileDiff := [freshFile] |}).
  assert (Hfind : find (fun h => bool_decide (id h = Some "hunk-A")) (hunks file)
                  = Some (makeHunk "hunk-A")) by reflexivity.
  assert (Hrev : applyReverse (buildPatch file (makeHunk "hunk-A")) g
                 = (Returned tt, g')) by reflexivity.
  assert (Hdiff : getFileDiff "test.txt" g' = (Returned [freshFile], g'))
    by reflexivity.
  destruct (proj2 (proj2 (proj2
              (reject_outcomes "test.txt" "hunk-A" file (makeHunk "hunk-A")
                 shiftedBefore g Hfind)))
              tt g' g' freshFile [] Hrev Hdiff eq_refl)
    as (st' & Hrej & _ & Harr & _ & Hsync).
  exists st'. split; [exact Hrej|]. split; [|exact Hsync].
  rewrite (Harr 0%nat (makeHunk "hunk-B") eq_refl). vm_compute. reflexivity.
Defined.


(** ** The parser on well-formed output *)

Section WellFormed.
Variable lines_ : list string.




End WellFormed.





